(** * Session authentication state store (use-multi-file-auth-state-prisma.ts)

    A shallow embedding of the storage adapter that persists the
    credentials and the keyed entries of one messaging session behind
    three backends: the relational [session] table, the cache service and
    one file per entry under the session directory.

    Layout: the data model and the operations come first (JavaScript
    values, the JSON text codec, the backends as a world state, the
    functions of the source file in a state-and-exception monad); the
    lemmas and the theorems about them follow. *)

From Stdlib Require Import ZArith NArith Ascii String List Lia.
From Stdlib.Strings Require Import Byte.
From Stdlib Require Import DecimalFacts DecimalN.
From Stdlib Require Import Floats.SpecFloat.
From stdpp Require Import base option list gmap strings.

Import ListNotations.
Local Open Scope string_scope.
Local Open Scope list_scope.

(* ===================================================================== *)
(** * Part I: definitions                                                 *)
(* ===================================================================== *)

(** ** Strings and file names *)

(** [s.replace(/c/g, by)]: every occurrence of the character [c] is
    replaced by the string [by]. *)
Fixpoint replace_all (c : ascii) (by_ : string) (s : string) : string :=
  match s with
  | EmptyString => EmptyString
  | String a r =>
      if Ascii.eqb a c then by_ +:+ replace_all c by_ r
      else String a (replace_all c by_ r)
  end.

(** [fixFileName]: [undefined] (here [None]) for the empty string, else
    the name with ["/"] turned into ["__"] and [":"] into ["-"]. *)
Definition fixFileName (file : string) : option string :=
  if String.eqb file "" then None
  else Some (replace_all ":" "-" (replace_all "/" "__" file)).

(** Membership of a character in a string. *)
Fixpoint has_char (c : ascii) (s : string) : bool :=
  match s with
  | EmptyString => false
  | String a r => Ascii.eqb a c || has_char c r
  end.

(** The name of a keyed entry, [`${category}-${id}`]. *)
Definition entry_key (category id : string) : string :=
  category +:+ "-" +:+ id.

(** ** Numbers

    A JavaScript number is a binary64 floating-point value. *)
Definition double : Type := spec_float.

Definition round_int (neg : bool) (m : positive) : double :=
  binary_round 53 1024 neg m 0.

Definition round_quotient (neg : bool) (m d : positive) : double :=
  let '(q, e, l) := SFdiv_core_binary 53 1024 (Zpos m) 0 (Zpos d) 0 in
  binary_round_aux 53 1024 neg q e l.

(** The double nearest to [m * 10^e], ties to even, as the platform reads
    a decimal literal.  Beyond [10^400] every literal is infinite and
    below [10^-400] every literal is zero. *)
Definition round_decimal (neg : bool) (m : N) (e : Z) : double :=
  match m with
  | N0 => S754_zero neg
  | Npos p =>
      if (400 <? e)%Z then S754_infinity neg
      else if (e + Z.log2_up (Zpos p + 1) <? -400)%Z then S754_zero neg
      else match e with
           | Z0 => round_int neg p
           | Zpos k => round_int neg (p * Pos.pow 10 k)
           | Zneg k => round_quotient neg p (Pos.pow 10 k)
           end
  end.

(** The integer a finite double equals, if it is one. *)
Definition integer_value (m : positive) (e : Z) : option Z :=
  match e with
  | Zneg k =>
      if (Zpos m mod Zpos (Pos.pow 2 k) =? 0)%Z
      then Some (Zpos m / Zpos (Pos.pow 2 k))%Z else None
  | _ => Some (Zpos m * 2 ^ e)%Z
  end.

(** ** JavaScript values

    The values that travel through the store: JSON trees extended with
    binary buffers.  [JNull] is [null]; where the code only tests a
    value for truthiness (an absent value of a bulk set, the result of a
    function without one) it stands for [undefined] as well, and no value
    handed to the codec holds [undefined].  A number is [JNum n] when it
    is an integer of magnitude up to [2^53], which a double holds exactly
    and the platform prints digit by digit, and [JDbl x] otherwise: a
    fraction, a larger number, an infinity or NaN.  An integer literal
    beyond [2^53] is outside this: the model reads it as [JNum n] and
    prints its digits exactly, where the platform holds the nearest
    double and prints the shortest digits that denote it.  The fields of
    an object are listed in property enumeration order. *)
#[local] Unset Elimination Schemes.
Inductive json : Type :=
| JNull
| JBool (b : bool)
| JNum (n : Z)
| JStr (s : string)
| JArr (vs : list json)
| JObj (fs : list (string * json))
| JBuf (bs : list byte)
| JDbl (x : double).
#[local] Set Elimination Schemes.

(** The value of a double in this representation. *)
Definition number_of_double (x : double) : json :=
  match x with
  | S754_zero _ => JNum 0
  | S754_finite neg m e =>
      match integer_value m e with
      | Some n => if (n <=? 2 ^ 53)%Z then JNum (if neg then - n else n) else JDbl x
      | None => JDbl x
      end
  | _ => JDbl x
  end.

(** JavaScript truthiness, as used by [!creds], [value ? .. : ..] and
    [data ? .. : null]. *)
Definition truthy (v : json) : bool :=
  match v with
  | JNull => false
  | JBool b => b
  | JNum n => negb (Z.eqb n 0)
  | JStr s => negb (String.eqb s "")
  | JArr _ | JObj _ | JBuf _ => true
  | JDbl (S754_zero _) | JDbl S754_nan => false
  | JDbl _ => true
  end.

(** Property lookup and assignment on the field list of an object. *)
Fixpoint obj_get (k : string) (fs : list (string * json)) : option json :=
  match fs with
  | [] => None
  | (k', v) :: r => if String.eqb k' k then Some v else obj_get k r
  end.

Fixpoint obj_set (k : string) (v : json) (fs : list (string * json))
  : list (string * json) :=
  match fs with
  | [] => [(k, v)]
  | (k', v') :: r =>
      if String.eqb k' k then (k', v) :: r else (k', v') :: obj_set k v r
  end.

(** An object built from members read left to right: a repeated name
    keeps its first position and its last value. *)
Definition obj_of_members (ms : list (string * json)) : list (string * json) :=
  fold_left (fun acc kv => obj_set (fst kv) (snd kv) acc) ms [].

(** Well-formed values, those for which the round trip of the JSON text
    is proved: no object lists a property twice, and every number is an
    integer. *)
Fixpoint wf_json (v : json) : bool :=
  match v with
  | JArr vs => forallb wf_json vs
  | JObj fs => bool_decide (NoDup (map fst fs))
               && forallb (fun kv => wf_json (snd kv)) fs
  | JDbl _ => false
  | _ => true
  end.

(** ** Base64 *)

Definition sextet : Type := bool * bool * bool * bool * bool * bool.

Definition b64_alphabet : list ascii :=
  list_ascii_of_string
    "ABCDEFGHIJKLMNOPQRSTUVWXYZabcdefghijklmnopqrstuvwxyz0123456789+/".

Definition bit (b : bool) (w : nat) : nat := if b then w else 0.

Definition sextet_index (x : sextet) : nat :=
  let '(a, b, c, d, e, f) := x in
  bit a 32 + bit b 16 + bit c 8 + bit d 4 + bit e 2 + bit f 1.

Definition sextet_of_index (n : nat) : sextet :=
  (Nat.testbit n 5, Nat.testbit n 4, Nat.testbit n 3,
   Nat.testbit n 2, Nat.testbit n 1, Nat.testbit n 0).

Definition b64_char (x : sextet) : ascii :=
  nth (sextet_index x) b64_alphabet "="%char.

Fixpoint index_of (c : ascii) (l : list ascii) : option nat :=
  match l with
  | [] => None
  | a :: r => if Ascii.eqb a c then Some 0 else S <$> index_of c r
  end.

Definition b64_sextet (c : ascii) : option sextet :=
  sextet_of_index <$> index_of c b64_alphabet.

(** Three bytes are four sextets; the bits of a byte come least
    significant first from [Byte.to_bits]. *)
Definition sextets3 (x y z : byte) : sextet * sextet * sextet * sextet :=
  let '(x0, (x1, (x2, (x3, (x4, (x5, (x6, x7))))))) := Byte.to_bits x in
  let '(y0, (y1, (y2, (y3, (y4, (y5, (y6, y7))))))) := Byte.to_bits y in
  let '(z0, (z1, (z2, (z3, (z4, (z5, (z6, z7))))))) := Byte.to_bits z in
  ((x7, x6, x5, x4, x3, x2), (x1, x0, y7, y6, y5, y4),
   (y3, y2, y1, y0, z7, z6), (z5, z4, z3, z2, z1, z0)).

Definition bytes3 (p q r s : sextet) : byte * byte * byte :=
  let '(p5, p4, p3, p2, p1, p0) := p in
  let '(q5, q4, q3, q2, q1, q0) := q in
  let '(r5, r4, r3, r2, r1, r0) := r in
  let '(s5, s4, s3, s2, s1, s0) := s in
  (Byte.of_bits (q4, (q5, (p0, (p1, (p2, (p3, (p4, p5))))))),
   Byte.of_bits (r2, (r3, (r4, (r5, (q0, (q1, (q2, q3))))))),
   Byte.of_bits (s0, (s1, (s2, (s3, (s4, (s5, (r0, r1)))))))).

(** [buf.toString('base64')]: groups of three bytes, the last group
    padded with ["="]. *)
Fixpoint base64_encode (bs : list byte) : list ascii :=
  match bs with
  | [] => []
  | [x] =>
      let '(p, q, _, _) := sextets3 x x00 x00 in
      [b64_char p; b64_char q; "="%char; "="%char]
  | [x; y] =>
      let '(p, q, r, _) := sextets3 x y x00 in
      [b64_char p; b64_char q; b64_char r; "="%char]
  | x :: y :: z :: rest =>
      let '(p, q, r, s) := sextets3 x y z in
      b64_char p :: b64_char q :: b64_char r :: b64_char s :: base64_encode rest
  end.

(** [Buffer.from(text, 'base64')] is lenient: characters outside the
    alphabet are skipped, the first ["="] ends the data, and an
    incomplete last group yields the bytes it determines. *)
Fixpoint b64_sextets (s : list ascii) : list sextet :=
  match s with
  | [] => []
  | c :: r =>
      if Ascii.eqb c "=" then []
      else match b64_sextet c with
           | Some x => x :: b64_sextets r
           | None => b64_sextets r
           end
  end.

Definition zero6 : sextet := (false, false, false, false, false, false).

Fixpoint b64_bytes (xs : list sextet) : list byte :=
  match xs with
  | p :: q :: r :: s :: rest =>
      let '(x, y, z) := bytes3 p q r s in x :: y :: z :: b64_bytes rest
  | [p; q; r] => let '(x, y, _) := bytes3 p q r zero6 in [x; y]
  | [p; q] => let '(x, _, _) := bytes3 p q zero6 zero6 in [x]
  | _ => []
  end.

Definition base64_decode (s : list ascii) : list byte :=
  b64_bytes (b64_sextets s).


(** ** JSON text

    [JSON.stringify] and [JSON.parse] on the values above.  A text is a
    list of characters; strings are sequences of bytes, of which the
    printer escapes the quote, the backslash and the control characters. *)

Definition chars (s : string) : list ascii := list_ascii_of_string s.

(** The double quote and the backslash. *)
Definition dquote : ascii := ascii_of_N 34.
Definition backslash : ascii := ascii_of_N 92.

Definition hex_digit (n : N) : ascii :=
  nth (N.to_nat n) (chars "0123456789abcdef") "0"%char.

Definition escape_char (c : ascii) : list ascii :=
  let n := N_of_ascii c in
  if Ascii.eqb c dquote then [backslash; dquote]
  else if Ascii.eqb c "\" then chars "\\"
  else if N.eqb n 8 then chars "\b"
  else if N.eqb n 9 then chars "\t"
  else if N.eqb n 10 then chars "\n"
  else if N.eqb n 12 then chars "\f"
  else if N.eqb n 13 then chars "\r"
  else if N.ltb n 32
       then chars "\u00" ++ [hex_digit (N.div n 16); hex_digit (N.modulo n 16)]
       else [c].

Definition quote (s : list ascii) : list ascii :=
  dquote :: flat_map escape_char s ++ [dquote].

Fixpoint uint_chars (d : Decimal.uint) : list ascii :=
  match d with
  | Decimal.Nil => []
  | Decimal.D0 d => "0"%char :: uint_chars d
  | Decimal.D1 d => "1"%char :: uint_chars d
  | Decimal.D2 d => "2"%char :: uint_chars d
  | Decimal.D3 d => "3"%char :: uint_chars d
  | Decimal.D4 d => "4"%char :: uint_chars d
  | Decimal.D5 d => "5"%char :: uint_chars d
  | Decimal.D6 d => "6"%char :: uint_chars d
  | Decimal.D7 d => "7"%char :: uint_chars d
  | Decimal.D8 d => "8"%char :: uint_chars d
  | Decimal.D9 d => "9"%char :: uint_chars d
  end.

Definition print_N (n : N) : list ascii := uint_chars (N.to_uint n).

Definition print_Z (z : Z) : list ascii :=
  if Z.ltb z 0 then "-"%char :: print_N (Z.abs_N z) else print_N (Z.abs_N z).

(** *** [Number::toString] *)

(** The magnitude of a finite double as a fraction. *)
Definition magnitude (m : positive) (e : Z) : Z * Z :=
  match e with
  | Zneg k => (Zpos m, Zpos (Pos.pow 2 k))
  | _ => (Zpos m * 2 ^ e, 1)%Z
  end.

(** The least [j >= 1] with [num * 10^j >= den], for [num < den]. *)
Fixpoint first_digit_place (fuel : nat) (num den : Z) (j : Z) : Z :=
  match fuel with
  | O => j
  | S fuel' =>
      if (den <=? num * 10)%Z then j
      else first_digit_place fuel' (num * 10)%Z den (j + 1)%Z
  end.

(** The [n] with [10^(n-1) <= num/den < 10^n]. *)
Definition dec_exponent (num den : Z) : Z :=
  if (den <=? num)%Z then Z.of_nat (length (print_N (Z.to_N (num / den))))
  else (1 - first_digit_place 400 num den 1)%Z.

(** [num/den] scaled to [k] digits before the point: the significand
    below it, the remainder of the division and its divisor. *)
Definition scaled (num den n k : Z) : Z * Z * Z :=
  let '(a, b) := if (n <=? k)%Z then (num * 10 ^ (k - n), den)%Z
                 else (num, den * 10 ^ (n - k))%Z in
  (a / b, a mod b, b)%Z.

Definition rounds_to (x : double) (s n k : Z) : bool :=
  match SFcompare (round_decimal false (Z.to_N s) (n - k)) x with
  | Some Eq => true
  | _ => false
  end.

(** The significand of [k] digits that denotes [x], if there is one: of
    two the nearer, and of two equally near the even one. *)
Definition digits_for (x : double) (num den n k : Z) : option Z :=
  let '(lo, r, b) := scaled num den n k in
  if (r =? 0)%Z then (if rounds_to x lo n k then Some lo else None)
  else
    let hi := (lo + 1)%Z in
    match rounds_to x lo n k, rounds_to x hi n k with
    | true, true =>
        match (2 * r ?= b)%Z with
        | Lt => Some lo
        | Gt => Some hi
        | Eq => Some (if Z.even lo then lo else hi)
        end
    | true, false => Some lo
    | false, true => Some hi
    | false, false => None
    end.

(** The least number of digits, from [k] on, with its significand. *)
Fixpoint shortest (fuel : nat) (x : double) (num den n k : Z) : Z * Z :=
  match fuel with
  | O => let '(lo, r, b) := scaled num den n k in
         (if (2 * r <? b)%Z then lo else lo + 1, k)%Z
  | S fuel' =>
      match digits_for x num den n k with
      | Some s => (s, k)
      | None => shortest fuel' x num den n (k + 1)%Z
      end
  end.

Definition zeros (n : Z) : list ascii := repeat "0"%char (Z.to_nat n).

(** The text of the positive number with the significand [s] of [k]
    digits and the decimal exponent [n]: plain digits up to [10^21], a
    leading [0.] down to [10^-6], and the exponent form beyond. *)
Definition format_digits (s k n : Z) : list ascii :=
  let '(s, n) := if (s =? 10 ^ k)%Z then (10 ^ (k - 1), n + 1)%Z else (s, n) in
  let ds := print_N (Z.to_N s) in
  if ((k <=? n) && (n <=? 21))%Z then ds ++ zeros (n - k)
  else if ((0 <? n) && (n <=? 21))%Z
       then firstn (Z.to_nat n) ds ++ "."%char :: skipn (Z.to_nat n) ds
  else if ((-6 <? n) && (n <=? 0))%Z then "0"%char :: "."%char :: zeros (- n) ++ ds
  else
    let e := (n - 1)%Z in
    let mant := match ds with
                | d :: (_ :: _) as rest => d :: "."%char :: rest
                | _ => ds
                end in
    mant ++ "e"%char :: (if (e <? 0)%Z then "-"%char else "+"%char)
         :: print_N (Z.abs_N e).

Definition print_finite (neg : bool) (m : positive) (e : Z) : list ascii :=
  let '(num, den) := magnitude m e in
  let n := dec_exponent num den in
  let '(s, k) := shortest 17 (S754_finite false m e) num den n 1 in
  (if neg then ["-"%char] else []) ++ format_digits s k n.

(** What [JSON.stringify] prints for a number: [Number::toString] of a
    finite one, [null] for an infinity and for NaN. *)
Definition print_double (x : double) : list ascii :=
  match x with
  | S754_zero _ => ["0"%char]
  | S754_finite neg m e => print_finite neg m e
  | _ => chars "null"
  end.

(** Items separated by commas. *)
Fixpoint commas (items : list (list ascii)) : list ascii :=
  match items with
  | [] => []
  | [x] => x
  | x :: r => x ++ ","%char :: commas r
  end.

Definition print_member (k : string) (v : list ascii) : list ascii :=
  quote (chars k) ++ ":"%char :: v.

(** What [Buffer.prototype.toJSON] makes of a buffer. *)
Definition byte_num (b : byte) : json := JNum (Z.of_N (Byte.to_N b)).

Definition toJSON_buffer (bs : list byte) : json :=
  JObj [("type", JStr "Buffer"); ("data", JArr (map byte_num bs))].

Fixpoint print (v : json) : list ascii :=
  match v with
  | JNull => chars "null"
  | JBool true => chars "true"
  | JBool false => chars "false"
  | JNum n => print_Z n
  | JStr s => quote (chars s)
  | JArr vs => "["%char :: commas (map print vs) ++ ["]"%char]
  | JObj fs =>
      "{"%char
        :: commas (map (fun kv => print_member (fst kv) (print (snd kv))) fs)
        ++ ["}"%char]
  | JBuf bs =>
      "{"%char
        :: commas [print_member "type" (quote (chars "Buffer"));
                   print_member "data"
                     ("["%char
                        :: commas (map (fun b => print_Z (Z.of_N (Byte.to_N b))) bs)
                        ++ ["]"%char])]
        ++ ["}"%char]
  | JDbl x => print_double x
  end.

(** [JSON.stringify(v)]. *)
Definition JSON_stringify (v : json) : string := string_of_list_ascii (print v).

(** *** Parsing *)

Definition is_ws (c : ascii) : bool :=
  let n := N_of_ascii c in
  N.eqb n 32 || N.eqb n 9 || N.eqb n 10 || N.eqb n 13.

Fixpoint skip_ws (s : list ascii) : list ascii :=
  match s with
  | [] => []
  | c :: r => if is_ws c then skip_ws r else s
  end.

Fixpoint strip_prefix (p s : list ascii) : option (list ascii) :=
  match p, s with
  | [], _ => Some s
  | a :: p', b :: s' => if Ascii.eqb a b then strip_prefix p' s' else None
  | _ :: _, [] => None
  end.

Definition hex_val (c : ascii) : option N :=
  let n := N_of_ascii c in
  if N.leb 48 n && N.leb n 57 then Some (n - 48)%N
  else if N.leb 97 n && N.leb n 102 then Some (n - 87)%N
  else if N.leb 65 n && N.leb n 70 then Some (n - 55)%N
  else None.

Definition hex4 (a b c d : ascii) : option N :=
  match hex_val a, hex_val b, hex_val c, hex_val d with
  | Some x, Some y, Some z, Some w => Some (((x * 16 + y) * 16 + z) * 16 + w)%N
  | _, _, _, _ => None
  end.

(** The bytes (UTF-8) of a code point below 65536. *)
Definition utf8 (cp : N) : list ascii :=
  if N.ltb cp 128 then [ascii_of_N cp]
  else if N.ltb cp 2048
       then [ascii_of_N (192 + N.div cp 64); ascii_of_N (128 + N.modulo cp 64)]
       else [ascii_of_N (224 + N.div cp 4096);
             ascii_of_N (128 + N.modulo (N.div cp 64) 64);
             ascii_of_N (128 + N.modulo cp 64)].

Definition unescape (e : ascii) : option ascii :=
  if Ascii.eqb e dquote then Some dquote
  else if Ascii.eqb e "\" then Some "\"%char
  else if Ascii.eqb e "/" then Some "/"%char
  else if Ascii.eqb e "b" then Some (ascii_of_N 8)
  else if Ascii.eqb e "t" then Some (ascii_of_N 9)
  else if Ascii.eqb e "n" then Some (ascii_of_N 10)
  else if Ascii.eqb e "f" then Some (ascii_of_N 12)
  else if Ascii.eqb e "r" then Some (ascii_of_N 13)
  else None.

(** The rest of a string literal, after its opening quote. *)
Fixpoint parse_string (s : list ascii) : option (list ascii * list ascii) :=
  match s with
  | [] => None
  | c :: r =>
      if Ascii.eqb c dquote then Some ([], r)
      else if Ascii.eqb c "\" then
        match r with
        | [] => None
        | e :: r1 =>
            if Ascii.eqb e "u" then
              match r1 with
              | h1 :: h2 :: h3 :: h4 :: r2 =>
                  match hex4 h1 h2 h3 h4 with
                  | Some cp =>
                      match parse_string r2 with
                      | Some (str, rest) => Some (utf8 cp ++ str, rest)
                      | None => None
                      end
                  | None => None
                  end
              | _ => None
              end
            else
              match unescape e with
              | Some ch =>
                  match parse_string r1 with
                  | Some (str, rest) => Some (ch :: str, rest)
                  | None => None
                  end
              | None => None
              end
        end
      else if N.ltb (N_of_ascii c) 32 then None
      else match parse_string r with
           | Some (str, rest) => Some (c :: str, rest)
           | None => None
           end
  end.

Definition digit_cons (c : ascii) : option (Decimal.uint -> Decimal.uint) :=
  let n := N_of_ascii c in
  if N.eqb n 48 then Some Decimal.D0
  else if N.eqb n 49 then Some Decimal.D1
  else if N.eqb n 50 then Some Decimal.D2
  else if N.eqb n 51 then Some Decimal.D3
  else if N.eqb n 52 then Some Decimal.D4
  else if N.eqb n 53 then Some Decimal.D5
  else if N.eqb n 54 then Some Decimal.D6
  else if N.eqb n 55 then Some Decimal.D7
  else if N.eqb n 56 then Some Decimal.D8
  else if N.eqb n 57 then Some Decimal.D9
  else None.

Fixpoint read_digits (s : list ascii) : Decimal.uint * list ascii :=
  match s with
  | [] => (Decimal.Nil, [])
  | c :: r =>
      match digit_cons c with
      | Some f => let '(d, rest) := read_digits r in (f d, rest)
      | None => (Decimal.Nil, s)
      end
  end.

(** A fraction or an exponent follows the digits. *)
Definition continues_number (rest : list ascii) : bool :=
  match rest with
  | c :: _ => Ascii.eqb c "." || Ascii.eqb c "e" || Ascii.eqb c "E"
  | [] => false
  end.

Definition parse_nat (s : list ascii) : option (N * list ascii) :=
  match read_digits s with
  | (Decimal.Nil, _) => None
  | (Decimal.D0 Decimal.Nil, rest) =>
      if continues_number rest then None else Some (0%N, rest)
  | (Decimal.D0 _, _) => None
  | (d, rest) =>
      if continues_number rest then None else Some (N.of_uint d, rest)
  end.

(** The digits of an integer part: no leading zero before a digit. *)
Definition parse_int_part (s : list ascii) : option (Decimal.uint * list ascii) :=
  match read_digits s with
  | (Decimal.Nil, _) => None
  | (Decimal.D0 Decimal.Nil, rest) => Some (Decimal.D0 Decimal.Nil, rest)
  | (Decimal.D0 _, _) => None
  | (d, rest) => Some (d, rest)
  end.

(** The digits after a decimal point, none when there is no point. *)
Definition parse_fraction (s : list ascii) : option (Decimal.uint * list ascii) :=
  match s with
  | c :: r =>
      if Ascii.eqb c "." then
        match read_digits r with
        | (Decimal.Nil, _) => None
        | (d, rest) => Some (d, rest)
        end
      else Some (Decimal.Nil, s)
  | [] => Some (Decimal.Nil, s)
  end.

Definition exponent_digits (neg : bool) (s : list ascii) : option (Z * list ascii) :=
  match read_digits s with
  | (Decimal.Nil, _) => None
  | (d, rest) => Some (if neg then (- Z.of_N (N.of_uint d))%Z
                       else Z.of_N (N.of_uint d), rest)
  end.

(** The exponent part, zero when there is none. *)
Definition parse_exponent (s : list ascii) : option (Z * list ascii) :=
  match s with
  | c :: r =>
      if Ascii.eqb c "e" || Ascii.eqb c "E" then
        match r with
        | c' :: r' =>
            if Ascii.eqb c' "-" then exponent_digits true r'
            else if Ascii.eqb c' "+" then exponent_digits false r'
            else exponent_digits false r
        | [] => None
        end
      else Some (0%Z, s)
  | [] => Some (0%Z, s)
  end.

(** A literal with a fraction or an exponent: the double nearest to its
    decimal value. *)
Definition parse_real (neg : bool) (s : list ascii) : option (json * list ascii) :=
  match parse_int_part s with
  | Some (d, r1) =>
      match parse_fraction r1 with
      | Some (f, r2) =>
          match parse_exponent r2 with
          | Some (e, rest) =>
              let m := N.of_uint (Decimal.app d f) in
              let e10 := (e - Z.of_nat (Decimal.nb_digits f))%Z in
              Some (number_of_double (round_decimal neg m e10), rest)
          | None => None
          end
      | None => None
      end
  | None => None
  end.

(** A number literal.  An integer literal is read exactly, whatever its
    size; the platform rounds one beyond [2^53] to the nearest double. *)
Definition parse_number (s : list ascii) : option (json * list ascii) :=
  match s with
  | c :: r =>
      if Ascii.eqb c "-" then
        match parse_nat r with
        | Some (n, rest) => Some (JNum (- Z.of_N n), rest)
        | None => parse_real true r
        end
      else
        match parse_nat s with
        | Some (n, rest) => Some (JNum (Z.of_N n), rest)
        | None => parse_real false s
        end
  | [] => None
  end.

Fixpoint parse_value (fuel : nat) (s : list ascii) {struct fuel}
  : option (json * list ascii) :=
  match fuel with
  | O => None
  | S fuel' =>
      match skip_ws s with
      | [] => None
      | c :: r =>
          if Ascii.eqb c "n" then
            match strip_prefix (chars "ull") r with
            | Some rest => Some (JNull, rest)
            | None => None
            end
          else if Ascii.eqb c "t" then
            match strip_prefix (chars "rue") r with
            | Some rest => Some (JBool true, rest)
            | None => None
            end
          else if Ascii.eqb c "f" then
            match strip_prefix (chars "alse") r with
            | Some rest => Some (JBool false, rest)
            | None => None
            end
          else if Ascii.eqb c dquote then
            match parse_string r with
            | Some (str, rest) => Some (JStr (string_of_list_ascii str), rest)
            | None => None
            end
          else if Ascii.eqb c "[" then
            match skip_ws r with
            | c' :: r' =>
                if Ascii.eqb c' "]" then Some (JArr [], r')
                else match parse_elements fuel' r with
                     | Some (vs, rest) => Some (JArr vs, rest)
                     | None => None
                     end
            | [] => None
            end
          else if Ascii.eqb c "{" then
            match skip_ws r with
            | c' :: r' =>
                if Ascii.eqb c' "}" then Some (JObj [], r')
                else match parse_members fuel' r with
                     | Some (ms, rest) => Some (JObj (obj_of_members ms), rest)
                     | None => None
                     end
            | [] => None
            end
          else parse_number (c :: r)
      end
  end

with parse_elements (fuel : nat) (s : list ascii) {struct fuel}
  : option (list json * list ascii) :=
  match fuel with
  | O => None
  | S fuel' =>
      match parse_value fuel' s with
      | Some (v, r) =>
          match skip_ws r with
          | c :: r' =>
              if Ascii.eqb c "," then
                match parse_elements fuel' r' with
                | Some (vs, rest) => Some (v :: vs, rest)
                | None => None
                end
              else if Ascii.eqb c "]" then Some ([v], r')
              else None
          | [] => None
          end
      | None => None
      end
  end

with parse_members (fuel : nat) (s : list ascii) {struct fuel}
  : option (list (string * json) * list ascii) :=
  match fuel with
  | O => None
  | S fuel' =>
      match skip_ws s with
      | c :: r =>
          if Ascii.eqb c dquote then
            match parse_string r with
            | Some (k, r1) =>
                match skip_ws r1 with
                | c1 :: r2 =>
                    if Ascii.eqb c1 ":" then
                      match parse_value fuel' r2 with
                      | Some (v, r3) =>
                          match skip_ws r3 with
                          | c3 :: r4 =>
                              if Ascii.eqb c3 "," then
                                match parse_members fuel' r4 with
                                | Some (ms, rest) =>
                                    Some ((string_of_list_ascii k, v) :: ms, rest)
                                | None => None
                                end
                              else if Ascii.eqb c3 "}"
                                   then Some ([(string_of_list_ascii k, v)], r4)
                                   else None
                          | [] => None
                          end
                      | None => None
                      end
                    else None
                | [] => None
                end
            | None => None
            end
          else None
      | [] => None
      end
  end.

(** [JSON.parse(text)]; [None] when it throws a [SyntaxError]. *)
Definition JSON_parse (text : string) : option json :=
  let s := chars text in
  match parse_value (S (length s)) s with
  | Some (v, rest) =>
      match skip_ws rest with
      | [] => Some v
      | _ :: _ => None
      end
  | None => None
  end.

(** The value [JSON.parse(JSON.stringify(v))] of a value: buffers appear
    in the form their [toJSON] gives them, NaN and the infinities as
    [null]. *)
Fixpoint plain (v : json) : json :=
  match v with
  | JBuf bs => toJSON_buffer bs
  | JArr vs => JArr (map plain vs)
  | JObj fs => JObj (map (fun kv => (fst kv, plain (snd kv))) fs)
  | JDbl (S754_infinity _) | JDbl S754_nan => JNull
  | _ => v
  end.

(** Values without buffers: the trees [JSON.parse] produces. *)
Fixpoint pure_json (v : json) : bool :=
  match v with
  | JBuf _ => false
  | JArr vs => forallb pure_json vs
  | JObj fs => forallb (fun kv => pure_json (snd kv)) fs
  | _ => true
  end.

(** ** BufferJSON *)

(** Modelled from the spec: [BufferJSON.replacer] comes from the protocol
    library and is not among the sources.  The codec contract (section
    4.1) has a binary value wrapped with a marker plus its base-encoded
    bytes; the marker is the [type: 'Buffer'] field under which the
    platform itself serialises buffers. *)
Definition buffer_tag (bs : list byte) : json :=
  JObj [("type", JStr "Buffer");
        ("data", JStr (string_of_list_ascii (base64_encode bs)))].

(** The tree [JSON.stringify(v, BufferJSON.replacer)] prints: the
    replacer is applied to a value before its children are visited. *)
Fixpoint replace_buffers (v : json) : json :=
  match v with
  | JBuf bs => buffer_tag bs
  | JArr vs => JArr (map replace_buffers vs)
  | JObj fs => JObj (map (fun kv => (fst kv, replace_buffers (snd kv))) fs)
  | _ => v
  end.

Definition JSON_stringify_replacer (v : json) : string :=
  JSON_stringify (replace_buffers v).

Definition is_tagged (fs : list (string * json)) : bool :=
  match obj_get "type" fs with
  | Some (JStr s) => String.eqb s "Buffer"
  | _ => false
  end.

(** The integer part of a finite double. *)
Definition truncate (neg : bool) (m : positive) (e : Z) : Z :=
  let n := match e with
           | Zneg k => (Zpos m / Zpos (Pos.pow 2 k))%Z
           | _ => (Zpos m * 2 ^ e)%Z
           end in
  if neg then (- n)%Z else n.

Definition byte_of_json (v : json) : byte :=
  match v with
  | JNum n => default x00 (Byte.of_N (Z.to_N (n mod 256)))
  | JDbl (S754_finite neg m e) =>
      default x00 (Byte.of_N (Z.to_N (truncate neg m e mod 256)))
  | _ => x00
  end.

(** Modelled from the spec: [BufferJSON.reviver], also absent from the
    sources, restores a marked mapping to its binary form; the data are
    either base-encoded text or the number array of the platform form. *)
Definition reviver (v : json) : json :=
  match v with
  | JObj fs =>
      if is_tagged fs then
        match obj_get "data" fs with
        | Some (JStr s) => JBuf (base64_decode (chars s))
        | Some (JArr ns) => JBuf (map byte_of_json ns)
        | _ => JBuf []
        end
      else v
  | _ => v
  end.

(** [JSON.parse] calls the reviver on the children of a value before the
    value itself. *)
Fixpoint revive (v : json) : json :=
  match v with
  | JArr vs => reviver (JArr (map revive vs))
  | JObj fs => reviver (JObj (map (fun kv => (fst kv, revive (snd kv))) fs))
  | _ => reviver v
  end.

Definition JSON_parse_reviver (text : string) : option json :=
  revive <$> JSON_parse text.

(** No mapping of the value carries the binary marker. *)
Fixpoint no_tag (v : json) : bool :=
  match v with
  | JArr vs => forallb no_tag vs
  | JObj fs => negb (is_tagged fs) && forallb (fun kv => no_tag (snd kv)) fs
  | _ => true
  end.

(** ** The backends as a world state *)

(** A row of the [session] table. *)
Record SessionData : Type := mkSession { sessionId : string; creds : string }.

Inductive error : Type :=
| BackendFault                  (* a query or an I/O call failed *)
| ENOENT (dir name : string)    (* no such file or directory *)
| UniqueViolation (sid : string) (* insert of an existing key *)
| RecordNotFound (sid : string) (* update or delete of a missing row *)
| SyntaxError                   (* JSON.parse on malformed text *)
| TypeError                     (* raised by the protocol library *)
| DeleteFailed (key : string).  (* Failed to delete key ${key} from Redis *)

Inductive outcome (A : Type) : Type :=
| Ok (a : A)
| Throw (e : error).
Arguments Ok {A} a.
Arguments Throw {A} e.

(** The relational table is a list of rows; the cache is one map from
    namespace and field; the file system is a set of directories and a
    map from directory and file name to contents.  [faults] schedules
    the failures of the coming backend calls (one flag per call, [true]
    for a call that fails); [console] collects what [console.error]
    prints. *)
Record world : Type := mkWorld {
  sessions : list SessionData;
  cache_store : gmap (string * string) json;
  dirs : gset string;
  files : gmap (string * string) string;
  redis_enabled : bool;
  faults : list bool;
  console : list (string * error)
}.

Definition set_sessions (x : list SessionData) (w : world) : world :=
  mkWorld x (cache_store w) (dirs w) (files w) (redis_enabled w) (faults w) (console w).
Definition set_cache (x : gmap (string * string) json) (w : world) : world :=
  mkWorld (sessions w) x (dirs w) (files w) (redis_enabled w) (faults w) (console w).
Definition set_dirs (x : gset string) (w : world) : world :=
  mkWorld (sessions w) (cache_store w) x (files w) (redis_enabled w) (faults w) (console w).
Definition set_files (x : gmap (string * string) string) (w : world) : world :=
  mkWorld (sessions w) (cache_store w) (dirs w) x (redis_enabled w) (faults w) (console w).
Definition set_faults (x : list bool) (w : world) : world :=
  mkWorld (sessions w) (cache_store w) (dirs w) (files w) (redis_enabled w) x (console w).
Definition set_console (x : list (string * error)) (w : world) : world :=
  mkWorld (sessions w) (cache_store w) (dirs w) (files w) (redis_enabled w) (faults w) x.

(** ** The monad of asynchronous functions *)

Definition M (A : Type) : Type := world -> outcome A * world.

Definition ret {A} (a : A) : M A := fun w => (Ok a, w).
Definition throw {A} (e : error) : M A := fun w => (Throw e, w).
Definition bind {A B} (m : M A) (k : A -> M B) : M B :=
  fun w => match m w with
           | (Ok a, w') => k a w'
           | (Throw e, w') => (Throw e, w')
           end.
Definition try_catch {A} (m : M A) (handler : error -> M A) : M A :=
  fun w => match m w with
           | (Ok a, w') => (Ok a, w')
           | (Throw e, w') => handler e w'
           end.

Declare Scope async_scope.
Delimit Scope async_scope with async.
Notation "x <- m ;; k" := (bind m (fun x => k))
  (at level 100, m at next level, right associativity) : async_scope.
Notation "m ;;; k" := (bind m (fun _ => k))
  (at level 100, right associativity) : async_scope.
Local Open Scope async_scope.

(** [await Promise.all(tasks)]: the tasks have all been started, so each
    of them runs whatever the others do; the result is rejected with the
    first failure.  Tasks run here in the order of the list.  The world
    returned with a rejection is the one in which every task has
    settled; the caller is resumed at the first rejection, when later
    tasks can still be pending, so the statements about a rejected call
    are about its settled effect and not about what a next call finds. *)
Fixpoint promise_all {A} (tasks : list (M A)) : M (list A) :=
  match tasks with
  | [] => ret []
  | t :: ts =>
      fun w =>
        match t w with
        | (Ok a, w1) =>
            match promise_all ts w1 with
            | (Ok r, w2) => (Ok (a :: r), w2)
            | (Throw e, w2) => (Throw e, w2)
            end
        | (Throw e, w1) => (Throw e, snd (promise_all ts w1))
        end
  end.

(** The same for callbacks that assign to one shared object [s]. *)
Fixpoint promise_all_on {S} (tasks : list (S -> M S)) (s : S) : M S :=
  match tasks with
  | [] => ret s
  | t :: ts =>
      fun w =>
        match t s w with
        | (Ok s1, w1) => promise_all_on ts s1 w1
        | (Throw e, w1) => (Throw e, snd (promise_all_on ts s w1))
        end
  end.

(** [console.error(message, error)]. *)
Definition console_error (msg : string) (e : error) : M unit :=
  fun w => (Ok tt, set_console (console w ++ [(msg, e)]) w).

(** Every call to a backend takes the next flag of the schedule. *)
Definition backend_call : M unit :=
  fun w => match faults w with
           | [] => (Ok tt, w)
           | false :: r => (Ok tt, set_faults r w)
           | true :: r => (Throw BackendFault, set_faults r w)
           end.

(** *** prismaRepository.session

    [findUnique({ where: { sessionId } })] makes [sessionId] a unique key
    of the table (section 6: a record keyed by session identifier), so an
    insert of a key that is present fails. *)
Definition has_session (sid : string) (r : SessionData) : bool :=
  String.eqb (sessionId r) sid.

Definition session_findUnique (sid : string) : M (option SessionData) :=
  backend_call ;;;
  fun w => (Ok (find (has_session sid) (sessions w)), w).

Definition session_create (data : SessionData) : M SessionData :=
  backend_call ;;;
  fun w => if existsb (has_session (sessionId data)) (sessions w)
           then (Throw (UniqueViolation (sessionId data)), w)
           else (Ok data, set_sessions (sessions w ++ [data]) w).

Definition upd_row (sid c : string) (r : SessionData) : SessionData :=
  if has_session sid r then mkSession sid c else r.

Definition session_update (sid : string) (c : string) : M SessionData :=
  backend_call ;;;
  fun w => if existsb (has_session sid) (sessions w)
           then (Ok (mkSession sid c),
                 set_sessions (map (upd_row sid c) (sessions w)) w)
           else (Throw (RecordNotFound sid), w).

Definition session_delete (sid : string) : M SessionData :=
  backend_call ;;;
  fun w => match find (has_session sid) (sessions w) with
           | Some r =>
               (Ok r, set_sessions
                        (List.filter (fun r => negb (has_session sid r)) (sessions w)) w)
           | None => (Throw (RecordNotFound sid), w)
           end.

(** *** fs/promises *)

Definition path : Type := string * string.

Definition fs_mkdir_recursive (dir : string) : M unit :=
  backend_call ;;;
  fun w => (Ok tt, set_dirs ({[dir]} ∪ dirs w) w).

(** [(await fs.stat(file)).isFile()] for the path of an entry. *)
Definition fs_stat_isFile (p : path) : M bool :=
  backend_call ;;;
  fun w => match files w !! p with
           | Some _ => (Ok true, w)
           | None => (Throw (ENOENT (fst p) (snd p)), w)
           end.

Definition fs_readFile (p : path) : M string :=
  backend_call ;;;
  fun w => match files w !! p with
           | Some text => (Ok text, w)
           | None => (Throw (ENOENT (fst p) (snd p)), w)
           end.

(** [fs.writeFile(file, text)].  A call that fails is modelled as
    failing before it touched the file; the platform can also fail
    after it truncated the file and leave it empty or partial, so the
    statements say nothing of the file of a write that failed. *)
Definition fs_writeFile (p : path) (text : string) : M unit :=
  backend_call ;;;
  fun w => if bool_decide (fst p ∈ dirs w)
           then (Ok tt, set_files (<[p := text]> (files w)) w)
           else (Throw (ENOENT (fst p) (snd p)), w).

Definition fs_unlink (p : path) : M unit :=
  backend_call ;;;
  fun w => match files w !! p with
           | Some _ => (Ok tt, set_files (delete p (files w)) w)
           | None => (Throw (ENOENT (fst p) (snd p)), w)
           end.

(** *** CacheService *)

(** Modelled from the spec: the cache service is not among the sources.
    Section 4.3 gives a namespaced hash-map; a value is stored
    structured, in the cache's own JSON representation. *)
Definition cache_hSet (ns field : string) (v : json) : M json :=
  backend_call ;;;
  fun w => (Ok JNull, set_cache (<[(ns, field) := plain v]> (cache_store w)) w).

(** Modelled from the spec: [hGet(namespace, field) -> value | null]. *)
Definition cache_hGet (ns field : string) : M json :=
  backend_call ;;;
  fun w => (Ok (default JNull (cache_store w !! (ns, field))), w).

(** Modelled from the spec: [hDelete(namespace, field) -> bool], true iff
    a field was actually removed. *)
Definition cache_hDelete (ns field : string) : M json :=
  backend_call ;;;
  fun w => match cache_store w !! (ns, field) with
           | Some _ => (Ok (JBool true), set_cache (delete (ns, field) (cache_store w)) w)
           | None => (Ok (JBool false), w)
           end.

(** ** The functions of the source file *)

(** Modelled from the spec: the configured instance root ([INSTANCE_DIR]
    of the path configuration, not among the sources). *)
Definition INSTANCE_DIR : string := "instances".

Definition path_join (a b : string) : string := a +:+ "/" +:+ b.

Definition isRedisEnabled : M bool := fun w => (Ok (redis_enabled w), w).

Definition fileExists (file : path) : M bool :=
  try_catch (fs_stat_isFile file) (fun _ => ret false).

Definition row_json (r : SessionData) : json :=
  JObj [("sessionId", JStr (sessionId r)); ("creds", JStr (creds r))].

Definition keyExists (sid : string) : M bool :=
  try_catch
    (key <- session_findUnique sid ;;
     ret (bool_decide (is_Some key)))
    (fun e =>
       console_error ("Error checking key existence for session " +:+ sid +:+ ":") e ;;;
       ret false).

Definition saveKey (sid : string) (keyJson : json) : M json :=
  try_catch
    (exists_ <- keyExists sid ;;
     let data := mkSession sid (JSON_stringify keyJson) in
     if negb exists_ then
       r <- session_create data ;; ret (row_json r)
     else
       r <- session_update sid (creds data) ;; ret (row_json r))
    (fun e =>
       console_error ("Error saving key for session " +:+ sid +:+ ":") e ;;;
       ret JNull).

Definition getAuthKey (sid : string) : M json :=
  try_catch
    (auth <- session_findUnique sid ;;
     match auth with
     | Some row =>
         match JSON_parse (creds row) with
         | Some v => ret v
         | None => throw SyntaxError
         end
     | None => ret JNull
     end)
    (fun e =>
       console_error ("Error getting auth key for session " +:+ sid +:+ ":") e ;;;
       ret JNull).

Definition deleteAuthKey (sid : string) : M json :=
  try_catch
    (session_delete sid ;;; ret JNull)
    (fun e =>
       console_error ("Error deleting auth key for session " +:+ sid +:+ ":") e ;;;
       ret JNull).

Definition localFolder (sid : string) : string := path_join INSTANCE_DIR sid.

(** [`${fixFileName(key)}.json`] under the session folder; the template
    prints [undefined] for a missing name. *)
Definition file_name (key : string) : string :=
  default "undefined" (fixFileName key) +:+ ".json".

Definition localFile (sid key : string) : path := (localFolder sid, file_name key).

Definition writeData (sid : string) (data : json) (key : string) : M json :=
  try_catch
    (let dataString := JSON_stringify_replacer data in
     if String.eqb key "creds" then saveKey sid (JStr dataString)
     else
       redis <- isRedisEnabled ;;
       if redis then cache_hSet sid key data
       else
         fs_writeFile (localFile sid key) dataString ;;;
         ret (JBool true))
    (fun e =>
       console_error ("Error writing data for key " +:+ key +:+ ":") e ;;;
       throw e).

Definition parse_or_throw (parsed : option json) : M json :=
  match parsed with
  | Some v => ret v
  | None => throw SyntaxError
  end.

Definition readData (sid : string) (key : string) : M json :=
  try_catch
    (if String.eqb key "creds" then getAuthKey sid
     else
       redis <- isRedisEnabled ;;
       if redis then
         data <- cache_hGet sid key ;;
         if truthy data
         then parse_or_throw (JSON_parse_reviver (JSON_stringify data))
         else ret JNull
       else
         present <- fileExists (localFile sid key) ;;
         if negb present then ret JNull
         else
           rawData <- fs_readFile (localFile sid key) ;;
           parse_or_throw (JSON_parse_reviver rawData))
    (fun e =>
       console_error ("Error reading data for key " +:+ key +:+ ":") e ;;;
       ret JNull).

Definition removeData (sid : string) (key : string) : M json :=
  try_catch
    (if String.eqb key "creds" then deleteAuthKey sid
     else
       redis <- isRedisEnabled ;;
       if redis then
         deleted <- cache_hDelete sid key ;;
         if negb (truthy deleted) then throw (DeleteFailed key)
         else ret deleted
       else
         fs_unlink (localFile sid key) ;;;
         ret (JBool true))
    (fun e =>
       console_error ("Error removing data for key " +:+ key +:+ ":") e ;;;
       throw e).

(** ** The object a bulk get fills

    [const data = {}] and [data[id] = value].  For every id but
    [__proto__] the assignment creates or overwrites an own property of
    [data].  The name [__proto__] is an accessor inherited from
    [Object.prototype]: that assignment creates no property, it makes an
    object or [null] the prototype of [data] and does nothing for any
    other value.  What an assignment does to an object whose prototype
    was changed depends on the properties the object then inherits; the
    model does not follow it and gives [Unknown]. *)
Inductive js_object : Type :=
| Plain (own : gmap string json)
| Reparented (own : gmap string json) (proto : json)
| Unknown.

(** The values [Object.setPrototypeOf] accepts: objects and [null]. *)
Definition reparents (v : json) : bool :=
  match v with
  | JNull | JArr _ | JObj _ | JBuf _ => true
  | _ => false
  end.

Definition assign (id : string) (value : json) (o : js_object) : js_object :=
  match o with
  | Plain own =>
      if String.eqb id "__proto__"
      then (if reparents value then Reparented own value else o)
      else Plain (<[id := value]> own)
  | _ => Unknown
  end.

Section Facade.

(** The two capabilities of the protocol library: the credentials
    [initAuthCreds()] returns, and
    [proto.Message.AppStateSyncKeyData.fromObject], which may throw. *)
Variable initAuthCreds : json.
Variable fromObject : json -> outcome json.

(** The initialisation of [useMultiFileAuthStatePrisma]; the result is
    the [creds] of the state it returns. *)
Definition useMultiFileAuthStatePrisma (sid : string) : M json :=
  fs_mkdir_recursive (localFolder sid) ;;;
  creds0 <- readData sid "creds" ;;
  if negb (truthy creds0) then
    writeData sid initAuthCreds "creds" ;;;
    ret initAuthCreds
  else ret creds0.

(** One callback of [state.keys.get]; [data] is the object they share. *)
Definition get_entry (sid type_ : string) (id : string)
    (data : js_object) : M js_object :=
  value <- readData sid (entry_key type_ id) ;;
  value' <- (if String.eqb type_ "app-state-sync-key" && truthy value
             then (fun w => (fromObject value, w))
             else ret value) ;;
  ret (assign id value' data).

Definition keys_get (sid type_ : string) (ids : list string)
  : M js_object :=
  promise_all_on (map (get_entry sid type_) ids) (Plain ∅).

End Facade.

(** [state.keys.set]: the two [for .. in] loops push one started task
    per entry of each category; the argument lists the categories, and
    each category its ids, in enumeration order. *)
Definition set_tasks (sid : string) (data : list (string * list (string * json)))
  : list (M json) :=
  flat_map
    (fun c =>
       let category := fst c in
       map (fun iv =>
              let id := fst iv in
              let value := snd iv in
              let key := entry_key category id in
              if truthy value then writeData sid value key else removeData sid key)
           (snd c))
    data.

Definition keys_set (sid : string) (data : list (string * list (string * json)))
  : M unit :=
  promise_all (set_tasks sid data) ;;; ret tt.

Definition saveCreds (sid : string) (creds_ : json) : M json :=
  writeData sid creds_ "creds".

(** ** Notions used by the statements *)

(** *** File names *)

(** What [fixFileName] does to one character. *)
Definition sanitize_char (a : ascii) : string :=
  if Ascii.eqb a "/" then "__"
  else if Ascii.eqb a ":" then "-"
  else String a "".

Fixpoint sanitize (s : string) : string :=
  match s with
  | EmptyString => EmptyString
  | String a r => sanitize_char a +:+ sanitize r
  end.

(** Two names do not use both of the characters [a] and [b]. *)
Definition apart (a b : ascii) (s1 s2 : string) : bool :=
  negb ((has_char a s1 || has_char a s2) && (has_char b s1 || has_char b s2)).

(** *** The codec *)

(** A text that ends here or goes on with a delimiter of the grammar. *)
Definition delimited (rest : list ascii) : Prop :=
  match rest with
  | [] => True
  | c :: _ => c = ","%char \/ c = "]"%char \/ c = "}"%char
  end.

Definition is_digit (c : ascii) : Prop := digit_cons c <> None.

(** The first character of a printed value: not white space and not a
    closing bracket. *)
Definition value_start (s : list ascii) : Prop :=
  match s with
  | c :: _ => is_ws c = false /\ Ascii.eqb c "]" = false
  | [] => False
  end.

(** Printing [v] in front of a delimiter and parsing gives [v] back and
    leaves the delimiter. *)
Definition parses_back (v : json) : Prop :=
  forall fuel rest,
    length (print v) <= fuel -> delimited rest ->
    parse_value fuel (print v ++ rest) = Some (v, rest).

Definition print_field (kv : string * json) : list ascii :=
  print_member (fst kv) (print (snd kv)).



(** The value of the scenario of section 8: a mapping with a binary
    field of seven bytes. *)
Definition pre_key_value : json :=
  JObj [("bytes", JBuf [x01; x02; x03; xfd; xfe; xff; x00])].

(** *** Worlds *)

(** A world with an empty fault schedule: no backend call fails. *)
Definition healthy (w : world) : Prop := faults w = [].

Definition empty_world (redis : bool) : world :=
  mkWorld [] ∅ ∅ ∅ redis [] [].

(** The next backend call fails. *)
Definition fails_next (w : world) : bool :=
  match faults w with
  | true :: _ => true
  | _ => false
  end.

(** The world after a backend call took its flag. *)
Definition next_call (w : world) : world := set_faults (tail (faults w)) w.

(** The world after [console.error(msg, e)]. *)
Definition logged (msg : string) (e : error) (w : world) : world :=
  set_console (console w ++ [(msg, e)]) w.

(** The world after a backend call failed on the first flag and the
    failure was reported on the console. *)
Definition after_failure (msg : string) (rest : list bool) (w : world) : world :=
  set_console (console w ++ [(msg, BackendFault)]) (set_faults rest w).

(** Two worlds with the same stores: they differ at most in the fault
    schedule and in the console. *)
Definition same_store (w w' : world) : Prop :=
  sessions w' = sessions w /\ cache_store w' = cache_store w /\
  dirs w' = dirs w /\ files w' = files w /\ redis_enabled w' = redis_enabled w.

(** *** The relational table *)

Definition rows_of (sid : string) (w : world) : list SessionData :=
  List.filter (has_session sid) (sessions w).

(** No two rows of the table have the same session identifier. *)
Definition unique_sessions (w : world) : Prop :=
  NoDup (map sessionId (sessions w)).

(** A sequence of [saveKey] calls, each with its session and value. *)
Definition run_saveKeys (calls : list (string * json)) (w : world) : world :=
  fold_left (fun w c => snd (saveKey (fst c) (snd c) w)) calls w.

(** *** Keyed entries *)

(** The (category, id, value) triples of an argument of [state.keys.set]. *)
Definition triples (data : list (string * list (string * json)))
  : list (string * string * json) :=
  flat_map (fun c => map (fun iv => (fst c, fst iv, snd iv)) (snd c)) data.

(** The task [state.keys.set] starts for one triple. *)
Definition set_task (sid : string) (t : string * string * json) : M json :=
  let key := entry_key (fst (fst t)) (snd (fst t)) in
  if truthy (snd t) then writeData sid (snd t) key else removeData sid key.

(** The world after the tasks of the triples [ts], one after the other. *)
Definition run_tasks (sid : string) (ts : list (string * string * json)) (w : world)
  : world :=
  fold_left (fun w t => snd (t w)) (map (set_task sid) ts) w.

(** No backend call fails and the active backend can take entries: the
    cache serves them, or the session folder exists. *)
Definition ready (sid : string) (w : world) : Prop :=
  faults w = [] /\ (redis_enabled w = true \/ localFolder sid ∈ dirs w).

(** The values of keyed entries: mappings, sequences, binary values. *)
Definition is_structured (v : json) : bool :=
  match v with
  | JArr _ | JObj _ | JBuf _ => true
  | _ => false
  end.

(** What the active backend holds for an entry: the structured value of
    the cache, or the text of the file. *)
Definition backend_entry (w : world) (sid key : string) : option (json + string) :=
  if redis_enabled w then inl <$> cache_store w !! (sid, key)
  else inr <$> files w !! localFile sid key.

(** What a write of [v] leaves in the active backend. *)
Definition written_form (w : world) (v : json) : json + string :=
  if redis_enabled w then inl (plain v) else inr (JSON_stringify_replacer v).

(** Where the active backend keeps an entry: the field of the hash, or
    the file name. *)
Definition slot_of (w : world) (t : string * string * json) : string :=
  let key := entry_key (fst (fst t)) (snd (fst t)) in
  if redis_enabled w then key else file_name key.

(** The value a read of an entry decodes when no backend call fails:
    [null] for an entry that is absent or whose text does not parse. *)
Definition stored_value (w : world) (sid key : string) : json :=
  if redis_enabled w then
    match cache_store w !! (sid, key) with
    | Some data =>
        if truthy data
        then default JNull (JSON_parse_reviver (JSON_stringify data))
        else JNull
    | None => JNull
    end
  else
    match files w !! localFile sid key with
    | Some text => default JNull (JSON_parse_reviver text)
    | None => JNull
    end.

(** What [state.keys.get] makes of a value read for a type. *)
Definition reconstruct (fromObject : json -> outcome json) (type_ : string)
    (v : json) : outcome json :=
  if String.eqb type_ "app-state-sync-key" && truthy v then fromObject v else Ok v.

(** The reconstruction cannot throw: the type is not the distinguished
    one, or [fromObject] accepts every value. *)
Definition reconstruct_safe (fromObject : json -> outcome json) (type_ : string)
  : Prop :=
  type_ <> "app-state-sync-key" \/ forall v, exists v', fromObject v = Ok v'.

(** The value a bulk get binds to an id: [null], or what the
    reconstruction makes of the stored value. *)
Definition bound_value (fromObject : json -> outcome json) (sid type_ : string)
    (w : world) (id : string) (x : json) : Prop :=
  x = JNull
  \/ reconstruct fromObject type_ (stored_value w sid (entry_key type_ id)) = Ok x.

(** The value a read of an entry returns in a world: [null] when its
    first backend call fails, and in filesystem mode also when the file
    is missing or the call that reads it fails; otherwise the stored
    value. *)
Definition read_value (w : world) (sid key : string) : json :=
  if fails_next w then JNull
  else if redis_enabled w then stored_value w sid key
  else match files w !! localFile sid key with
       | Some _ => if fails_next (next_call w) then JNull else stored_value w sid key
       | None => JNull
       end.

(** The assignments of a bulk get that reads the value [vals id] for
    every id. *)
Definition assign_all (vals : string -> json) (ids : list string) (o : js_object)
  : js_object :=
  fold_left (fun o id => assign id (vals id) o) ids o.

(** *** Sample inputs *)

(** Filesystem mode: the folder of session [s1] with an entry that holds
    the encoded sample value and an entry whose text is malformed. *)
Definition fs_world : world :=
  mkWorld [] ∅ {[localFolder "s1"]}
    (<[localFile "s1" "pre-key-1" := JSON_stringify_replacer pre_key_value]>
       (<[localFile "s1" "pre-key-2" := "{oops"]> ∅))
    false [] [].

(** Cache mode: the hash of session [s1] with one entry. *)
Definition cache_world : world :=
  mkWorld [] (<[("s1", "pre-key-1") := plain pre_key_value]> ∅) ∅ ∅ true [] [].

(** Fresh credentials with a binary field. *)
Definition sample_creds : list (string * json) :=
  [("registrationId", JNum 7); ("signedIdentityKey", JBuf [x0a; x0b; x0c])].

(** A reconstruction that accepts every value. *)
Definition accept (v : json) : outcome json := Ok v.

(** Arguments of a bulk set: one entry removed and one written; and the
    removal of the scenario of section 8. *)
Definition bulk_data : list (string * list (string * json)) :=
  [("pre-key", [("1", JNull); ("3", pre_key_value)])].

Definition remove_data : list (string * list (string * json)) :=
  [("pre-key", [("3", JNull)])].

(** *** Further sample inputs *)

(** The name of the entry a triple addresses. *)
Definition task_key (t : string * string * json) : string :=
  entry_key (fst (fst t)) (snd (fst t)).

(** A table with two records: the one of session [s1] holds the text of
    a mapping, the one of session [s2] a text that does not parse. *)
Definition stored_creds : json := JObj [("registrationId", JNum 7)].

Definition table_world : world :=
  mkWorld [mkSession "s1" (JSON_stringify stored_creds); mkSession "s2" "{oops"]
    ∅ ∅ ∅ false [] [].

(** The mapping a bulk get of the ids [1] and [2] returns in [fs_world]. *)
Definition sample_mapping : gmap string json :=
  <["1" := pre_key_value]> (<["2" := JNull]> ∅).

(** A table whose record holds the text of a number with a fraction. *)
Definition fraction_table : world :=
  mkWorld [mkSession "s3" "1.5"] ∅ ∅ ∅ false [] [].

(** A reconstruction that refuses every value. *)
Definition refuse (v : json) : outcome json := Throw TypeError.

(** Filesystem mode with an entry of the distinguished type whose text
    holds a fraction. *)
Definition fraction_world : world :=
  mkWorld [] ∅ {[localFolder "s1"]}
    (<[localFile "s1" "app-state-sync-key-k" := "[1.5]"]> ∅) false [] [].


(* ===================================================================== *)
(** * Part II: lemmas and theorems                                        *)
(* ===================================================================== *)

(** ** File names *)

#[local] Arguments String.append !s1 s2 : simpl nomatch.

Lemma append_assoc (a b c : string) : (a +:+ b) +:+ c = a +:+ (b +:+ c).
Proof. induction a as [|x a IH]; simpl; [reflexivity | now rewrite IH]. Qed.

(** The two passes of [fixFileName] amount to one pass that rewrites
    each character on its own. *)
Lemma two_passes_sanitize (s : string) :
  replace_all ":" "-" (replace_all "/" "__" s) = sanitize s.
Proof.
  induction s as [|a s IH]; simpl; [reflexivity|].
  unfold sanitize_char.
  destruct (Ascii.eqb_spec a "/") as [->|Hs]; simpl.
  - now rewrite IH.
  - destruct (Ascii.eqb a ":"); simpl; now rewrite IH.
Qed.

Lemma fixFileName_sanitize (s : string) :
  fixFileName s = if String.eqb s "" then None else Some (sanitize s).
Proof. unfold fixFileName. now rewrite two_passes_sanitize. Qed.

Lemma apart_tails a b x s1 y s2 :
  apart a b (String x s1) (String y s2) = true -> apart a b s1 s2 = true.
Proof.
  unfold apart; simpl.
  destruct (Ascii.eqb x a), (Ascii.eqb y a), (Ascii.eqb x b), (Ascii.eqb y b),
    (has_char a s1), (has_char a s2), (has_char b s1), (has_char b s2);
    simpl; congruence.
Qed.

Lemma apart_heads a b s1 s2 :
  apart a b (String a s1) (String b s2) = false.
Proof.
  unfold apart; simpl. rewrite !Ascii.eqb_refl. simpl.
  now rewrite Bool.orb_true_r.
Qed.

Lemma apart_sym a b s1 s2 : apart a b s2 s1 = apart a b s1 s2.
Proof.
  unfold apart. f_equal. f_equal; apply Bool.orb_comm.
Qed.

Lemma sanitize_injective_apart (s1 s2 : string) :
  apart "/" "_" s1 s2 = true ->
  apart ":" "-" s1 s2 = true ->
  sanitize s1 = sanitize s2 -> s1 = s2.
Proof.
  revert s2. induction s1 as [|x s1 IH]; intros [|y s2] Hu Hc E.
  - reflexivity.
  - exfalso. simpl in E. unfold sanitize_char in E.
    destruct (Ascii.eqb y "/"); [discriminate|].
    destruct (Ascii.eqb y ":"); discriminate.
  - exfalso. simpl in E. unfold sanitize_char in E.
    destruct (Ascii.eqb x "/"); [discriminate|].
    destruct (Ascii.eqb x ":"); discriminate.
  - pose proof (apart_tails _ _ _ _ _ _ Hu) as Hu'.
    pose proof (apart_tails _ _ _ _ _ _ Hc) as Hc'.
    simpl in E. unfold sanitize_char in E.
    destruct (Ascii.eqb_spec x "/") as [->|Hx1];
      destruct (Ascii.eqb_spec y "/") as [->|Hy1]; simpl in E.
    + injection E as E. f_equal. now apply IH.
    + destruct (Ascii.eqb_spec y ":") as [->|Hy2]; simpl in E; [discriminate|].
      injection E as Ey _. subst y. now rewrite apart_heads in Hu.
    + destruct (Ascii.eqb_spec x ":") as [->|Hx2]; simpl in E; [discriminate|].
      injection E as Ex _. subst x.
      rewrite apart_sym in Hu. now rewrite apart_heads in Hu.
    + destruct (Ascii.eqb_spec x ":") as [->|Hx2];
        destruct (Ascii.eqb_spec y ":") as [->|Hy2]; simpl in E.
      * injection E as E. f_equal. now apply IH.
      * injection E as Ey E. subst y. now rewrite apart_heads in Hc.
      * injection E as Ex E. subst x.
        rewrite apart_sym in Hc. now rewrite apart_heads in Hc.
      * injection E as Exy E. subst y. f_equal. now apply IH.
Qed.

(** C2, as stated, fails: two distinct keyed-entry names that differ only
    in a colon against a hyphen get the same file name. *)
Lemma fixFileName_collision :
  entry_key "session" "1:2" <> entry_key "session" "1-2" /\
  fixFileName (entry_key "session" "1:2") = fixFileName (entry_key "session" "1-2").
Proof. split; [discriminate | reflexivity]. Qed.

Lemma sanitize_append (s t : string) :
  sanitize (s +:+ t) = sanitize s +:+ sanitize t.
Proof.
  induction s as [|a s IH]; simpl; [reflexivity|].
  now rewrite IH, append_assoc.
Qed.

(** C2 (amended): [fixFileName] is injective on names that share a prefix
    (for keyed entries the category with its hyphen, or no prefix at all)
    and whose remainders (the ids) do not use both the slash and the
    underscore, nor both the colon and the hyphen: two distinct such
    names never get the same file name. *)
Theorem fixFileName_injective_apart (prefix k1 k2 : string) :
  apart "/" "_" k1 k2 = true ->
  apart ":" "-" k1 k2 = true ->
  fixFileName (prefix +:+ k1) = fixFileName (prefix +:+ k2) ->
  prefix +:+ k1 = prefix +:+ k2.
Proof.
  intros Hu Hc. rewrite !fixFileName_sanitize.
  destruct (String.eqb_spec (prefix +:+ k1) "") as [E1|H1];
    destruct (String.eqb_spec (prefix +:+ k2) "") as [E2|H2]; try discriminate.
  - congruence.
  - intros [= E]. rewrite !sanitize_append in E.
    apply String.app_inj in E. f_equal. now apply sanitize_injective_apart.
Qed.

Lemma fixFileName_injective_apart_witness :
  "app-state-sync-key-" +:+ "AAAA/b:1" = "app-state-sync-key-" +:+ "AAAA/b:1".
Proof.
  apply (fixFileName_injective_apart "app-state-sync-key-" "AAAA/b:1" "AAAA/b:1");
    reflexivity.
Defined.

(** ** Base64 *)

Lemma list_ind3 {A} (P : list A -> Prop) :
  P [] -> (forall x, P [x]) -> (forall x y, P [x; y]) ->
  (forall x y z r, P r -> P (x :: y :: z :: r)) ->
  forall l, P l.
Proof.
  intros H0 H1 H2 H3. fix IH 1.
  intros [|x [|y [|z r]]]; [exact H0 | apply H1 | apply H2 | apply H3, IH].
Qed.

Lemma b64_sextet_char (x : sextet) : b64_sextet (b64_char x) = Some x.
Proof.
  destruct x as [[[[[a b] c] d] e] f].
  destruct a, b, c, d, e, f; vm_compute; reflexivity.
Qed.

Lemma b64_char_not_pad (x : sextet) : Ascii.eqb (b64_char x) "=" = false.
Proof.
  destruct x as [[[[[a b] c] d] e] f].
  destruct a, b, c, d, e, f; vm_compute; reflexivity.
Qed.

Lemma b64_sextets_char (x : sextet) (r : list ascii) :
  b64_sextets (b64_char x :: r) = x :: b64_sextets r.
Proof.
  cbn [b64_sextets]. now rewrite b64_char_not_pad, b64_sextet_char.
Qed.

Lemma b64_sextets_pad (r : list ascii) : b64_sextets ("="%char :: r) = [].
Proof. reflexivity. Qed.

Ltac byte_bits x :=
  let E := fresh "E" in
  pose proof (Byte.of_bits_to_bits x) as E;
  destruct (Byte.to_bits x) as [? [? [? [? [? [? [? ?]]]]]]];
  subst x.

Lemma bytes3_sextets3 (x y z : byte) :
  (let '(p, q, r, s) := sextets3 x y z in bytes3 p q r s) = (x, y, z).
Proof.
  unfold sextets3. byte_bits x. byte_bits y. byte_bits z. reflexivity.
Qed.

Lemma bytes3_sextets3_two (x y : byte) :
  (let '(p, q, r, _) := sextets3 x y x00 in
   let '(x', y', _) := bytes3 p q r zero6 in (x', y')) = (x, y).
Proof.
  unfold sextets3. byte_bits x. byte_bits y. reflexivity.
Qed.

Lemma bytes3_sextets3_one (x : byte) :
  (let '(p, q, _, _) := sextets3 x x00 x00 in
   let '(x', _, _) := bytes3 p q zero6 zero6 in x') = x.
Proof.
  unfold sextets3. byte_bits x. reflexivity.
Qed.

(** Decoding the base64 text of a buffer gives its bytes back. *)
Lemma base64_decode_encode (bs : list byte) :
  base64_decode (base64_encode bs) = bs.
Proof.
  unfold base64_decode.
  induction bs as [|x|x y|x y z r IH] using list_ind3.
  - reflexivity.
  - pose proof (bytes3_sextets3_one x) as H.
    cbn [base64_encode]. destruct (sextets3 x x00 x00) as [[[p q] r] s].
    rewrite !b64_sextets_char, b64_sextets_pad. cbn [b64_bytes].
    destruct (bytes3 p q zero6 zero6) as [[x' y'] z']. now subst.
  - pose proof (bytes3_sextets3_two x y) as H.
    cbn [base64_encode]. destruct (sextets3 x y x00) as [[[p q] r] s].
    rewrite !b64_sextets_char, b64_sextets_pad. cbn [b64_bytes].
    destruct (bytes3 p q r zero6) as [[x' y'] z']. now inversion H.
  - pose proof (bytes3_sextets3 x y z) as H.
    cbn [base64_encode]. destruct (sextets3 x y z) as [[[p q] r'] s].
    rewrite !b64_sextets_char. cbn [b64_bytes].
    destruct (bytes3 p q r' s) as [[x' y'] z']. inversion H; subst.
    now rewrite IH.
Qed.

(** ** JSON text: what is printed parses back *)

Lemma json_ind' (P : json -> Prop) :
  P JNull -> (forall b, P (JBool b)) -> (forall n, P (JNum n)) ->
  (forall s, P (JStr s)) ->
  (forall vs, Forall P vs -> P (JArr vs)) ->
  (forall fs, Forall (fun kv => P (snd kv)) fs -> P (JObj fs)) ->
  (forall bs, P (JBuf bs)) ->
  (forall x, P (JDbl x)) ->
  forall v, P v.
Proof.
  intros Hnull Hbool Hnum Hstr Harr Hobj Hbuf Hdbl.
  fix IH 1. intros [| b | n | s | vs | fs | bs | x].
  - exact Hnull.
  - apply Hbool.
  - apply Hnum.
  - apply Hstr.
  - apply Harr. induction vs as [|v vs IHvs]; constructor; [apply IH | exact IHvs].
  - apply Hobj. induction fs as [|[k v] fs IHfs]; constructor; [apply IH | exact IHfs].
  - apply Hbuf.
  - apply Hdbl.
Qed.


(** *** Numbers *)


Lemma read_digits_uint_chars (d : Decimal.uint) (rest : list ascii) :
  match rest with [] => True | c :: _ => digit_cons c = None end ->
  read_digits (uint_chars d ++ rest) = (d, rest).
Proof.
  intros Hrest.
  induction d; cbn [uint_chars app read_digits];
    try (change (digit_cons _) with (Some Decimal.D0));
    try (change (digit_cons _) with (Some Decimal.D1));
    try (change (digit_cons _) with (Some Decimal.D2));
    try (change (digit_cons _) with (Some Decimal.D3));
    try (change (digit_cons _) with (Some Decimal.D4));
    try (change (digit_cons _) with (Some Decimal.D5));
    try (change (digit_cons _) with (Some Decimal.D6));
    try (change (digit_cons _) with (Some Decimal.D7));
    try (change (digit_cons _) with (Some Decimal.D8));
    try (change (digit_cons _) with (Some Decimal.D9));
    try (rewrite IHd; reflexivity).
  destruct rest as [|c r]; cbn [read_digits]; [reflexivity | now rewrite Hrest].
Qed.

Lemma to_uint_normal (n : N) :
  N.to_uint n <> Decimal.Nil /\
  forall d, N.to_uint n = Decimal.D0 d -> d = Decimal.Nil.
Proof.
  assert (E : N.to_uint n = Decimal.unorm (N.to_uint n)).
  { rewrite <- (DecimalN.Unsigned.to_of (N.to_uint n)).
    now rewrite DecimalN.Unsigned.of_to. }
  split.
  - rewrite E. apply unorm_nonnil.
  - intros d Hd. rewrite Hd in E. unfold Decimal.unorm in E.
    pose proof (nzhead_nonzero (Decimal.D0 d)) as Hnz.
    destruct (Decimal.nzhead (Decimal.D0 d)) eqn:Ez; try discriminate.
    + now injection E.
    + exfalso. now apply (Hnz u).
Qed.

Lemma uint_chars_head (d : Decimal.uint) :
  d <> Decimal.Nil -> exists c tl, uint_chars d = c :: tl /\ is_digit c.
Proof.
  destruct d; intros H; try congruence; cbn [uint_chars];
    eexists _, _; (split; [reflexivity | unfold is_digit; vm_compute; discriminate]).
Qed.

Lemma delimited_not_digit (rest : list ascii) :
  delimited rest -> match rest with [] => True | c :: _ => digit_cons c = None end.
Proof. destruct rest as [|c r]; [trivial | intros [->|[->| ->]]; reflexivity]. Qed.

Lemma delimited_ends_number (rest : list ascii) :
  delimited rest -> continues_number rest = false.
Proof. destruct rest as [|c r]; [trivial | intros [->|[->| ->]]; reflexivity]. Qed.

Lemma parse_nat_print (n : N) (rest : list ascii) :
  delimited rest -> parse_nat (print_N n ++ rest) = Some (n, rest).
Proof.
  intros Hrest. unfold parse_nat, print_N.
  rewrite read_digits_uint_chars by now apply delimited_not_digit.
  rewrite (delimited_ends_number _ Hrest).
  destruct (to_uint_normal n) as [Hnil Hzero].
  pose proof (DecimalN.Unsigned.of_to n) as Hn.
  destruct (N.to_uint n) as [|d|d|d|d|d|d|d|d|d|d] eqn:E;
    try congruence; try (now rewrite <- Hn).
  rewrite (Hzero d eq_refl) in *. now rewrite <- Hn.
Qed.

Lemma digit_not_minus (c : ascii) : is_digit c -> Ascii.eqb c "-" = false.
Proof.
  intros H. destruct (Ascii.eqb_spec c "-") as [->|]; [|reflexivity].
  exfalso. apply H. reflexivity.
Qed.

Lemma parse_number_print (z : Z) (rest : list ascii) :
  delimited rest -> parse_number (print_Z z ++ rest) = Some (JNum z, rest).
Proof.
  intros Hrest. unfold print_Z.
  destruct (Z.ltb_spec z 0) as [Hneg|Hpos].
  - cbn [app parse_number]. change (Ascii.eqb "-" "-") with true. cbn iota.
    rewrite parse_nat_print by assumption.
    do 2 f_equal. f_equal. rewrite N2Z.inj_abs_N. lia.
  - destruct (uint_chars_head (N.to_uint (Z.abs_N z))) as (c & tl & E & Hc).
    { apply to_uint_normal. }
    pose proof (parse_nat_print (Z.abs_N z) rest Hrest) as Hp.
    unfold print_N in *. rewrite E in *. cbn [app parse_number].
    rewrite (digit_not_minus c Hc). cbn [app] in Hp. rewrite Hp.
    do 2 f_equal. f_equal. rewrite N2Z.inj_abs_N. lia.
Qed.


(** *** Strings *)

Lemma parse_string_escape (c : ascii) (r : list ascii) :
  parse_string (escape_char c ++ r) =
  match parse_string r with
  | Some (s, rest) => Some (c :: s, rest)
  | None => None
  end.
Proof.
  destruct c as [[] [] [] [] [] [] [] []]; reflexivity.
Qed.

Lemma parse_string_quoted (s rest : list ascii) :
  parse_string (flat_map escape_char s ++ dquote :: rest) = Some (s, rest).
Proof.
  induction s as [|c s IH]; [reflexivity|].
  cbn [flat_map]. rewrite <- app_assoc, parse_string_escape. now rewrite IH.
Qed.

Lemma quote_app (s rest : list ascii) :
  quote s ++ rest = dquote :: flat_map escape_char s ++ dquote :: rest.
Proof. unfold quote. cbn [app]. now rewrite <- app_assoc. Qed.

(** *** Values *)


Lemma parse_value_number (f : nat) (c : ascii) (r : list ascii) :
  c = "-"%char \/ is_digit c ->
  parse_value (S f) (c :: r) = parse_number (c :: r).
Proof.
  intros [->|H]; [reflexivity|].
  destruct c as [[] [] [] [] [] [] [] []];
    try (exfalso; apply H; reflexivity); reflexivity.
Qed.

Lemma digit_start (c : ascii) (r : list ascii) : is_digit c -> value_start (c :: r).
Proof.
  intros H.
  destruct c as [[] [] [] [] [] [] [] []];
    try (exfalso; apply H; reflexivity); split; reflexivity.
Qed.

Lemma print_Z_head (z : Z) :
  exists c tl, print_Z z = c :: tl /\ (c = "-"%char \/ is_digit c).
Proof.
  unfold print_Z. destruct (Z.ltb z 0).
  - eexists _, _. split; [reflexivity | now left].
  - destruct (uint_chars_head (N.to_uint (Z.abs_N z))) as (c & tl & E & Hc).
    { apply to_uint_normal. }
    exists c, tl. split; [exact E | now right].
Qed.

Lemma print_N_head (n : N) : exists c tl, print_N n = c :: tl /\ is_digit c.
Proof. apply uint_chars_head, to_uint_normal. Qed.

Lemma format_digits_head (s k n : Z) :
  exists c tl, format_digits s k n = c :: tl /\ is_digit c.
Proof.
  unfold format_digits.
  destruct (if (s =? 10 ^ k)%Z then _ else _) as [s' n'].
  destruct (print_N_head (Z.to_N s')) as (c & tl & E & Hc). rewrite E.
  destruct ((k <=? n') && (n' <=? 21))%Z; [eexists _, _; split; [reflexivity | exact Hc]|].
  destruct (0 <? n')%Z eqn:Hn; cbn [andb].
  - destruct (n' <=? 21)%Z.
    + destruct (Z.to_nat n') as [|j] eqn:Ej; [apply Z.ltb_lt in Hn; lia|].
      cbn [firstn app]. eexists _, _; split; [reflexivity | exact Hc].
    + destruct ((-6 <? n') && (n' <=? 0))%Z.
      * eexists _, _; split; [reflexivity | unfold is_digit; vm_compute; discriminate].
      * destruct tl; eexists _, _; (split; [reflexivity | exact Hc]).
  - destruct ((-6 <? n') && (n' <=? 0))%Z.
    + eexists _, _; split; [reflexivity | unfold is_digit; vm_compute; discriminate].
    + destruct tl; eexists _, _; (split; [reflexivity | exact Hc]).
Qed.

Lemma print_double_start (x : double) (rest : list ascii) :
  value_start (print_double x ++ rest).
Proof.
  destruct x as [sg | sg | | neg m e]; try (split; reflexivity).
  cbn [print_double]. unfold print_finite.
  destruct (magnitude m e) as [num den].
  destruct (shortest _ _ _ _ _ _) as [s k].
  destruct neg; [split; reflexivity|].
  destruct (format_digits_head s k (dec_exponent num den)) as (c & tl & E & Hc).
  cbn [app]. rewrite E. now apply digit_start.
Qed.

Lemma print_value_start (v : json) (rest : list ascii) : value_start (print v ++ rest).
Proof.
  destruct v as [| [] | n | s | vs | fs | bs | x]; try (split; reflexivity).
  - destruct (print_Z_head n) as (c & tl & E & [->|Hc]); cbn [print]; rewrite E.
    + split; reflexivity.
    + now apply digit_start.
  - apply print_double_start.
Qed.

Lemma skip_ws_start (s : list ascii) : value_start s -> skip_ws s = s.
Proof. destruct s as [|c r]; [intros []|]. intros [H _]. cbn [skip_ws]. now rewrite H. Qed.

Lemma parse_value_array (f : nat) (s : list ascii) :
  value_start s ->
  parse_value (S f) ("["%char :: s) =
  match parse_elements f s with
  | Some (vs, rest) => Some (JArr vs, rest)
  | None => None
  end.
Proof.
  intros Hs. pose proof (skip_ws_start s Hs) as E.
  destruct s as [|c r]; [destruct Hs|]. destruct Hs as [_ Hc].
  change (parse_value (S f) ("["%char :: c :: r)) with
    (match skip_ws (c :: r) with
     | c' :: r' =>
         if Ascii.eqb c' "]" then Some (JArr [], r')
         else match parse_elements f (c :: r) with
              | Some (vs, rest) => Some (JArr vs, rest)
              | None => None
              end
     | [] => None
     end).
  rewrite E, Hc. reflexivity.
Qed.

Lemma commas_cons (x y : list ascii) (r : list (list ascii)) :
  commas (x :: y :: r) = x ++ ","%char :: commas (y :: r).
Proof. reflexivity. Qed.

Lemma parse_elements_print (vs : list json) :
  vs <> [] -> Forall parses_back vs ->
  forall fuel rest,
    length (commas (map print vs)) + 1 <= fuel ->
    parse_elements fuel (commas (map print vs) ++ "]"%char :: rest) = Some (vs, rest).
Proof.
  intros Hne Hall. induction Hall as [|v vs Hv Hall IH]; [congruence|].
  intros fuel rest Hfuel. destruct fuel as [|f]; [lia|].
  destruct vs as [|v' vs'].
  - cbn [map commas] in *. cbn [parse_elements].
    rewrite (Hv f ("]"%char :: rest)); [reflexivity | lia | right; now left].
  - change (map print (v :: v' :: vs')) with (print v :: print v' :: map print vs') in *.
    rewrite commas_cons in *.
    change (print v' :: map print vs') with (map print (v' :: vs')) in *.
    rewrite length_app in Hfuel. cbn [length] in Hfuel.
    rewrite <- app_assoc. cbn [app parse_elements].
    rewrite (Hv f); [| lia | now left].
    cbn [skip_ws]. change (is_ws ",") with false. cbn iota.
    change (Ascii.eqb "," ",") with true. cbn iota.
    rewrite IH; [reflexivity | congruence | lia].
Qed.

Lemma parse_value_object (f : nat) (s : list ascii) :
  parse_value (S f) ("{"%char :: dquote :: s) =
  match parse_members f (dquote :: s) with
  | Some (ms, rest) => Some (JObj (obj_of_members ms), rest)
  | None => None
  end.
Proof. reflexivity. Qed.

Lemma parse_members_step (f : nat) (s : list ascii) :
  parse_members (S f) (dquote :: s) =
  match parse_string s with
  | Some (k, r1) =>
      match skip_ws r1 with
      | c1 :: r2 =>
          if Ascii.eqb c1 ":" then
            match parse_value f r2 with
            | Some (v, r3) =>
                match skip_ws r3 with
                | c3 :: r4 =>
                    if Ascii.eqb c3 "," then
                      match parse_members f r4 with
                      | Some (ms, rest) => Some ((string_of_list_ascii k, v) :: ms, rest)
                      | None => None
                      end
                    else if Ascii.eqb c3 "}"
                         then Some ([(string_of_list_ascii k, v)], r4)
                         else None
                | [] => None
                end
            | None => None
            end
          else None
      | [] => None
      end
  | None => None
  end.
Proof. reflexivity. Qed.

Lemma print_member_app (k : string) (v rest : list ascii) :
  print_member k v ++ rest =
  dquote :: flat_map escape_char (chars k) ++ dquote :: ":"%char :: v ++ rest.
Proof.
  unfold print_member. rewrite <- app_assoc, quote_app. reflexivity.
Qed.

Lemma length_print_member (k : string) (v : list ascii) :
  length v < length (print_member k v).
Proof.
  unfold print_member, quote. cbn [app length]. rewrite !length_app. cbn [length]. lia.
Qed.


Lemma parse_members_print (fs : list (string * json)) :
  fs <> [] -> Forall (fun kv => parses_back (snd kv)) fs ->
  forall fuel rest,
    length (commas (map print_field fs)) + 1 <= fuel ->
    parse_members fuel (commas (map print_field fs) ++ "}"%char :: rest)
    = Some (fs, rest).
Proof.
  intros Hne Hall. induction Hall as [|[k v] fs Hv Hall IH]; [congruence|].
  intros fuel rest Hfuel. destruct fuel as [|f]; [lia|].
  cbn [snd] in Hv. pose proof (length_print_member k (print v)) as Hlen.
  destruct fs as [|kv' fs'].
  - cbn [map commas] in *. unfold print_field in *. cbn [fst snd] in *.
    rewrite print_member_app, parse_members_step, parse_string_quoted.
    cbn [skip_ws]. change (is_ws ":") with false. cbn iota.
    change (Ascii.eqb ":" ":") with true. cbn iota.
    rewrite (Hv f); [| lia | right; now right].
    cbn [skip_ws]. change (is_ws "}") with false. cbn iota.
    change (Ascii.eqb "}" ",") with false. change (Ascii.eqb "}" "}") with true.
    cbn iota. now rewrite string_of_list_ascii_of_string.
  - change (map print_field ((k, v) :: kv' :: fs'))
      with (print_field (k, v) :: print_field kv' :: map print_field fs') in *.
    rewrite commas_cons in *.
    change (print_field kv' :: map print_field fs') with (map print_field (kv' :: fs')) in *.
    unfold print_field at 1 in Hfuel. unfold print_field at 1. cbn [fst snd] in *.
    rewrite length_app in Hfuel. cbn [length] in Hfuel.
    rewrite <- app_assoc. cbn [app].
    rewrite print_member_app, parse_members_step, parse_string_quoted.
    cbn [skip_ws]. change (is_ws ":") with false. cbn iota.
    change (Ascii.eqb ":" ":") with true. cbn iota.
    rewrite (Hv f); [| lia | now left].
    cbn [skip_ws]. change (is_ws ",") with false. cbn iota.
    change (Ascii.eqb "," ",") with true. cbn iota.
    rewrite IH; [| congruence | lia].
    now rewrite string_of_list_ascii_of_string.
Qed.

Lemma obj_set_fresh (k : string) (v : json) (acc : list (string * json)) :
  k ∉ map fst acc -> obj_set k v acc = acc ++ [(k, v)].
Proof.
  induction acc as [|[k' v'] acc IH]; cbn [obj_set map fst app]; intros Hk;
    [reflexivity|].
  destruct (String.eqb_spec k' k) as [->|Hne].
  - exfalso. apply Hk. left.
  - f_equal. apply IH. intros Hin. apply Hk. now right.
Qed.

Lemma fold_obj_set_nodup (ms acc : list (string * json)) :
  NoDup (map fst (acc ++ ms)) ->
  fold_left (fun a kv => obj_set (fst kv) (snd kv) a) ms acc = acc ++ ms.
Proof.
  revert acc. induction ms as [|[k v] ms IH]; intros acc Hnd; cbn [fold_left fst snd].
  - now rewrite app_nil_r.
  - rewrite obj_set_fresh.
    + rewrite IH; rewrite <- app_assoc; [reflexivity | exact Hnd].
    + rewrite map_app in Hnd. apply NoDup_app in Hnd as (_ & Hdisj & _).
      intros Hin. apply (Hdisj k Hin). left.
Qed.

Lemma obj_of_members_nodup (fs : list (string * json)) :
  NoDup (map fst fs) -> obj_of_members fs = fs.
Proof. intros H. unfold obj_of_members. now rewrite fold_obj_set_nodup. Qed.

Lemma Forall_guarded {A} (P : A -> Prop) (f g : A -> bool) (l : list A) :
  Forall (fun x => f x = true -> g x = true -> P x) l ->
  forallb f l = true -> forallb g l = true -> Forall P l.
Proof.
  induction 1 as [|x l Hx _ IH]; cbn [forallb]; intros Hf Hg; constructor.
  - apply andb_prop in Hf as [Hf _]. apply andb_prop in Hg as [Hg _]. auto.
  - apply andb_prop in Hf as [_ Hf]. apply andb_prop in Hg as [_ Hg]. auto.
Qed.

Lemma length_bracketed (a b : ascii) (body : list ascii) :
  length (a :: body ++ [b]) = length body + 2.
Proof. cbn [length]. rewrite length_app. cbn [length]. lia. Qed.

(** A printed value without buffers, followed by a delimiter, parses to
    the value and leaves the delimiter. *)
Lemma print_parses_back (v : json) :
  pure_json v = true -> wf_json v = true -> parses_back v.
Proof.
  induction v as [| b | n | s | vs IH | fs IH | bs | x] using json_ind';
    intros Hpure Hwf fuel rest Hfuel Hrest.
  - destruct fuel as [|f]; [cbn in Hfuel; lia | reflexivity].
  - destruct fuel as [|f]; [destruct b; cbn in Hfuel; lia | destruct b; reflexivity].
  - destruct (print_Z_head n) as (c & tl & E & Hc).
    cbn [print] in *. destruct fuel as [|f]; [rewrite E in Hfuel; cbn in Hfuel; lia|].
    pose proof (parse_number_print n rest Hrest) as Hp.
    rewrite E in *. cbn [app] in *. now rewrite parse_value_number.
  - destruct fuel as [|f]; [cbn in Hfuel; lia|].
    cbn [print]. rewrite quote_app.
    change (parse_value (S f) (dquote :: ?x)) with
      (match parse_string x with
       | Some (str, r) => Some (JStr (string_of_list_ascii str), r)
       | None => None
       end).
    rewrite parse_string_quoted. unfold chars.
    now rewrite string_of_list_ascii_of_string.
  - cbn [pure_json wf_json] in Hpure, Hwf.
    pose proof (Forall_guarded _ _ _ _ IH Hpure Hwf) as Hall.
    cbn [print] in *. rewrite length_bracketed in Hfuel.
    destruct fuel as [|f]; [lia|].
    destruct vs as [|v vs]; [reflexivity|].
    cbn [app]. rewrite <- app_assoc. cbn [app].
    rewrite parse_value_array.
    + rewrite parse_elements_print; [reflexivity | congruence | exact Hall | ].
      lia.
    + destruct vs; [apply print_value_start|].
      change (map print (v :: j :: vs)) with (print v :: print j :: map print vs).
      rewrite commas_cons, <- app_assoc. apply print_value_start.
  - cbn [pure_json wf_json] in Hpure, Hwf.
    apply andb_prop in Hwf as [Hnd Hwf]. apply bool_decide_eq_true in Hnd.
    pose proof (Forall_guarded _ _ _ _ IH Hpure Hwf) as Hall.
    cbn [print] in *.
    change (map (fun kv => print_member (fst kv) (print (snd kv))) fs)
      with (map print_field fs) in *.
    rewrite length_bracketed in Hfuel.
    destruct fuel as [|f]; [lia|].
    destruct fs as [|[k v] fs]; [reflexivity|].
    cbn [app]. rewrite <- app_assoc. cbn [app].
    assert (Hq : exists tl, commas (map print_field ((k, v) :: fs)) ++ "}"%char :: rest
                            = dquote :: tl).
    { destruct fs; [cbn [map commas] | change (map print_field ((k, v) :: p :: fs))
        with (print_field (k, v) :: print_field p :: map print_field fs);
        rewrite commas_cons, <- app_assoc ];
      unfold print_field at 1; rewrite print_member_app; eauto. }
    destruct Hq as [tl Hq].
    assert (Hm : parse_members f
                   (commas (map print_field ((k, v) :: fs)) ++ "}"%char :: rest)
                 = Some ((k, v) :: fs, rest)).
    { apply parse_members_print; [congruence | exact Hall | lia]. }
    rewrite Hq in Hm |- *. rewrite parse_value_object, Hm.
    now rewrite obj_of_members_nodup.
  - discriminate.
  - discriminate.
Qed.


Lemma map_ext_Forall' {A B} (f g : A -> B) (l : list A) :
  Forall (fun x => f x = g x) l -> map f l = map g l.
Proof. induction 1 as [|x l Hx _ IH]; cbn [map]; [reflexivity | now rewrite Hx, IH]. Qed.

Lemma JSON_parse_stringify_pure (v : json) :
  pure_json v = true -> wf_json v = true ->
  JSON_parse (JSON_stringify v) = Some v.
Proof.
  intros Hp Hw. unfold JSON_parse, JSON_stringify, chars.
  rewrite list_ascii_of_string_of_list_ascii.
  rewrite <- (app_nil_r (print v)) at 2.
  rewrite (print_parses_back v Hp Hw); [reflexivity | lia | exact I].
Qed.

Lemma print_plain (v : json) : print (plain v) = print v.
Proof.
  induction v as [| b | n | s | vs IH | fs IH | bs | x] using json_ind';
    try reflexivity; cbn [plain print].
  - rewrite map_map. now rewrite (map_ext_Forall' _ _ _ IH).
  - rewrite map_map. cbn [fst snd].
    rewrite (map_ext_Forall' _ (fun kv => print_member (fst kv) (print (snd kv))) fs);
      [reflexivity|].
    eapply Forall_impl; [exact IH|]. cbn beta. intros kv E. now rewrite E.
  - unfold toJSON_buffer. cbn [print map fst snd]. now rewrite map_map.
  - now destruct x.
Qed.

Lemma forallb_map_true {A B} (f : B -> bool) (g : A -> B) (l : list A) :
  Forall (fun x => f (g x) = true) l -> forallb f (map g l) = true.
Proof. induction 1 as [|x l Hx _ IH]; cbn [map forallb]; [reflexivity | now rewrite Hx, IH]. Qed.

Lemma Forall_forallb_impl {A} (P : A -> Prop) (f : A -> bool) (l : list A) :
  Forall (fun x => f x = true -> P x) l ->
  forallb f l = true -> Forall P l.
Proof.
  induction 1 as [|x l Hx _ IH]; cbn [forallb]; intros Hf; constructor.
  - apply andb_prop in Hf as [Hf _]. auto.
  - apply andb_prop in Hf as [_ Hf]. auto.
Qed.

Lemma pure_plain (v : json) : pure_json (plain v) = true.
Proof.
  induction v as [| b | n | s | vs IH | fs IH | bs | x] using json_ind';
    try reflexivity; cbn [plain pure_json].
  - now apply forallb_map_true.
  - now apply forallb_map_true.
  - unfold toJSON_buffer. cbn [pure_json forallb snd]. rewrite Bool.andb_true_r.
    apply forallb_map_true. now apply Forall_forall.
  - now destruct x.
Qed.

Lemma map_fst_on_values {A B} (g : A -> B) (fs : list (string * A)) :
  map fst (map (fun kv => (fst kv, g (snd kv))) fs) = map fst fs.
Proof. rewrite map_map. reflexivity. Qed.

Lemma wf_plain (v : json) : wf_json v = true -> wf_json (plain v) = true.
Proof.
  induction v as [| b | n | s | vs IH | fs IH | bs | x] using json_ind';
    try reflexivity; cbn [plain wf_json]; intros Hw.
  - apply forallb_map_true. now apply (Forall_forallb_impl _ wf_json).
  - apply andb_prop in Hw as [Hnd Hw]. rewrite map_fst_on_values, Hnd. cbn [andb].
    apply forallb_map_true.
    now apply (Forall_forallb_impl _ (fun kv => wf_json (snd kv))).
  - unfold toJSON_buffer. cbn [wf_json map fst snd forallb].
    rewrite Bool.andb_true_r. apply andb_true_intro. split; [reflexivity|].
    apply forallb_map_true. now apply Forall_forall.
  - discriminate.
Qed.

(** [JSON.parse(JSON.stringify(v))] is [v] with its buffers in their
    [toJSON] form. *)
Lemma JSON_parse_stringify (v : json) :
  wf_json v = true -> JSON_parse (JSON_stringify v) = Some (plain v).
Proof.
  intros Hw. unfold JSON_stringify. rewrite <- print_plain.
  apply JSON_parse_stringify_pure; [apply pure_plain | now apply wf_plain].
Qed.

(** *** The codec with the replacer and the reviver *)

Lemma pure_replace_buffers (v : json) : pure_json (replace_buffers v) = true.
Proof.
  induction v as [| b | n | s | vs IH | fs IH | bs | x] using json_ind';
    try reflexivity; cbn [replace_buffers pure_json]; now apply forallb_map_true.
Qed.

Lemma wf_replace_buffers (v : json) :
  wf_json v = true -> wf_json (replace_buffers v) = true.
Proof.
  induction v as [| b | n | s | vs IH | fs IH | bs | x] using json_ind';
    try reflexivity; cbn [replace_buffers wf_json]; intros Hw.
  - apply forallb_map_true. now apply (Forall_forallb_impl _ wf_json).
  - apply andb_prop in Hw as [Hnd Hw]. rewrite map_fst_on_values, Hnd. cbn [andb].
    apply forallb_map_true.
    now apply (Forall_forallb_impl _ (fun kv => wf_json (snd kv))).
  - discriminate.
Qed.

Lemma revive_buffer_tag (bs : list byte) : revive (buffer_tag bs) = JBuf bs.
Proof.
  unfold buffer_tag. cbn [revive map fst snd reviver].
  change (is_tagged _) with true. cbn iota.
  change (obj_get "data" _) with (Some (JStr (string_of_list_ascii (base64_encode bs)))).
  cbn iota. unfold chars.
  now rewrite list_ascii_of_string_of_list_ascii, base64_decode_encode.
Qed.

Lemma map_values_id {A} (g : A -> A) (fs : list (string * A)) :
  Forall (fun kv => g (snd kv) = snd kv) fs ->
  map (fun kv => (fst kv, g (snd kv))) fs = fs.
Proof.
  induction 1 as [|[k x] l Hx _ IH]; cbn [map fst snd] in *; [reflexivity|].
  now rewrite Hx, IH.
Qed.

Lemma map_id_Forall {A} (g : A -> A) (l : list A) :
  Forall (fun x => g x = x) l -> map g l = l.
Proof. induction 1 as [|x l Hx _ IH]; cbn [map]; [reflexivity | now rewrite Hx, IH]. Qed.

(** Reviving what the replacer produced restores a value in which no
    mapping carries the marker. *)
Lemma revive_replace_buffers (v : json) :
  no_tag v = true -> revive (replace_buffers v) = v.
Proof.
  induction v as [| b | n | s | vs IH | fs IH | bs | x] using json_ind';
    try reflexivity; cbn [replace_buffers no_tag]; intros Hn.
  - cbn [revive reviver]. rewrite map_map. f_equal.
    apply map_id_Forall. now apply (Forall_forallb_impl _ no_tag).
  - apply andb_prop in Hn as [Ht Hn]. apply Bool.negb_true_iff in Ht.
    cbn [revive]. rewrite map_map. cbn [fst snd].
    rewrite (map_values_id (fun x => revive (replace_buffers x))).
    + cbn [reviver]. now rewrite Ht.
    + now apply (Forall_forallb_impl _ (fun kv => no_tag (snd kv))).
  - apply revive_buffer_tag.
Qed.




Local Open Scope async_scope.

(** ** The credentials record *)

Ltac unfold_monad :=
  unfold bind, try_catch, ret, throw, console_error, backend_call in *.

Lemma keyExists_run (sid : string) (w : world) :
  keyExists sid w =
  match faults w with
  | true :: r =>
      (Ok false,
       after_failure ("Error checking key existence for session " +:+ sid +:+ ":") r w)
  | false :: r =>
      (Ok (existsb (has_session sid) (sessions w)), set_faults r w)
  | [] => (Ok (existsb (has_session sid) (sessions w)), w)
  end.
Proof.
  unfold keyExists, session_findUnique. unfold_monad.
  assert (E : forall l, bool_decide (is_Some (find (has_session sid) l))
                        = existsb (has_session sid) l).
  { induction l as [|r l IH]; cbn [find existsb]; [reflexivity|].
    destruct (has_session sid r); [reflexivity | exact IH]. }
  destruct (faults w) as [|[] r]; cbn; try rewrite E; reflexivity.
Qed.

Lemma getAuthKey_run (sid : string) (w : world) :
  getAuthKey sid w =
  match faults w with
  | true :: r =>
      (Ok JNull, after_failure ("Error getting auth key for session " +:+ sid +:+ ":") r w)
  | rest =>
      let w1 := set_faults (tail rest) w in
      match find (has_session sid) (sessions w) with
      | Some row =>
          match JSON_parse (creds row) with
          | Some v => (Ok v, w1)
          | None =>
              (Ok JNull,
               set_console
                 (console w ++
                    [("Error getting auth key for session " +:+ sid +:+ ":", SyntaxError)])
                 w1)
          end
      | None => (Ok JNull, w1)
      end
  end.
Proof.
  unfold getAuthKey, session_findUnique. unfold_monad.
  destruct (faults w) as [|[] r] eqn:E; cbn; try reflexivity.
  - replace (set_faults [] w) with w by (destruct w; cbn in *; now subst).
    destruct (find _ _) as [row|]; [|reflexivity].
    destruct (JSON_parse _); reflexivity.
  - destruct (find _ _) as [row|]; [|reflexivity].
    destruct (JSON_parse _); reflexivity.
Qed.

Lemma keyExists_total (sid : string) (w : world) :
  exists b w', keyExists sid w = (Ok b, w').
Proof. rewrite keyExists_run. destruct (faults w) as [|[] r]; eauto. Qed.

Lemma getAuthKey_total (sid : string) (w : world) :
  exists v w', getAuthKey sid w = (Ok v, w').
Proof.
  rewrite getAuthKey_run. destruct (faults w) as [|[] r]; cbn; eauto;
    destruct (find _ _) as [row|]; eauto; destruct (JSON_parse _); eauto.
Qed.

(** C6: [keyExists] and [getAuthKey] never throw; when the query of the
    relational backend fails, [keyExists] resolves to [false] and
    [getAuthKey] to [null], and the failure is printed on the console. *)
Theorem credential_reads_swallow_failures (sid : string) (w : world) (r : list bool) :
  faults w = true :: r ->
  keyExists sid w =
    (Ok false,
     after_failure ("Error checking key existence for session " +:+ sid +:+ ":") r w)
  /\ getAuthKey sid w =
    (Ok JNull,
     after_failure ("Error getting auth key for session " +:+ sid +:+ ":") r w)
  /\ (forall w0, exists b w', keyExists sid w0 = (Ok b, w'))
  /\ (forall w0, exists v w', getAuthKey sid w0 = (Ok v, w')).
Proof.
  intros E. rewrite keyExists_run, getAuthKey_run, E.
  repeat split; [apply keyExists_total | apply getAuthKey_total].
Qed.

Lemma credential_reads_swallow_failures_witness :
  keyExists "s1" (set_faults [true] (empty_world false)) =
    (Ok false,
     after_failure ("Error checking key existence for session " +:+ "s1" +:+ ":") []
       (set_faults [true] (empty_world false)))
  /\ getAuthKey "s1" (set_faults [true] (empty_world false)) =
    (Ok JNull,
     after_failure ("Error getting auth key for session " +:+ "s1" +:+ ":") []
       (set_faults [true] (empty_world false)))
  /\ (forall w0, exists b w', keyExists "s1" w0 = (Ok b, w'))
  /\ (forall w0, exists v w', getAuthKey "s1" w0 = (Ok v, w')).
Proof.
  apply (credential_reads_swallow_failures "s1" (set_faults [true] (empty_world false)) []).
  reflexivity.
Defined.

Lemma upd_row_match (sid c : string) (r : SessionData) :
  has_session sid r = true -> upd_row sid c r = mkSession sid c.
Proof. unfold upd_row. now intros ->. Qed.

Lemma upd_row_other (sid c : string) (r : SessionData) :
  has_session sid r = false -> upd_row sid c r = r.
Proof. unfold upd_row. now intros ->. Qed.

Lemma has_session_new (sid c : string) : has_session sid (mkSession sid c) = true.
Proof. unfold has_session. cbn. apply String.eqb_refl. Qed.

Lemma has_session_eq (sid : string) (r : SessionData) :
  has_session sid r = true <-> sessionId r = sid.
Proof. unfold has_session. apply String.eqb_eq. Qed.

Lemma existsb_has_session (sid : string) (l : list SessionData) :
  existsb (has_session sid) l = true <-> sid ∈ map sessionId l.
Proof.
  induction l as [|r l IH]; cbn [existsb map].
  - split; [discriminate | intros H; inversion H].
  - rewrite Bool.orb_true_iff, IH, has_session_eq, elem_of_cons. intuition congruence.
Qed.

Lemma map_sessionId_upd (sid c : string) (l : list SessionData) :
  map sessionId (map (upd_row sid c) l) = map sessionId l.
Proof.
  induction l as [|r l IH]; cbn [map]; [reflexivity|]. rewrite IH. f_equal.
  destruct (has_session sid r) eqn:E.
  - rewrite upd_row_match by exact E. cbn. symmetry. now apply has_session_eq.
  - now rewrite upd_row_other.
Qed.

Lemma absent_rows (sid c : string) (l : list SessionData) :
  existsb (has_session sid) l = false ->
  List.filter (has_session sid) l = [] /\ map (upd_row sid c) l = l.
Proof.
  induction l as [|r l IH]; cbn [existsb List.filter map]; [auto|].
  intros H. apply Bool.orb_false_iff in H as [Hr Hl].
  destruct (IH Hl) as [-> ->]. now rewrite Hr, upd_row_other.
Qed.

Lemma present_rows (sid c : string) (l : list SessionData) :
  NoDup (map sessionId l) -> existsb (has_session sid) l = true ->
  List.filter (has_session sid) (map (upd_row sid c) l) = [mkSession sid c].
Proof.
  induction l as [|r l IH]; cbn [existsb List.filter map]; [discriminate|].
  intros Hnd H. apply NoDup_cons in Hnd as [Hr Hnd].
  destruct (has_session sid r) eqn:E.
  - rewrite upd_row_match by exact E. cbn [List.filter].
    rewrite has_session_new. f_equal.
    apply has_session_eq in E. rewrite E in Hr.
    assert (Ha : existsb (has_session sid) l = false).
    { destruct (existsb (has_session sid) l) eqn:Ex; [|reflexivity].
      exfalso. apply Hr. now apply existsb_has_session. }
    destruct (absent_rows sid c l Ha) as [Hf Hm]. now rewrite Hm.
  - rewrite upd_row_other by exact E. cbn [List.filter]. rewrite E.
    cbn [orb] in H. now apply IH.
Qed.

Lemma unique_rows_le1 (sid : string) (l : list SessionData) :
  NoDup (map sessionId l) -> length (List.filter (has_session sid) l) <= 1.
Proof.
  induction l as [|r l IH]; cbn [map List.filter]; [cbn; lia|].
  intros Hnd. apply NoDup_cons in Hnd as [Hr Hnd].
  destruct (has_session sid r) eqn:E; [|now apply IH].
  apply has_session_eq in E. rewrite E in Hr.
  destruct (existsb (has_session sid) l) eqn:Ex.
  - exfalso. apply Hr. now apply existsb_has_session.
  - destruct (absent_rows sid "" l Ex) as [-> _]. cbn. lia.
Qed.

(** The effect of one [saveKey] on the table, whatever fails: nothing, a
    row appended for a session that had none, or the row of the session
    updated in place. *)
Lemma saveKey_sessions (sid : string) (k : json) (w : world) :
  let l := sessions w in
  let l' := sessions (snd (saveKey sid k w)) in
  l' = l
  \/ (existsb (has_session sid) l = false
      /\ l' = l ++ [mkSession sid (JSON_stringify k)])
  \/ l' = map (upd_row sid (JSON_stringify k)) l.
Proof.
  cbn zeta. remember (sessions (snd (saveKey sid k w))) as l' eqn:El. revert El.
  unfold saveKey. unfold try_catch at 1. unfold bind at 1.
  rewrite keyExists_run.
  unfold session_create, session_update, after_failure. unfold_monad.
  destruct (faults w) as [|[] [|[] r]] eqn:E; cbn;
    destruct (existsb (has_session sid) (sessions w)) eqn:Ex; cbn;
    try rewrite E; cbn; try rewrite Ex; cbn; intros ->; auto.
Qed.

Lemma saveKey_healthy (sid : string) (k : json) (w : world) :
  faults w = [] ->
  saveKey sid k w =
  (Ok (row_json (mkSession sid (JSON_stringify k))),
   set_sessions
     (if existsb (has_session sid) (sessions w)
      then map (upd_row sid (JSON_stringify k)) (sessions w)
      else sessions w ++ [mkSession sid (JSON_stringify k)]) w).
Proof.
  intros E. unfold saveKey. unfold try_catch at 1. unfold bind at 1.
  rewrite keyExists_run, E.
  unfold session_create, session_update. unfold_monad.
  destruct (existsb (has_session sid) (sessions w)) eqn:Ex; cbn;
    rewrite E; cbn; rewrite Ex; reflexivity.
Qed.

Lemma saveKey_unique (sid : string) (k : json) (w : world) :
  unique_sessions w -> unique_sessions (snd (saveKey sid k w)).
Proof.
  unfold unique_sessions. intros Hu.
  destruct (saveKey_sessions sid k w) as [-> | [[Ha ->] | ->]].
  - exact Hu.
  - rewrite map_app. cbn [map sessionId]. apply NoDup_app. split; [exact Hu|].
    split; [|apply NoDup_singleton].
    intros x Hx Hx'. apply list_elem_of_singleton in Hx'. subst x.
    apply existsb_has_session in Hx. congruence.
  - now rewrite map_sessionId_upd.
Qed.

Lemma run_saveKeys_unique (calls : list (string * json)) (w : world) :
  unique_sessions w -> unique_sessions (run_saveKeys calls w).
Proof.
  revert w. induction calls as [|c calls IH]; intros w Hu; [exact Hu|].
  cbn [run_saveKeys fold_left]. apply IH. now apply saveKey_unique.
Qed.

(** C7: [saveKey] keeps at most one record per session identifier through
    any sequence of calls, whatever fails; and two calls in a row for a
    session, with no failure, leave exactly one record with the second
    value: the first call inserts the record when the session had none
    and the second updates it in place. *)
Theorem saveKey_one_record_per_session (w : world) :
  unique_sessions w ->
  (forall calls sid, length (rows_of sid (run_saveKeys calls w)) <= 1)
  /\ (forall sid k1 k2,
        let w1 := snd (saveKey sid k1 (set_faults [] w)) in
        let w2 := snd (saveKey sid k2 w1) in
        rows_of sid w2 = [mkSession sid (JSON_stringify k2)]
        /\ (rows_of sid w = [] ->
            sessions w1 = sessions w ++ [mkSession sid (JSON_stringify k1)]
            /\ sessions w2 = sessions w ++ [mkSession sid (JSON_stringify k2)])).
Proof.
  intros Hu. split.
  - intros calls sid. apply unique_rows_le1. now apply run_saveKeys_unique.
  - intros sid k1 k2. cbn zeta.
    rewrite (saveKey_healthy sid k1) by reflexivity. cbn [snd].
    rewrite (saveKey_healthy sid k2) by reflexivity. cbn [snd].
    unfold rows_of. cbn [sessions set_sessions set_faults].
    destruct (existsb (has_session sid) (sessions w)) eqn:Ex.
    + assert (Ex' : existsb (has_session sid)
                      (map (upd_row sid (JSON_stringify k1)) (sessions w)) = true).
      { apply existsb_has_session. rewrite map_sessionId_upd.
        now apply existsb_has_session. }
      rewrite Ex'. split.
      * apply present_rows; [|exact Ex']. now rewrite map_sessionId_upd.
      * intros Hnone. exfalso.
        apply existsb_has_session in Ex. apply list_elem_of_fmap in Ex as (r & Hr & Hin).
        assert (Hin' : r ∈ List.filter (has_session sid) (sessions w)).
        { apply list_elem_of_In, filter_In. split; [now apply list_elem_of_In|].
          now apply has_session_eq. }
        rewrite Hnone in Hin'. inversion Hin'.
    + destruct (absent_rows sid (JSON_stringify k2) _ Ex) as [Hf Hm].
      assert (Ex' : existsb (has_session sid)
                      (sessions w ++ [mkSession sid (JSON_stringify k1)]) = true).
      { rewrite existsb_app. cbn [existsb].
        now rewrite has_session_new, !Bool.orb_true_r. }
      rewrite Ex'. rewrite map_app, Hm. cbn [map].
      rewrite upd_row_match by apply has_session_new.
      split; [|auto]. rewrite List.filter_app, Hf. cbn [List.filter app].
      now rewrite has_session_new.
Qed.

Lemma saveKey_one_record_per_session_witness :
  (forall calls sid, length (rows_of sid (run_saveKeys calls (empty_world false))) <= 1)
  /\ (forall sid k1 k2,
        let w1 := snd (saveKey sid k1 (set_faults [] (empty_world false))) in
        let w2 := snd (saveKey sid k2 w1) in
        rows_of sid w2 = [mkSession sid (JSON_stringify k2)]
        /\ (rows_of sid (empty_world false) = [] ->
            sessions w1 = sessions (empty_world false) ++ [mkSession sid (JSON_stringify k1)]
            /\ sessions w2 = sessions (empty_world false) ++ [mkSession sid (JSON_stringify k2)])).
Proof.
  apply (saveKey_one_record_per_session (empty_world false)).
  unfold unique_sessions. cbn. apply NoDup_nil_2.
Defined.


(** ** Keyed entries: one operation *)

#[local] Arguments JSON_stringify : simpl never.
#[local] Arguments JSON_stringify_replacer : simpl never.
#[local] Arguments JSON_parse : simpl never.
#[local] Arguments JSON_parse_reviver : simpl never.
#[local] Arguments localFile : simpl never.
#[local] Arguments plain : simpl never.

Lemma world_eta (w : world) :
  mkWorld (sessions w) (cache_store w) (dirs w) (files w) (redis_enabled w)
    (faults w) (console w) = w.
Proof. now destruct w. Qed.

Lemma backend_call_run (w : world) :
  backend_call w =
  (if fails_next w then Throw BackendFault else Ok tt, next_call w).
Proof.
  unfold backend_call, fails_next, next_call, set_faults.
  destruct (faults w) as [|[] r] eqn:E; cbn [tail]; try reflexivity.
  now rewrite <- E, world_eta.
Qed.

Lemma next_call_healthy (w : world) : faults w = [] -> next_call w = w.
Proof. intros E. unfold next_call, set_faults. rewrite E. cbn [tail]. now rewrite <- E, world_eta. Qed.

Lemma fails_next_healthy (w : world) : faults w = [] -> fails_next w = false.
Proof. unfold fails_next. now intros ->. Qed.

Lemma has_char_append (c : ascii) (a b : string) :
  has_char c (a +:+ b) = has_char c a || has_char c b.
Proof.
  induction a as [|x a IH]; cbn [String.append has_char]; [reflexivity|].
  now rewrite IH, Bool.orb_assoc.
Qed.

(** The name of a keyed entry has a hyphen, so it is never ["creds"]. *)
Lemma entry_key_not_creds (category id : string) :
  String.eqb (entry_key category id) "creds" = false.
Proof.
  destruct (String.eqb_spec (entry_key category id) "creds") as [E|]; [|reflexivity].
  assert (H : has_char "-" (entry_key category id) = true).
  { unfold entry_key. rewrite !has_char_append. cbn. now rewrite Bool.orb_true_r. }
  rewrite E in H. discriminate.
Qed.

Lemma writeData_entry_run (sid : string) (v : json) (key : string) (w : world) :
  String.eqb key "creds" = false ->
  writeData sid v key w =
  let msg := "Error writing data for key " +:+ key +:+ ":" in
  let w1 := next_call w in
  if fails_next w then (Throw BackendFault, logged msg BackendFault w1)
  else if redis_enabled w then
    (Ok JNull, set_cache (<[(sid, key) := plain v]> (cache_store w)) w1)
  else if bool_decide (localFolder sid ∈ dirs w) then
    (Ok (JBool true),
     set_files (<[localFile sid key := JSON_stringify_replacer v]> (files w)) w1)
  else (Throw (ENOENT (localFolder sid) (file_name key)),
        logged msg (ENOENT (localFolder sid) (file_name key)) w1).
Proof.
  intros Hk. unfold writeData. rewrite Hk.
  unfold isRedisEnabled, cache_hSet, fs_writeFile.
  unfold bind, try_catch, ret, throw, console_error.
  cbn zeta. destruct (redis_enabled w) eqn:Er; rewrite backend_call_run;
    destruct (fails_next w); cbn; try reflexivity.
  destruct (bool_decide _); reflexivity.
Qed.

Lemma removeData_entry_run (sid : string) (key : string) (w : world) :
  String.eqb key "creds" = false ->
  removeData sid key w =
  let msg := "Error removing data for key " +:+ key +:+ ":" in
  let w1 := next_call w in
  if fails_next w then (Throw BackendFault, logged msg BackendFault w1)
  else if redis_enabled w then
    match cache_store w !! (sid, key) with
    | Some _ => (Ok (JBool true), set_cache (delete (sid, key) (cache_store w)) w1)
    | None => (Throw (DeleteFailed key), logged msg (DeleteFailed key) w1)
    end
  else
    match files w !! localFile sid key with
    | Some _ => (Ok (JBool true), set_files (delete (localFile sid key) (files w)) w1)
    | None => (Throw (ENOENT (localFolder sid) (file_name key)),
               logged msg (ENOENT (localFolder sid) (file_name key)) w1)
    end.
Proof.
  intros Hk. unfold removeData. rewrite Hk.
  unfold isRedisEnabled, cache_hDelete, fs_unlink.
  unfold bind, try_catch, ret, throw, console_error.
  cbn zeta. destruct (redis_enabled w) eqn:Er; rewrite backend_call_run;
    destruct (fails_next w); cbn; try reflexivity.
  - destruct (cache_store w !! (sid, key)); reflexivity.
  - destruct (files w !! localFile sid key); reflexivity.
Qed.

Lemma same_store_refl (w : world) : same_store w w.
Proof. now repeat split. Qed.

Lemma same_store_trans (w1 w2 w3 : world) :
  same_store w1 w2 -> same_store w2 w3 -> same_store w1 w3.
Proof.
  unfold same_store. intros (a & b & c & d & e) (a' & b' & c' & d' & e').
  repeat split; congruence.
Qed.

Lemma stored_value_same_store (w w' : world) (sid key : string) :
  same_store w w' -> stored_value w' sid key = stored_value w sid key.
Proof.
  intros (_ & Hc & _ & Hf & Hr). unfold stored_value. now rewrite Hc, Hf, Hr.
Qed.

Lemma faults_next_call_healthy (w : world) : faults w = [] -> faults (next_call w) = [].
Proof. intros E. now rewrite next_call_healthy. Qed.

(** A read of a keyed entry never throws and changes no store; its value
    is [null] or the stored value, and the stored value when no backend
    call fails. *)
Lemma readData_entry_spec (sid key : string) (w : world) :
  String.eqb key "creds" = false ->
  exists v w',
    readData sid key w = (Ok v, w') /\ same_store w w'
    /\ (v = JNull \/ v = stored_value w sid key)
    /\ (faults w = [] -> v = stored_value w sid key /\ faults w' = []).
Proof.
  intros Hk. unfold readData. rewrite Hk.
  unfold isRedisEnabled, cache_hGet, fileExists, fs_stat_isFile, fs_readFile,
    parse_or_throw, stored_value.
  unfold bind, try_catch, ret, throw, console_error. cbn zeta.
  destruct (redis_enabled w) eqn:Er.
  - rewrite backend_call_run. destruct (fails_next w) eqn:Ef; cbn.
    + eexists _, _. split; [reflexivity|]. split; [now repeat split|].
      split; [now left|]. intros E. now rewrite fails_next_healthy in Ef.
    + destruct (cache_store w !! (sid, key)) as [d|]; cbn.
      * destruct (truthy d); cbn.
        -- destruct (JSON_parse_reviver (JSON_stringify d)) as [v|]; cbn;
             (eexists _, _; split; [reflexivity|]; split; [now repeat split|]);
             (split; [now right|]); intros E; split; try reflexivity;
             now apply faults_next_call_healthy.
        -- eexists _, _. split; [reflexivity|]. split; [now repeat split|].
           split; [now left|]. intros E; split; [reflexivity|].
           now apply faults_next_call_healthy.
      * eexists _, _. split; [reflexivity|]. split; [now repeat split|].
        split; [now left|]. intros E; split; [reflexivity|].
        now apply faults_next_call_healthy.
  - rewrite backend_call_run. destruct (fails_next w) eqn:Ef; cbn.
    + eexists _, _. split; [reflexivity|]. split; [now repeat split|].
      split; [now left|]. intros E. now rewrite fails_next_healthy in Ef.
    + destruct (files w !! localFile sid key) as [text|] eqn:Efile; cbn.
      * rewrite backend_call_run.
        destruct (fails_next (next_call w)) eqn:Ef2; cbn.
        -- eexists _, _. split; [reflexivity|]. split; [now repeat split|].
           split; [now left|]. intros E.
           rewrite fails_next_healthy in Ef2; [discriminate|].
           now apply faults_next_call_healthy.
        -- rewrite Efile. cbn.
           destruct (JSON_parse_reviver text) as [v|]; cbn;
             (eexists _, _; split; [reflexivity|]; split; [now repeat split|]);
             (split; [now right|]); intros E; split; try reflexivity;
             cbn; rewrite E; reflexivity.
      * eexists _, _. split; [reflexivity|]. split; [now repeat split|].
        split; [now left|]. intros E; split; [reflexivity|].
        now apply faults_next_call_healthy.
Qed.

Lemma getAuthKey_same_store (sid : string) (w : world) :
  same_store w (snd (getAuthKey sid w)).
Proof.
  rewrite getAuthKey_run.
  destruct (faults w) as [|[] r]; cbn; try (now repeat split);
    destruct (find _ _) as [row|]; try (now repeat split);
    destruct (JSON_parse _); now repeat split.
Qed.

Lemma readData_creds (sid : string) (w : world) :
  readData sid "creds" w = getAuthKey sid w.
Proof.
  unfold readData. cbn [String.eqb Ascii.eqb Bool.eqb]. unfold try_catch.
  destruct (getAuthKey_total sid w) as (v & w' & E). now rewrite E.
Qed.

(** A read never throws, whatever the key, the stores and the failures of
    the backends. *)
Lemma readData_total (sid key : string) (w : world) :
  exists v w', readData sid key w = (Ok v, w') /\ same_store w w'.
Proof.
  destruct (String.eqb key "creds") eqn:Hk.
  - apply String.eqb_eq in Hk. subst key. rewrite readData_creds.
    pose proof (getAuthKey_same_store sid w) as Hs.
    destruct (getAuthKey_total sid w) as (v & w' & E). rewrite E in *. eauto.
  - destruct (readData_entry_spec sid key w Hk) as (v & w' & E & Hs & _). eauto.
Qed.

(** In filesystem mode, with no failing call, an entry that was written
    is read back as the value the codec decodes from its text: the value
    itself when no mapping of it carries the marker. *)
Lemma write_then_read_file (sid category id : string) (v : json) (w : world) :
  healthy w -> redis_enabled w = false -> localFolder sid ∈ dirs w ->
  wf_json v = true -> no_tag v = true ->
  exists w1 w2,
    writeData sid v (entry_key category id) w = (Ok (JBool true), w1)
    /\ readData sid (entry_key category id) w1 = (Ok v, w2).
Proof.
  intros Hh Er Hd Hw Hn.
  rewrite writeData_entry_run by apply entry_key_not_creds.
  rewrite (fails_next_healthy w Hh), (next_call_healthy w Hh), Er. cbn zeta.
  rewrite bool_decide_eq_true_2 by exact Hd.
  destruct (readData_entry_spec sid (entry_key category id)
              (set_files (<[localFile sid (entry_key category id)
                            := JSON_stringify_replacer v]> (files w)) w)
              (entry_key_not_creds _ _)) as (x & w2 & E & _ & _ & Hx).
  destruct (Hx Hh) as [-> _]. eexists _, w2. split; [reflexivity|].
  rewrite E. f_equal. f_equal.
  unfold stored_value. cbn [redis_enabled files set_files]. rewrite Er.
  rewrite lookup_insert_eq. unfold JSON_parse_reviver, JSON_stringify_replacer.
  rewrite JSON_parse_stringify_pure;
    [| apply pure_replace_buffers | now apply wf_replace_buffers].
  cbn [fmap option_fmap option_map default]. now rewrite revive_replace_buffers.
Qed.

(** C5: in cache mode [removeData] on a keyed entry succeeds exactly when
    [hDelete] reports a removal; when [hDelete] returns false it fails
    with the error it raises for that, and a failure of [hDelete] itself
    is passed on. *)
Theorem removeData_cache_needs_deletion (sid category id : string) (w : world) :
  redis_enabled w = true ->
  match cache_hDelete sid (entry_key category id) w with
  | (Ok deleted, w1) =>
      if truthy deleted
      then removeData sid (entry_key category id) w = (Ok deleted, w1)
      else removeData sid (entry_key category id) w =
           (Throw (DeleteFailed (entry_key category id)),
            logged ("Error removing data for key " +:+ entry_key category id +:+ ":")
              (DeleteFailed (entry_key category id)) w1)
  | (Throw e, w1) =>
      removeData sid (entry_key category id) w =
      (Throw e,
       logged ("Error removing data for key " +:+ entry_key category id +:+ ":") e w1)
  end
  /\ ((exists r w', removeData sid (entry_key category id) w = (Ok r, w'))
      <-> fst (cache_hDelete sid (entry_key category id) w) = Ok (JBool true)).
Proof.
  intros Er. rewrite removeData_entry_run by apply entry_key_not_creds.
  unfold cache_hDelete, bind. rewrite backend_call_run, Er. cbn zeta.
  destruct (fails_next w); cbn.
  - split; [reflexivity|]. split; [intros (r & w' & E) | intros E]; discriminate.
  - destruct (cache_store w !! (sid, entry_key category id)); cbn.
    + split; [reflexivity|]. split; [reflexivity | eauto].
    + split; [reflexivity|]. split; [intros (r & w' & E) | intros E]; discriminate.
Qed.

(** ** Keyed entries: the bulk operations *)

Lemma set_tasks_triples (sid : string) (data : list (string * list (string * json))) :
  set_tasks sid data = map (set_task sid) (triples data).
Proof.
  unfold set_tasks, triples. induction data as [|[c entries] data IH];
    cbn [flat_map fst snd]; [reflexivity|].
  rewrite map_app, IH, map_map. reflexivity.
Qed.

Lemma keys_set_run (sid : string) (data : list (string * list (string * json)))
    (w : world) :
  keys_set sid data w =
  match promise_all (map (set_task sid) (triples data)) w with
  | (Ok _, w') => (Ok tt, w')
  | (Throw e, w') => (Throw e, w')
  end.
Proof. unfold keys_set, bind, ret. now rewrite set_tasks_triples. Qed.

Lemma promise_all_world {A} (tasks : list (M A)) (w : world) :
  snd (promise_all tasks w) = fold_left (fun w t => snd (t w)) tasks w.
Proof.
  revert w. induction tasks as [|t ts IH]; intros w; cbn [promise_all fold_left];
    [reflexivity|].
  destruct (t w) as [[a|e] w1]; cbn [snd]; rewrite <- IH;
    [destruct (promise_all ts w1) as [[r|e] w2] |]; reflexivity.
Qed.

(** *** Removing an entry that has no file *)

Lemma set_task_keeps_absent (sid : string) (t : string * string * json)
    (p : path) (w : world) :
  redis_enabled w = false -> files w !! p = None ->
  (truthy (snd t) = true -> localFile sid (entry_key (fst (fst t)) (snd (fst t))) <> p) ->
  redis_enabled (snd (set_task sid t w)) = false
  /\ files (snd (set_task sid t w)) !! p = None.
Proof.
  intros Er Hp Hw. unfold set_task. destruct (truthy (snd t)).
  - rewrite writeData_entry_run by apply entry_key_not_creds. rewrite Er. cbn zeta.
    destruct (fails_next w); cbn; [auto|].
    destruct (bool_decide _); cbn; [|auto].
    split; [exact Er|]. rewrite lookup_insert_ne; auto.
  - rewrite removeData_entry_run by apply entry_key_not_creds. rewrite Er. cbn zeta.
    destruct (fails_next w); cbn; [auto|].
    destruct (files w !! localFile sid _) eqn:E; cbn; [|auto].
    split; [exact Er|]. apply lookup_delete_None. now right.
Qed.

Lemma removeData_missing_file (sid key : string) (w : world) :
  String.eqb key "creds" = false ->
  redis_enabled w = false -> files w !! localFile sid key = None ->
  exists e w', removeData sid key w = (Throw e, w').
Proof.
  intros Hk Er Hp. rewrite removeData_entry_run by exact Hk. rewrite Er, Hp. cbn zeta.
  destruct (fails_next w); eauto.
Qed.

Lemma readData_missing_file (sid key : string) (w : world) :
  String.eqb key "creds" = false ->
  redis_enabled w = false -> files w !! localFile sid key = None ->
  exists w', readData sid key w = (Ok JNull, w').
Proof.
  intros Hk Er Hp.
  destruct (readData_entry_spec sid key w Hk) as (v & w' & E & _ & Hv & _).
  unfold stored_value in Hv. rewrite Er, Hp in Hv.
  exists w'. rewrite E. destruct Hv; now subst.
Qed.

Lemma bulk_rejects_on_missing_file (sid : string) (ts : list (string * string * json))
    (t : string * string * json) (w : world) :
  let p := localFile sid (entry_key (fst (fst t)) (snd (fst t))) in
  redis_enabled w = false -> files w !! p = None ->
  truthy (snd t) = false -> t ∈ ts ->
  (forall t', t' ∈ ts -> truthy (snd t') = true ->
              localFile sid (entry_key (fst (fst t')) (snd (fst t'))) <> p) ->
  exists e w', promise_all (map (set_task sid) ts) w = (Throw e, w').
Proof.
  cbn zeta. revert w. induction ts as [|t0 ts IH]; intros w Er Hp Ht Hin Hw.
  - inversion Hin.
  - cbn [map promise_all].
    apply elem_of_cons in Hin as [<-|Hin].
    + unfold set_task at 1. rewrite Ht.
      destruct (removeData_missing_file sid _ w (entry_key_not_creds _ _) Er Hp)
        as (e & w' & E).
      rewrite E. eauto.
    + destruct (set_task_keeps_absent sid t0 _ w Er Hp) as [Er1 Hp1].
      { apply Hw. left. }
      destruct (set_task sid t0 w) as [[a|e0] w1]; cbn [snd] in *; [|eauto].
      destruct (IH w1 Er1 Hp1 Ht Hin) as (e & w2 & E).
      { intros t' Ht'. apply Hw. now right. }
      rewrite E. eauto.
Qed.

(** C4: in filesystem mode, removing a keyed entry that has no file
    throws, whereas reading it gives [null]; and a bulk set that holds an
    absent value for such an entry is rejected, provided no other triple
    of the call writes that file. *)
Theorem remove_missing_file_rejects (sid category id : string) (v : json)
    (data : list (string * list (string * json))) (w : world) :
  redis_enabled w = false ->
  files w !! localFile sid (entry_key category id) = None ->
  truthy v = false ->
  (category, id, v) ∈ triples data ->
  (forall t, t ∈ triples data -> truthy (snd t) = true ->
             localFile sid (entry_key (fst (fst t)) (snd (fst t)))
             <> localFile sid (entry_key category id)) ->
  (exists e w', removeData sid (entry_key category id) w = (Throw e, w'))
  /\ (exists w', readData sid (entry_key category id) w = (Ok JNull, w'))
  /\ (exists e w', keys_set sid data w = (Throw e, w')).
Proof.
  intros Er Hp Hv Hin Hw. split; [|split].
  - now apply removeData_missing_file; [apply entry_key_not_creds | |].
  - now apply readData_missing_file; [apply entry_key_not_creds | |].
  - rewrite keys_set_run.
    destruct (bulk_rejects_on_missing_file sid (triples data) (category, id, v) w)
      as (e & w' & E); auto.
    rewrite E. eauto.
Qed.

(** *** What a bulk set leaves in the backend *)

Lemma localFile_slot (sid k1 k2 : string) :
  file_name k1 <> file_name k2 -> localFile sid k1 <> localFile sid k2.
Proof. unfold localFile. congruence. Qed.

Lemma set_task_effect (sid : string) (t : string * string * json) (w : world) :
  ready sid w ->
  let w1 := snd (set_task sid t w) in
  ready sid w1 /\ redis_enabled w1 = redis_enabled w
  /\ backend_entry w1 sid (entry_key (fst (fst t)) (snd (fst t)))
     = (if truthy (snd t) then Some (written_form w (snd t)) else None)
  /\ (forall t', slot_of w t' <> slot_of w t ->
        backend_entry w1 sid (entry_key (fst (fst t')) (snd (fst t')))
        = backend_entry w sid (entry_key (fst (fst t')) (snd (fst t')))).
Proof.
  intros [Hf Hd]. cbn zeta. unfold set_task, ready, backend_entry, written_form, slot_of.
  destruct (truthy (snd t)).
  - rewrite writeData_entry_run by apply entry_key_not_creds.
    rewrite (fails_next_healthy w Hf), (next_call_healthy w Hf). cbn zeta.
    destruct (redis_enabled w) eqn:Er; cbn.
    + rewrite Er. split; [auto|]. split; [reflexivity|].
      split; [now rewrite lookup_insert_eq|].
      intros t' Hne. rewrite lookup_insert_ne; [reflexivity | congruence].
    + destruct Hd as [Hd|Hd]; [discriminate|].
      rewrite bool_decide_eq_true_2 by exact Hd. cbn. rewrite Er.
      split; [auto|]. split; [reflexivity|].
      split; [now rewrite lookup_insert_eq|].
      intros t' Hne. rewrite lookup_insert_ne; [reflexivity|].
      apply localFile_slot. congruence.
  - rewrite removeData_entry_run by apply entry_key_not_creds.
    rewrite (fails_next_healthy w Hf), (next_call_healthy w Hf). cbn zeta.
    destruct (redis_enabled w) eqn:Er.
    + destruct (cache_store w !! _) eqn:E; cbn; rewrite Er.
      * split; [auto|]. split; [reflexivity|].
        split; [now rewrite lookup_delete_eq|].
        intros t' Hne. rewrite lookup_delete_ne; [reflexivity | congruence].
      * split; [auto|]. split; [reflexivity|]. split; [now rewrite E | auto].
    + destruct (files w !! _) eqn:E; cbn; rewrite Er.
      * split; [auto|]. split; [reflexivity|].
        split; [now rewrite lookup_delete_eq|].
        intros t' Hne. rewrite lookup_delete_ne; [reflexivity|].
        apply localFile_slot. congruence.
      * split; [auto|]. split; [reflexivity|]. split; [now rewrite E | auto].
Qed.

Lemma slot_of_same_mode (w w1 : world) (t : string * string * json) :
  redis_enabled w1 = redis_enabled w -> slot_of w1 t = slot_of w t.
Proof. unfold slot_of. now intros ->. Qed.

Lemma written_form_same_mode (w w1 : world) (v : json) :
  redis_enabled w1 = redis_enabled w -> written_form w1 v = written_form w v.
Proof. unfold written_form. now intros ->. Qed.

Lemma run_tasks_untouched (sid : string) (ts : list (string * string * json))
    (t : string * string * json) (w : world) :
  ready sid w ->
  (forall t', t' ∈ ts -> slot_of w t <> slot_of w t') ->
  backend_entry (run_tasks sid ts w) sid (entry_key (fst (fst t)) (snd (fst t)))
  = backend_entry w sid (entry_key (fst (fst t)) (snd (fst t))).
Proof.
  revert w. induction ts as [|t0 ts IH]; intros w Hr Hne; [reflexivity|].
  unfold run_tasks in *. cbn [map fold_left].
  destruct (set_task_effect sid t0 w Hr) as (Hr1 & Em & _ & Hother).
  rewrite IH.
  - apply Hother. apply Hne. left.
  - exact Hr1.
  - intros t' Ht'. rewrite !(slot_of_same_mode w _ _ Em). apply Hne. now right.
Qed.

Lemma run_tasks_effect (sid : string) (ts : list (string * string * json))
    (t : string * string * json) (w : world) :
  ready sid w -> NoDup (map (slot_of w) ts) -> t ∈ ts ->
  backend_entry (run_tasks sid ts w) sid (entry_key (fst (fst t)) (snd (fst t)))
  = (if truthy (snd t) then Some (written_form w (snd t)) else None).
Proof.
  revert w. induction ts as [|t0 ts IH]; intros w Hr Hnd Hin; [inversion Hin|].
  cbn [map] in Hnd. apply NoDup_cons in Hnd as [Hfresh Hnd].
  destruct (set_task_effect sid t0 w Hr) as (Hr1 & Em & Hown & _).
  change (run_tasks sid (t0 :: ts) w) with (run_tasks sid ts (snd (set_task sid t0 w))).
  apply elem_of_cons in Hin as [->|Hin].
  - rewrite run_tasks_untouched; [exact Hown | exact Hr1 |].
    intros t' Ht' E. apply Hfresh. rewrite !(slot_of_same_mode w _ _ Em) in E.
    rewrite E. now apply list_elem_of_fmap_2.
  - rewrite IH; [| exact Hr1 | | exact Hin].
    + now rewrite (written_form_same_mode w _ _ Em).
    + erewrite map_ext; [exact Hnd|]. intros a. now apply slot_of_same_mode.
Qed.

(** C3: a bulk set starts, for every (category, id, value) triple, the
    write of the entry when the value is present (truthy, as every
    mapping, sequence and binary value is) and its removal when the value
    is null or absent.  With no failing backend call and the triples
    addressing distinct slots, an entry with a present value is then in
    the active backend in its written form and an entry with a null value
    is not in the backend: a null value deletes and is never stored. *)
Theorem keys_set_writes_or_removes (sid category id : string) (v : json)
    (data : list (string * list (string * json))) (w : world) :
  healthy w ->
  redis_enabled w = true \/ localFolder sid ∈ dirs w ->
  NoDup (map (slot_of w) (triples data)) ->
  (category, id, v) ∈ triples data ->
  let w' := snd (keys_set sid data w) in
  set_tasks sid data = map (set_task sid) (triples data)
  /\ backend_entry w' sid (entry_key category id)
     = (if truthy v then Some (written_form w v) else None)
  /\ (is_structured v = true ->
      backend_entry w' sid (entry_key category id) = Some (written_form w v))
  /\ (v = JNull -> backend_entry w' sid (entry_key category id) = None).
Proof.
  intros Hh Hd Hnd Hin. cbn zeta. split; [apply set_tasks_triples|].
  assert (E : snd (keys_set sid data w) = run_tasks sid (triples data) w).
  { rewrite keys_set_run. unfold run_tasks. rewrite <- promise_all_world.
    now destruct (promise_all _ w) as [[r|e] w']. }
  rewrite E.
  pose proof (run_tasks_effect sid (triples data) (category, id, v) w
                (conj Hh Hd) Hnd Hin) as H.
  cbn [fst snd] in H. rewrite H. split; [reflexivity|]. split.
  - intros Hs. destruct v; try discriminate; reflexivity.
  - now intros ->.
Qed.

(** *** The bulk get *)

Lemma dom_no_ids (data : gmap string json) :
  dom data = dom data ∪ list_to_set (C := gset string) [].
Proof. cbn [list_to_set]. now rewrite (right_id_L ∅ (∪)). Qed.

Lemma dom_insert_ids (id0 : string) (v : json) (ids : list string)
    (data : gmap string json) :
  dom (<[id0 := v]> data) ∪ list_to_set (C := gset string) ids
  = dom data ∪ list_to_set (id0 :: ids).
Proof.
  rewrite dom_insert_L. cbn [list_to_set].
  rewrite (comm_L (∪) {[id0]} (dom data)). now rewrite (assoc_L (∪)).
Qed.

Lemma not_in_nil (id : string) : id ∉ @nil string.
Proof. intros H. inversion H. Qed.



Lemma read_value_cases (sid key : string) (w : world) :
  read_value w sid key = JNull \/ read_value w sid key = stored_value w sid key.
Proof.
  unfold read_value. destruct (fails_next w); [now left|].
  destruct (redis_enabled w); [now right|].
  destruct (files w !! localFile sid key); [|now left].
  destruct (fails_next (next_call w)); [now left | now right].
Qed.



Section BulkGet.

Variable fromObject : json -> outcome json.
Variables sid type_ : string.

Lemma get_entry_run (id : string) (data : js_object) (w : world) :
  get_entry fromObject sid type_ id data w =
  match readData sid (entry_key type_ id) w with
  | (Ok v, w1) =>
      match reconstruct fromObject type_ v with
      | Ok v' => (Ok (assign id v' data), w1)
      | Throw e => (Throw e, w1)
      end
  | (Throw e, w1) => (Throw e, w1)
  end.
Proof.
  unfold get_entry, reconstruct, bind, ret.
  destruct (readData sid (entry_key type_ id) w) as [[v|e] w1]; [|reflexivity].
  destruct (String.eqb type_ "app-state-sync-key" && truthy v); [|reflexivity].
  now destruct (fromObject v).
Qed.

Lemma reconstruct_null : reconstruct fromObject type_ JNull = Ok JNull.
Proof. unfold reconstruct. cbn [truthy]. now rewrite Bool.andb_false_r. Qed.

Lemma reconstruct_safe_ok (v : json) :
  reconstruct_safe fromObject type_ -> exists v', reconstruct fromObject type_ v = Ok v'.
Proof.
  unfold reconstruct. intros [Hne|Hok].
  - apply String.eqb_neq in Hne. rewrite Hne. cbn. eauto.
  - destruct (_ && _); eauto.
Qed.

Lemma assign_own (id : string) (v : json) (data : gmap string json) :
  id <> "__proto__" -> assign id v (Plain data) = Plain (<[id := v]> data).
Proof. intros Hne. cbn [assign]. apply String.eqb_neq in Hne. now rewrite Hne. Qed.

(** A bulk get that is not asked for the id [__proto__] fills an
    ordinary object. *)
Lemma get_entries_spec (ids : list string) (data : gmap string json) (w : world)
    (o : js_object) (w' : world) :
  "__proto__" ∉ ids ->
  promise_all_on (map (get_entry fromObject sid type_) ids) (Plain data) w = (Ok o, w') ->
  exists m,
    o = Plain m
    /\ same_store w w'
    /\ dom m = dom data ∪ list_to_set ids
    /\ (forall id x, m !! id = Some x ->
          ((id ∉ ids) /\ data !! id = Some x)
          \/ ((id ∈ ids) /\ bound_value fromObject sid type_ w id x))
    /\ (faults w = [] ->
        faults w' = [] /\
        forall id x, m !! id = Some x -> id ∈ ids ->
          reconstruct fromObject type_ (stored_value w sid (entry_key type_ id)) = Ok x).
Proof.
  revert data w. induction ids as [|id0 ids IH]; intros data w Hproto Hrun.
  - cbn in Hrun. unfold ret in Hrun. injection Hrun as Hm Hw. subst o w'.
    exists data. split; [reflexivity|].
    split; [apply same_store_refl|]. split; [apply dom_no_ids|].
    split; [intros id x Hx; left; split; [apply not_in_nil | exact Hx]|].
    intros Hf. split; [exact Hf|]. intros id x _ Hin. inversion Hin.
  - apply not_elem_of_cons in Hproto as [Hne Hproto].
    cbn [map promise_all_on] in Hrun. rewrite get_entry_run in Hrun.
    destruct (readData_entry_spec sid (entry_key type_ id0) w (entry_key_not_creds _ _))
      as (v & w1 & Er & Hs1 & Hv & Hh).
    rewrite Er in Hrun.
    destruct (reconstruct fromObject type_ v) as [v'|e] eqn:Erec; [|discriminate].
    rewrite assign_own in Hrun by congruence.
    destruct (IH _ _ Hproto Hrun) as (m & -> & Hs & Hdom & Hval & Hhealthy).
    exists m. split; [reflexivity|].
    assert (Hbound : bound_value fromObject sid type_ w id0 v').
    { destruct Hv as [-> | ->]; [left | now right].
      rewrite reconstruct_null in Erec. injection Erec as Erec. now subst v'. }
    split; [eapply same_store_trans; eassumption|].
    split; [rewrite Hdom; apply dom_insert_ids|].
    split.
    + intros id x Hx. destruct (Hval id x Hx) as [[Hni Hd]|[Hi Hb]].
      * destruct (decide (id = id0)) as [->|Hne'].
        -- rewrite lookup_insert_eq in Hd. injection Hd as Hd. subst x.
           right. split; [left | exact Hbound].
        -- rewrite lookup_insert_ne in Hd by congruence.
           left. split; [|exact Hd]. intros Hin. apply elem_of_cons in Hin as [?|?];
             [congruence | contradiction].
      * right. split; [now right|]. unfold bound_value in *.
        now rewrite <- (stored_value_same_store w w1 sid _ Hs1).
    + intros Hf. destruct (Hh Hf) as [-> Hf1]. destruct (Hhealthy Hf1) as [Hf' Hex].
      split; [exact Hf'|]. intros id x Hx Hin.
      destruct (decide (id ∈ ids)) as [Hi|Hni].
      * rewrite <- (stored_value_same_store w w1 sid _ Hs1). now apply Hex.
      * destruct (Hval id x Hx) as [[_ Hd]|[Hi _]]; [|contradiction].
        apply elem_of_cons in Hin as [->|?]; [|contradiction].
        rewrite lookup_insert_eq in Hd. injection Hd as Hd. now subst x.
Qed.


Lemma get_entries_total (ids : list string) (data : js_object) (w : world) :
  reconstruct_safe fromObject type_ ->
  exists o w', promise_all_on (map (get_entry fromObject sid type_) ids) data w = (Ok o, w').
Proof.
  intros Hsafe. revert data w. induction ids as [|id0 ids IH]; intros data w.
  - cbn. unfold ret. eauto.
  - cbn [map promise_all_on]. rewrite get_entry_run.
    destruct (readData_total sid (entry_key type_ id0) w) as (v & w1 & Er & _).
    rewrite Er. destruct (reconstruct_safe_ok v Hsafe) as [v' ->]. apply IH.
Qed.

End BulkGet.



(** C10, as stated, fails for the id [__proto__]: asked for that id
    alone, the bulk get resolves to an object without any key.  The entry
    is absent, so the value is [null], which the assignment makes the
    prototype of the object. *)
Lemma keys_get_proto_id_unbound :
  exists w',
    keys_get accept "s1" "pre-key" ["__proto__"] fs_world
    = (Ok (Reparented ∅ JNull), w').
Proof.
  destruct (keys_get accept "s1" "pre-key" ["__proto__"] fs_world)
    as [[o|e] w'] eqn:E; vm_compute in E; [|discriminate].
  injection E as <- <-. eexists. vm_compute. reflexivity.
Qed.

(** C10 (amended): a bulk get that is not asked for the id [__proto__]
    resolves whenever the reconstruction cannot throw, and the object it
    resolves to is an ordinary one whose keys are exactly the requested
    ids.  With no failing backend call every id is bound to what the
    reconstruction makes of its decoded stored value, which is [null]
    for an entry that is absent or whose text does not parse; whatever
    fails, an id is bound to that value or to [null]. *)
Theorem keys_get_binds_requested_ids (fromObject : json -> outcome json)
    (sid type_ : string) (ids : list string) (w : world) :
  "__proto__" ∉ ids ->
  (reconstruct_safe fromObject type_ ->
   exists m w', keys_get fromObject sid type_ ids w = (Ok (Plain m), w'))
  /\ (forall o w',
        keys_get fromObject sid type_ ids w = (Ok o, w') ->
        exists m,
          o = Plain m
          /\ dom m = list_to_set (C := gset string) ids
          /\ (forall id, id ∈ ids <-> is_Some (m !! id))
          /\ (forall id x, m !! id = Some x -> bound_value fromObject sid type_ w id x)
          /\ (healthy w ->
              forall id x, m !! id = Some x ->
                reconstruct fromObject type_
                  (stored_value w sid (entry_key type_ id)) = Ok x)).
Proof.
  intros Hproto.
  assert (Hspec : forall o w',
            keys_get fromObject sid type_ ids w = (Ok o, w') ->
            exists m,
              o = Plain m
              /\ dom m = list_to_set (C := gset string) ids
              /\ (forall id, id ∈ ids <-> is_Some (m !! id))
              /\ (forall id x, m !! id = Some x ->
                    bound_value fromObject sid type_ w id x)
              /\ (healthy w ->
                  forall id x, m !! id = Some x ->
                    reconstruct fromObject type_
                      (stored_value w sid (entry_key type_ id)) = Ok x)).
  { intros o w' E.
    destruct (get_entries_spec fromObject sid type_ ids ∅ w o w' Hproto E)
      as (m & -> & _ & Hdom & Hval & Hh).
    rewrite dom_empty_L, (left_id_L ∅ (∪)) in Hdom.
    assert (Hkeys : forall id, id ∈ ids <-> is_Some (m !! id)).
    { intros id. rewrite <- (elem_of_dom (D := gset string)), Hdom.
      symmetry. apply elem_of_list_to_set. }
    exists m. split; [reflexivity|]. split; [exact Hdom|]. split; [exact Hkeys|].
    split.
    - intros id x Hx. destruct (Hval id x Hx) as [[_ Hd]|[_ Hb]]; [|exact Hb].
      rewrite lookup_empty in Hd. discriminate.
    - intros Hf id x Hx. destruct (Hh Hf) as [_ Hex]. apply Hex; [exact Hx|].
      apply Hkeys. now rewrite Hx. }
  split; [|exact Hspec].
  intros Hsafe.
  destruct (get_entries_total fromObject sid type_ ids (Plain ∅) w Hsafe) as (o & w' & E).
  destruct (Hspec o w' E) as (m & -> & _). eauto.
Qed.

(** ** A fresh session *)

Lemma saveKey_total (sid : string) (k : json) (w : world) :
  exists v w', saveKey sid k w = (Ok v, w').
Proof.
  unfold saveKey, try_catch.
  destruct (bind _ _ w) as [[v|e] w1]; [eauto|].
  unfold bind, console_error, ret. eauto.
Qed.

Lemma writeData_creds (sid : string) (v : json) (w : world) :
  writeData sid v "creds" w = saveKey sid (JStr (JSON_stringify_replacer v)) w.
Proof.
  unfold writeData. cbn [String.eqb Ascii.eqb Bool.eqb]. unfold try_catch.
  destruct (saveKey_total sid (JStr (JSON_stringify_replacer v)) w) as (r & w' & E).
  now rewrite E.
Qed.

Lemma set_faults_nil (w : world) : faults w = [] -> set_faults [] w = w.
Proof. intros E. unfold set_faults. rewrite <- E. apply world_eta. Qed.

Lemma rows_of_none (sid : string) (w : world) :
  rows_of sid w = [] -> existsb (has_session sid) (sessions w) = false.
Proof.
  unfold rows_of. induction (sessions w) as [|r l IH]; cbn [List.filter existsb];
    [reflexivity|].
  destruct (has_session sid r); [discriminate | exact IH].
Qed.

Lemma find_appended (sid : string) (row : SessionData) (l : list SessionData) :
  existsb (has_session sid) l = false -> has_session sid row = true ->
  find (has_session sid) (l ++ [row]) = Some row.
Proof.
  intros Hl Hr. induction l as [|r l IH]; cbn [app find existsb] in *.
  - now rewrite Hr.
  - apply Bool.orb_false_iff in Hl as [-> Hl]. now apply IH.
Qed.

Lemma JSON_parse_stringify_text (text : string) :
  JSON_parse (JSON_stringify (JStr text)) = Some (JStr text).
Proof. now apply JSON_parse_stringify_pure. Qed.

(** With no failing call [saveKey] reports no error: the insert is only
    tried for a session without a record. *)
Lemma saveKey_healthy_console (sid : string) (k : json) (w : world) :
  faults w = [] -> console (snd (saveKey sid k w)) = console w.
Proof. intros E. now rewrite saveKey_healthy. Qed.

Lemma find_updated (sid c : string) (l : list SessionData) :
  existsb (has_session sid) l = true ->
  find (has_session sid) (map (upd_row sid c) l) = Some (mkSession sid c).
Proof.
  induction l as [|r l IH]; cbn [existsb map find]; [discriminate|].
  destruct (has_session sid r) eqn:E.
  - intros _. now rewrite upd_row_match, has_session_new.
  - rewrite upd_row_other by exact E. rewrite E. cbn [orb]. exact IH.
Qed.

(** What [getAuthKey] loads is what the last [saveKey] was given, as
    [JSON.parse] returns it. *)
Lemma getAuthKey_after_saveKey (sid : string) (k : json) (w : world) :
  faults w = [] -> wf_json k = true ->
  exists w2, getAuthKey sid (snd (saveKey sid k w)) = (Ok (plain k), w2).
Proof.
  intros Hf Hk. rewrite saveKey_healthy by exact Hf. cbn [snd].
  rewrite getAuthKey_run. cbn [faults set_sessions sessions]. rewrite Hf. cbn [tail].
  destruct (existsb (has_session sid) (sessions w)) eqn:Ex.
  - rewrite find_updated by exact Ex. cbn [creds].
    rewrite JSON_parse_stringify by exact Hk. eauto.
  - rewrite (find_appended sid _ _ Ex (has_session_new sid _)). cbn [creds].
    rewrite JSON_parse_stringify by exact Hk. eauto.
Qed.

(** C1 on the code: the initialisation of a session without a record
    returns the fresh credentials and inserts one record, but that record
    holds the encoded text encoded once more as a string, and
    [getAuthKey] decodes only once: a later load returns the encoded text
    as a string, not a value equal to the credentials. *)
Theorem fresh_session_load_returns_text (fields : list (string * json))
    (sid : string) (w : world) :
  healthy w -> rows_of sid w = [] ->
  exists w1,
    useMultiFileAuthStatePrisma (JObj fields) sid w = (Ok (JObj fields), w1)
    /\ rows_of sid w1
       = [mkSession sid (JSON_stringify (JStr (JSON_stringify_replacer (JObj fields))))]
    /\ (exists w2, getAuthKey sid w1
                   = (Ok (JStr (JSON_stringify_replacer (JObj fields))), w2))
    /\ (exists w2, readData sid "creds" w1
                   = (Ok (JStr (JSON_stringify_replacer (JObj fields))), w2))
    /\ JStr (JSON_stringify_replacer (JObj fields)) <> JObj fields.
Proof.
  intros Hh Hnone. pose proof (rows_of_none sid w Hnone) as Hex.
  unfold useMultiFileAuthStatePrisma, fs_mkdir_recursive.
  unfold bind at 1 2. rewrite backend_call_run, (fails_next_healthy w Hh),
    (next_call_healthy w Hh).
  set (w0 := set_dirs ({[localFolder sid]} ∪ dirs w) w).
  assert (Hf0 : faults w0 = []) by exact Hh.
  unfold bind at 1. rewrite readData_creds, getAuthKey_run, Hf0. cbn [tail].
  rewrite (set_faults_nil w0 Hf0).
  assert (Hfind : find (has_session sid) (sessions w0) = None).
  { cbn [w0 sessions set_dirs]. clear - Hex.
    induction (sessions w) as [|r l IH]; cbn [find existsb] in *; [reflexivity|].
    apply Bool.orb_false_iff in Hex as [-> Hl]. now apply IH. }
  rewrite Hfind. cbn [truthy negb]. unfold bind, ret.
  rewrite writeData_creds, (saveKey_healthy sid _ w0 Hf0).
  cbn [w0 sessions set_dirs]. rewrite Hex.
  set (row := mkSession sid (JSON_stringify (JStr (JSON_stringify_replacer (JObj fields))))).
  eexists. split; [reflexivity|].
  assert (Hget : exists w2,
             getAuthKey sid (set_sessions (sessions w ++ [row]) w0)
             = (Ok (JStr (JSON_stringify_replacer (JObj fields))), w2)).
  { rewrite getAuthKey_run.
    change (faults (set_sessions (sessions w ++ [row]) w0)) with (faults w0).
    rewrite Hf0. cbn [sessions set_sessions tail].
    rewrite (find_appended sid row _ Hex (has_session_new sid _)).
    cbn [creds row]. rewrite JSON_parse_stringify_text. eauto. }
  split; [|split; [exact Hget | split; [now rewrite readData_creds | discriminate]]].
  unfold rows_of. cbn [sessions set_sessions]. rewrite List.filter_app.
  destruct (absent_rows sid "" _ Hex) as [-> _]. cbn [app List.filter].
  subst row. now rewrite has_session_new.
Qed.



(** ** The theorems at sample inputs *)

Lemma fresh_session_load_returns_text_witness :
  exists w1,
    useMultiFileAuthStatePrisma (JObj sample_creds) "s1" (empty_world false)
    = (Ok (JObj sample_creds), w1)
    /\ rows_of "s1" w1
       = [mkSession "s1"
            (JSON_stringify (JStr (JSON_stringify_replacer (JObj sample_creds))))]
    /\ (exists w2, getAuthKey "s1" w1
                   = (Ok (JStr (JSON_stringify_replacer (JObj sample_creds))), w2))
    /\ (exists w2, readData "s1" "creds" w1
                   = (Ok (JStr (JSON_stringify_replacer (JObj sample_creds))), w2))
    /\ JStr (JSON_stringify_replacer (JObj sample_creds)) <> JObj sample_creds.
Proof.
  apply (fresh_session_load_returns_text sample_creds "s1" (empty_world false));
    reflexivity.
Defined.

(** The second initialisation of a session takes the string that the load
    returns for its credentials. *)
Example second_initialisation_takes_text :
  let w1 := snd (useMultiFileAuthStatePrisma (JObj sample_creds) "s1" (empty_world false)) in
  fst (useMultiFileAuthStatePrisma (JObj sample_creds) "s1" w1)
  = Ok (JStr (JSON_stringify_replacer (JObj sample_creds))).
Proof. vm_compute. reflexivity. Qed.


Lemma keys_set_writes_or_removes_witness :
  let w' := snd (keys_set "s1" bulk_data fs_world) in
  set_tasks "s1" bulk_data = map (set_task "s1") (triples bulk_data)
  /\ backend_entry w' "s1" (entry_key "pre-key" "3")
     = (if truthy pre_key_value then Some (written_form fs_world pre_key_value) else None)
  /\ (is_structured pre_key_value = true ->
      backend_entry w' "s1" (entry_key "pre-key" "3")
      = Some (written_form fs_world pre_key_value))
  /\ (pre_key_value = JNull ->
      backend_entry w' "s1" (entry_key "pre-key" "3") = None).
Proof.
  apply (keys_set_writes_or_removes "s1" "pre-key" "3" pre_key_value bulk_data fs_world).
  - reflexivity.
  - right. refine (bool_decide_unpack _ _); vm_compute; exact I.
  - refine (bool_decide_unpack _ _); vm_compute; exact I.
  - unfold bulk_data, triples. cbn [flat_map map fst snd app].
    apply elem_of_cons. right. apply elem_of_cons. left. reflexivity.
Defined.

(** The files after that bulk set: the entry with a null value is gone,
    the entry with a value holds its encoded text, the third file is
    untouched. *)
Example keys_set_sample_files :
  map_to_list (files (snd (keys_set "s1" bulk_data fs_world)))
  = [(localFile "s1" "pre-key-3", JSON_stringify_replacer pre_key_value);
     (localFile "s1" "pre-key-2", "{oops")].
Proof. vm_compute. reflexivity. Qed.


Lemma remove_missing_file_rejects_witness :
  (exists e w', removeData "s1" (entry_key "pre-key" "3") fs_world = (Throw e, w'))
  /\ (exists w', readData "s1" (entry_key "pre-key" "3") fs_world = (Ok JNull, w'))
  /\ (exists e w', keys_set "s1" remove_data fs_world = (Throw e, w')).
Proof.
  apply (remove_missing_file_rejects "s1" "pre-key" "3" JNull remove_data fs_world).
  - reflexivity.
  - vm_compute. reflexivity.
  - reflexivity.
  - unfold remove_data, triples. cbn [flat_map map fst snd app].
    apply elem_of_cons. left. reflexivity.
  - unfold remove_data, triples. cbn [flat_map map fst snd app].
    intros t Ht. apply list_elem_of_singleton in Ht. subst t. discriminate.
Defined.

Lemma removeData_cache_needs_deletion_witness :
  match cache_hDelete "s1" (entry_key "pre-key" "9") cache_world with
  | (Ok deleted, w1) =>
      if truthy deleted
      then removeData "s1" (entry_key "pre-key" "9") cache_world = (Ok deleted, w1)
      else removeData "s1" (entry_key "pre-key" "9") cache_world =
           (Throw (DeleteFailed (entry_key "pre-key" "9")),
            logged ("Error removing data for key " +:+ entry_key "pre-key" "9" +:+ ":")
              (DeleteFailed (entry_key "pre-key" "9")) w1)
  | (Throw e, w1) =>
      removeData "s1" (entry_key "pre-key" "9") cache_world =
      (Throw e,
       logged ("Error removing data for key " +:+ entry_key "pre-key" "9" +:+ ":") e w1)
  end
  /\ ((exists r w', removeData "s1" (entry_key "pre-key" "9") cache_world = (Ok r, w'))
      <-> fst (cache_hDelete "s1" (entry_key "pre-key" "9") cache_world)
          = Ok (JBool true)).
Proof.
  apply (removeData_cache_needs_deletion "s1" "pre-key" "9" cache_world).
  reflexivity.
Defined.

(** In cache mode, removing an entry the hash does not hold fails with the
    error raised for a false [hDelete]; removing one it holds succeeds. *)
Example removeData_cache_sample :
  fst (removeData "s1" (entry_key "pre-key" "9") cache_world)
  = Throw (DeleteFailed "pre-key-9")
  /\ fst (removeData "s1" (entry_key "pre-key" "1") cache_world) = Ok (JBool true).
Proof. split; vm_compute; reflexivity. Qed.


Lemma keys_get_binds_requested_ids_witness :
  (reconstruct_safe accept "pre-key" ->
   exists m w', keys_get accept "s1" "pre-key" ["1"; "2"; "3"] fs_world
                = (Ok (Plain m), w'))
  /\ (forall o w',
        keys_get accept "s1" "pre-key" ["1"; "2"; "3"] fs_world = (Ok o, w') ->
        exists m,
          o = Plain m
          /\ dom m = list_to_set (C := gset string) ["1"; "2"; "3"]
          /\ (forall id, id ∈ ["1"; "2"; "3"] <-> is_Some (m !! id))
          /\ (forall id x, m !! id = Some x ->
                bound_value accept "s1" "pre-key" fs_world id x)
          /\ (healthy fs_world ->
              forall id x, m !! id = Some x ->
                reconstruct accept "pre-key"
                  (stored_value fs_world "s1" (entry_key "pre-key" id)) = Ok x)).
Proof.
  apply (keys_get_binds_requested_ids accept "s1" "pre-key" ["1"; "2"; "3"] fs_world).
  rewrite !elem_of_cons, elem_of_nil. intros [H|[H|[H|[]]]]; discriminate.
Defined.

(** The bulk get of three ids over a good entry, a malformed one and a
    missing one: the failure of the second read is caught and leaves the
    other two as they are.  So it is when the first backend call of the
    bulk get fails: the id whose read it hits is bound to [null], the
    good entry read after it is bound to its value. *)
Example keys_get_sample :
  (exists m w',
     keys_get accept "s1" "pre-key" ["1"; "2"; "3"] fs_world = (Ok (Plain m), w')
     /\ m !! "1" = Some pre_key_value /\ m !! "2" = Some JNull /\ m !! "3" = Some JNull
     /\ console w' = [("Error reading data for key pre-key-2:", SyntaxError)])
  /\ (exists m w',
        keys_get accept "s1" "pre-key" ["3"; "1"] (set_faults [true] fs_world)
        = (Ok (Plain m), w')
        /\ m !! "3" = Some JNull /\ m !! "1" = Some pre_key_value).
Proof.
  split.
  - destruct (keys_get accept "s1" "pre-key" ["1"; "2"; "3"] fs_world)
      as [[o|e] w'] eqn:E; vm_compute in E; [|discriminate].
    injection E as <- <-. eexists _, _. split; [reflexivity|]. vm_compute. repeat split.
  - destruct (keys_get accept "s1" "pre-key" ["3"; "1"] (set_faults [true] fs_world))
      as [[o|e] w'] eqn:E; vm_compute in E; [|discriminate].
    injection E as <- <-. eexists _, _. split; [reflexivity|]. vm_compute. repeat split.
Qed.

(* ===================================================================== *)
(** * Part III: further properties of the source functions               *)
(* ===================================================================== *)

(** ** File names of entries *)

Lemma sanitize_flat (s : string) :
  has_char "/" (sanitize s) = false /\ has_char ":" (sanitize s) = false.
Proof.
  induction s as [|a s [IH1 IH2]]; cbn [sanitize]; [now split|].
  rewrite !has_char_append, IH1, IH2, !Bool.orb_false_r. unfold sanitize_char.
  destruct (Ascii.eqb_spec a "/") as [->|H1]; [now split|].
  destruct (Ascii.eqb_spec a ":") as [->|H2]; [now split|].
  cbn [has_char]. rewrite !Bool.orb_false_r.
  split; now apply Ascii.eqb_neq.
Qed.

Lemma sanitize_clean (s : string) :
  has_char "/" s = false -> has_char ":" s = false -> sanitize s = s.
Proof.
  induction s as [|a s IH]; cbn [has_char sanitize]; [reflexivity|].
  intros H1 H2. apply Bool.orb_false_iff in H1 as [H1 H1'].
  apply Bool.orb_false_iff in H2 as [H2 H2'].
  unfold sanitize_char. rewrite H1, H2. cbn. now rewrite IH.
Qed.

Lemma entry_key_not_empty (category id : string) :
  String.eqb (entry_key category id) "" = false.
Proof.
  destruct (String.eqb_spec (entry_key category id) "") as [E|]; [|reflexivity].
  assert (H : has_char "-" (entry_key category id) = true).
  { unfold entry_key. rewrite !has_char_append. cbn. now rewrite Bool.orb_true_r. }
  rewrite E in H. discriminate.
Qed.

(** X1: the file name of a key holds no path separator and no colon,
    and a non-empty name without these characters is kept as it is.
    The name of a keyed entry is never empty, so [fixFileName] never
    returns [undefined] for it: category and id are sanitized each on
    its own, around the hyphen that joins them. *)
Theorem entry_file_names_are_flat (key : string) :
  has_char "/" (file_name key) = false
  /\ has_char ":" (file_name key) = false
  /\ (key <> "" -> has_char "/" key = false -> has_char ":" key = false ->
      file_name key = key +:+ ".json")
  /\ (forall category id,
        fixFileName (entry_key category id)
        = Some (sanitize category +:+ "-" +:+ sanitize id)).
Proof.
  unfold file_name. rewrite fixFileName_sanitize.
  split; [|split; [|split]].
  - destruct (String.eqb key ""); cbn [default from_option id]; [reflexivity|].
    rewrite has_char_append. now rewrite (proj1 (sanitize_flat key)).
  - destruct (String.eqb key ""); cbn [default from_option id]; [reflexivity|].
    rewrite has_char_append. now rewrite (proj2 (sanitize_flat key)).
  - intros Hne H1 H2. apply String.eqb_neq in Hne. rewrite Hne. cbn [default from_option id].
    now rewrite sanitize_clean.
  - intros category id. rewrite fixFileName_sanitize, entry_key_not_empty.
    unfold entry_key. now rewrite !sanitize_append.
Qed.

(** ** Keyed entries: one operation *)

Lemma readData_stored (sid key : string) (w : world) :
  String.eqb key "creds" = false -> faults w = [] ->
  exists w', readData sid key w = (Ok (stored_value w sid key), w').
Proof.
  intros Hk Hf.
  destruct (readData_entry_spec sid key w Hk) as (v & w' & E & _ & _ & Hv).
  destruct (Hv Hf) as [-> _]. eauto.
Qed.

Lemma decode_encoded (v : json) :
  wf_json v = true -> no_tag v = true ->
  JSON_parse_reviver (JSON_stringify_replacer v) = Some v.
Proof.
  intros Hw Hn. unfold JSON_parse_reviver, JSON_stringify_replacer.
  rewrite JSON_parse_stringify_pure;
    [| apply pure_replace_buffers | now apply wf_replace_buffers].
  cbn [fmap option_fmap option_map]. now rewrite revive_replace_buffers.
Qed.

(** X2: in filesystem mode two entry names with the same sanitized file
    name share one file: what is written under one name is read back
    under the other. *)
Theorem colliding_names_share_a_file (sid k1 k2 : string) (v : json) (w : world) :
  healthy w -> redis_enabled w = false -> localFolder sid ∈ dirs w ->
  String.eqb k1 "creds" = false -> String.eqb k2 "creds" = false ->
  file_name k1 = file_name k2 ->
  wf_json v = true -> no_tag v = true ->
  exists w1 w2,
    writeData sid v k1 w = (Ok (JBool true), w1)
    /\ readData sid k2 w1 = (Ok v, w2).
Proof.
  intros Hh Er Hd H1 H2 Hname Hw Hn.
  rewrite writeData_entry_run by exact H1.
  rewrite (fails_next_healthy w Hh), (next_call_healthy w Hh), Er. cbn zeta.
  rewrite bool_decide_eq_true_2 by exact Hd.
  set (w1 := set_files _ w).
  destruct (readData_stored sid k2 w1 H2 Hh) as [w2 E].
  exists w1, w2. split; [reflexivity|]. rewrite E. f_equal. f_equal.
  unfold stored_value, w1. cbn [redis_enabled files set_files]. rewrite Er.
  unfold localFile. rewrite Hname, lookup_insert_eq.
  now rewrite decode_encoded.
Qed.

Lemma colliding_names_share_a_file_witness :
  exists w1 w2,
    writeData "s1" pre_key_value "a/b-1" fs_world = (Ok (JBool true), w1)
    /\ readData "s1" "a__b-1" w1 = (Ok pre_key_value, w2).
Proof.
  apply (colliding_names_share_a_file "s1" "a/b-1" "a__b-1" pre_key_value fs_world);
    reflexivity.
Defined.

Lemma byte_of_json_num (b : byte) : byte_of_json (byte_num b) = b.
Proof. destruct b; vm_compute; reflexivity. Qed.

Lemma truthy_plain (v : json) : wf_json v = true -> truthy (plain v) = truthy v.
Proof. destruct v; try reflexivity. discriminate. Qed.

Lemma revive_toJSON_buffer (bs : list byte) : revive (toJSON_buffer bs) = JBuf bs.
Proof.
  unfold toJSON_buffer. cbn [revive map fst snd reviver].
  change (is_tagged _) with true. cbn iota.
  change (obj_get "data" _) with (Some (JArr (map revive (map byte_num bs)))).
  cbn iota. f_equal. rewrite !map_map.
  induction bs as [|b bs IH]; cbn [map]; [reflexivity|].
  rewrite IH. f_equal. apply byte_of_json_num.
Qed.

(** Reviving the platform form of a value restores its buffers. *)
Lemma revive_plain (v : json) :
  wf_json v = true -> no_tag v = true -> revive (plain v) = v.
Proof.
  induction v as [| b | n | s | vs IH | fs IH | bs | x] using json_ind';
    try reflexivity; cbn [wf_json no_tag]; intros Hw Hn.
  - change (plain (JArr vs)) with (JArr (map plain vs)).
    cbn [revive reviver]. rewrite map_map. f_equal.
    apply map_id_Forall. now apply (Forall_guarded _ wf_json no_tag).
  - change (plain (JObj fs)) with (JObj (map (fun kv => (fst kv, plain (snd kv))) fs)).
    apply andb_prop in Hw as [_ Hw].
    apply andb_prop in Hn as [Ht Hn]. apply Bool.negb_true_iff in Ht.
    cbn [revive]. rewrite map_map. cbn [fst snd].
    rewrite (map_values_id (fun x => revive (plain x))).
    + cbn [reviver]. now rewrite Ht.
    + now apply (Forall_guarded _ (fun kv => wf_json (snd kv))
                   (fun kv => no_tag (snd kv))).
  - apply revive_toJSON_buffer.
  - discriminate.
Qed.

Lemma decode_cached (v : json) :
  wf_json v = true -> no_tag v = true ->
  JSON_parse_reviver (JSON_stringify (plain v)) = Some v.
Proof.
  intros Hw Hn. unfold JSON_parse_reviver.
  rewrite JSON_parse_stringify_pure; [| apply pure_plain | now apply wf_plain].
  cbn [fmap option_fmap option_map]. now rewrite revive_plain.
Qed.

(** X3: in cache mode, the cache service being as modelled above, with
    no failing call, an entry that was written is read back as the value
    itself when the value is truthy and no mapping of it carries the
    marker; a falsy value is read back as [null]. *)
Theorem write_then_read_cache (sid category id : string) (v : json) (w : world) :
  healthy w -> redis_enabled w = true ->
  wf_json v = true -> no_tag v = true ->
  exists w1 w2,
    writeData sid v (entry_key category id) w = (Ok JNull, w1)
    /\ readData sid (entry_key category id) w1
       = (Ok (if truthy v then v else JNull), w2).
Proof.
  intros Hh Er Hw Hn.
  rewrite writeData_entry_run by apply entry_key_not_creds.
  rewrite (fails_next_healthy w Hh), (next_call_healthy w Hh), Er. cbn zeta.
  set (w1 := set_cache _ w).
  destruct (readData_stored sid (entry_key category id) w1
              (entry_key_not_creds _ _) Hh) as [w2 E].
  exists w1, w2. split; [reflexivity|]. rewrite E. f_equal. f_equal.
  unfold stored_value, w1. cbn [redis_enabled cache_store set_cache]. rewrite Er.
  rewrite lookup_insert_eq, truthy_plain by exact Hw.
  destruct (truthy v); [|reflexivity]. now rewrite decode_cached.
Qed.

Lemma write_then_read_cache_witness :
  exists w1 w2,
    writeData "s1" pre_key_value (entry_key "pre-key" "3") cache_world = (Ok JNull, w1)
    /\ readData "s1" (entry_key "pre-key" "3") w1
       = (Ok (if truthy pre_key_value then pre_key_value else JNull), w2).
Proof.
  apply (write_then_read_cache "s1" "pre-key" "3" pre_key_value cache_world);
    reflexivity.
Defined.

(** X4: once [removeData] has succeeded for a keyed entry, a read of that
    entry gives [null], whatever fails afterwards. *)
Theorem remove_then_read_null (sid category id : string) (w : world)
    (r : json) (w1 : world) (later : list bool) :
  removeData sid (entry_key category id) w = (Ok r, w1) ->
  exists w2,
    readData sid (entry_key category id) (set_faults later w1) = (Ok JNull, w2).
Proof.
  intros Hrm.
  rewrite removeData_entry_run in Hrm by apply entry_key_not_creds. cbn zeta in Hrm.
  destruct (readData_entry_spec sid (entry_key category id) (set_faults later w1)
              (entry_key_not_creds _ _)) as (v & w2 & E & _ & Hv & _).
  exists w2. rewrite E. f_equal. f_equal.
  destruct Hv as [-> | ->]; [reflexivity|].
  unfold stored_value. cbn [redis_enabled cache_store files set_faults].
  destruct (fails_next w); [discriminate|].
  destruct (redis_enabled w) eqn:Er.
  - destruct (cache_store w !! _) eqn:El; [|discriminate].
    injection Hrm as _ <-. cbn. rewrite Er. now rewrite lookup_delete_eq.
  - destruct (files w !! _) eqn:El; [|discriminate].
    injection Hrm as _ <-. cbn. rewrite Er. now rewrite lookup_delete_eq.
Qed.

Lemma remove_then_read_null_witness :
  exists w2,
    readData "s1" (entry_key "pre-key" "1")
      (set_faults [true]
         (snd (removeData "s1" (entry_key "pre-key" "1") cache_world)))
    = (Ok JNull, w2).
Proof.
  apply (remove_then_read_null "s1" "pre-key" "1" cache_world (JBool true)).
  vm_compute. reflexivity.
Defined.

(** X5: the write of a keyed entry throws exactly when its backend call
    fails or, in filesystem mode, the session folder is missing.  A
    write that throws reports its error once on the console and leaves
    the table, the folders, the mode and every cache field and file but
    the entry's own as they were; of the entry's own slot nothing is
    said.  A removal that throws reports its error once and changes no
    store. *)
Theorem failed_entry_operation_is_reported (sid category id : string)
    (v : json) (w : world) :
  let key := entry_key category id in
  ((exists e w', writeData sid v key w = (Throw e, w'))
   <-> fails_next w = true
       \/ (redis_enabled w = false /\ localFolder sid ∉ dirs w))
  /\ (forall e w',
        writeData sid v key w = (Throw e, w') ->
        sessions w' = sessions w /\ dirs w' = dirs w
        /\ redis_enabled w' = redis_enabled w
        /\ (forall slot, slot <> (sid, key) ->
              cache_store w' !! slot = cache_store w !! slot)
        /\ (forall p, p <> localFile sid key -> files w' !! p = files w !! p)
        /\ console w'
           = console w ++ [("Error writing data for key " +:+ key +:+ ":", e)])
  /\ (forall e w',
        removeData sid key w = (Throw e, w') ->
        same_store w w'
        /\ console w'
           = console w ++ [("Error removing data for key " +:+ key +:+ ":", e)]).
Proof.
  cbn zeta.
  rewrite writeData_entry_run, removeData_entry_run by apply entry_key_not_creds.
  cbn zeta. split; [|split].
  - destruct (fails_next w); [split; eauto|].
    destruct (redis_enabled w).
    + split; [intros (e & w' & E); discriminate | intros [?|[? _]]; discriminate].
    + destruct (bool_decide (localFolder sid ∈ dirs w)) eqn:Ed.
      * apply bool_decide_eq_true in Ed.
        split; [intros (e & w' & E); discriminate | intros [?|[_ Hn]]; [discriminate|]].
        now destruct Hn.
      * apply bool_decide_eq_false in Ed. split; eauto.
  - intros e w' E.
    destruct (fails_next w); [injection E as <- <-; now repeat split|].
    destruct (redis_enabled w) eqn:Er; [discriminate|].
    destruct (bool_decide _); [discriminate|].
    injection E as <- <-. repeat split; try reflexivity. exact Er.
  - intros e w' E.
    destruct (fails_next w); [injection E as <- <-; now repeat split|].
    destruct (redis_enabled w).
    + destruct (cache_store w !! _); [discriminate|].
      injection E as <- <-. now repeat split.
    + destruct (files w !! _); [discriminate|].
      injection E as <- <-. now repeat split.
Qed.

(** X6: in filesystem mode a failure of the [stat] call makes the read of
    an existing entry give [null] without any report on the console,
    whereas a failure of the following [readFile] call gives [null] and is
    reported. *)
Theorem read_failures_in_file_mode (sid category id : string) (text : string)
    (w : world) :
  redis_enabled w = false ->
  files w !! localFile sid (entry_key category id) = Some text ->
  (fails_next w = true ->
   readData sid (entry_key category id) w = (Ok JNull, next_call w))
  /\ (fails_next w = false -> fails_next (next_call w) = true ->
      readData sid (entry_key category id) w
      = (Ok JNull,
         logged ("Error reading data for key " +:+ entry_key category id +:+ ":")
           BackendFault (next_call (next_call w)))).
Proof.
  intros Er Hfile. unfold readData. rewrite entry_key_not_creds.
  unfold isRedisEnabled, fileExists, fs_stat_isFile, fs_readFile.
  unfold bind, try_catch, ret, throw, console_error. rewrite Er.
  rewrite backend_call_run. split.
  - intros ->. reflexivity.
  - intros -> Hf2.
    assert (Hfile' : files (next_call w) !! localFile sid (entry_key category id)
                     = Some text) by exact Hfile.
    cbn beta iota. rewrite Hfile'. cbn beta iota. cbn [negb].
    rewrite backend_call_run, Hf2. reflexivity.
Qed.

Lemma read_failures_in_file_mode_witness :
  (fails_next (set_faults [true] fs_world) = true ->
   readData "s1" (entry_key "pre-key" "1") (set_faults [true] fs_world)
   = (Ok JNull, next_call (set_faults [true] fs_world)))
  /\ (fails_next (set_faults [true] fs_world) = false ->
      fails_next (next_call (set_faults [true] fs_world)) = true ->
      readData "s1" (entry_key "pre-key" "1") (set_faults [true] fs_world)
      = (Ok JNull,
         logged ("Error reading data for key " +:+ entry_key "pre-key" "1" +:+ ":")
           BackendFault (next_call (next_call (set_faults [true] fs_world))))).
Proof.
  apply (read_failures_in_file_mode "s1" "pre-key" "1"
           (JSON_stringify_replacer pre_key_value) (set_faults [true] fs_world)).
  - reflexivity.
  - vm_compute. reflexivity.
Defined.

(** ** The credentials record: results and deletion *)

Lemma deleteAuthKey_run (sid : string) (w : world) :
  deleteAuthKey sid w =
  let msg := "Error deleting auth key for session " +:+ sid +:+ ":" in
  if fails_next w then (Ok JNull, logged msg BackendFault (next_call w))
  else match find (has_session sid) (sessions w) with
       | Some _ =>
           (Ok JNull,
            set_sessions
              (List.filter (fun r => negb (has_session sid r)) (sessions w))
              (next_call w))
       | None => (Ok JNull, logged msg (RecordNotFound sid) (next_call w))
       end.
Proof.
  unfold deleteAuthKey, session_delete.
  unfold bind, try_catch, ret, throw, console_error.
  rewrite backend_call_run. cbn zeta. destruct (fails_next w); cbn; [reflexivity|].
  destruct (find _ _); reflexivity.
Qed.

Lemma filter_delete_same (sid : string) (l : list SessionData) :
  List.filter (has_session sid) (List.filter (fun r => negb (has_session sid r)) l) = [].
Proof.
  induction l as [|r l IH]; cbn [List.filter]; [reflexivity|].
  destruct (has_session sid r) eqn:E; cbn [negb List.filter]; [exact IH|].
  now rewrite E.
Qed.

Lemma has_session_other (sid sid' : string) (r : SessionData) :
  sid' <> sid -> has_session sid r = true -> has_session sid' r = false.
Proof.
  intros Hne H. apply has_session_eq in H. unfold has_session.
  apply String.eqb_neq. congruence.
Qed.

Lemma filter_delete_other (sid sid' : string) (l : list SessionData) :
  sid' <> sid ->
  List.filter (has_session sid') (List.filter (fun r => negb (has_session sid r)) l)
  = List.filter (has_session sid') l.
Proof.
  intros Hne. induction l as [|r l IH]; cbn [List.filter]; [reflexivity|].
  destruct (has_session sid r) eqn:E; cbn [negb List.filter].
  - rewrite (has_session_other sid sid' r Hne E). exact IH.
  - now rewrite IH.
Qed.

Lemma find_none_filter (sid : string) (l : list SessionData) :
  find (has_session sid) l = None -> List.filter (has_session sid) l = [].
Proof.
  induction l as [|r l IH]; cbn [find List.filter]; [reflexivity|].
  destruct (has_session sid r); [discriminate | exact IH].
Qed.

(** X7: deleting the credentials never throws, and [removeData] for the
    key [creds] is that deletion: when the backend call does not fail no
    record of the session is left, when it fails the table is as before,
    and the records of every other session are kept in both cases. *)
Theorem delete_credentials_best_effort (sid : string) (w : world) :
  removeData sid "creds" w = deleteAuthKey sid w
  /\ exists w',
       deleteAuthKey sid w = (Ok JNull, w')
       /\ (fails_next w = false -> rows_of sid w' = [])
       /\ (fails_next w = true -> sessions w' = sessions w)
       /\ (forall sid', sid' <> sid -> rows_of sid' w' = rows_of sid' w)
       /\ cache_store w' = cache_store w /\ files w' = files w.
Proof.
  split.
  - unfold removeData. cbn [String.eqb Ascii.eqb Bool.eqb]. unfold try_catch.
    rewrite deleteAuthKey_run. cbn zeta.
    destruct (fails_next w); [reflexivity|]. destruct (find _ _); reflexivity.
  - rewrite deleteAuthKey_run. cbn zeta. unfold rows_of.
    destruct (fails_next w).
    + eexists. split; [reflexivity|]. cbn. repeat split; auto; discriminate.
    + destruct (find (has_session sid) (sessions w)) eqn:Ef.
      * eexists. split; [reflexivity|]. cbn.
        split; [intros _; apply filter_delete_same|].
        split; [discriminate|]. split; [|auto].
        intros sid' Hne. now apply filter_delete_other.
      * eexists. split; [reflexivity|]. cbn.
        split; [intros _; now apply find_none_filter|].
        split; [discriminate|]. auto.
Qed.

Lemma filter_upd_other (sid sid' c : string) (l : list SessionData) :
  sid' <> sid ->
  List.filter (has_session sid') (map (upd_row sid c) l)
  = List.filter (has_session sid') l.
Proof.
  intros Hne. induction l as [|r l IH]; cbn [map List.filter]; [reflexivity|].
  destruct (has_session sid r) eqn:E.
  - rewrite upd_row_match by exact E.
    rewrite (has_session_other sid sid' r Hne E).
    rewrite (has_session_other sid sid' _ Hne (has_session_new sid c)). exact IH.
  - rewrite upd_row_other by exact E. now rewrite IH.
Qed.

(** The result and the table after one [saveKey], whatever fails. *)
Lemma saveKey_cases (sid : string) (k : json) (w : world) :
  let row := mkSession sid (JSON_stringify k) in
  exists v w',
    saveKey sid k w = (Ok v, w')
    /\ ((v = JNull /\ sessions w' = sessions w)
        \/ (v = row_json row
            /\ existsb (has_session sid) (sessions w) = false
            /\ sessions w' = sessions w ++ [row])
        \/ (v = row_json row
            /\ existsb (has_session sid) (sessions w) = true
            /\ sessions w' = map (upd_row sid (JSON_stringify k)) (sessions w))).
Proof.
  cbn zeta. unfold saveKey. unfold try_catch at 1. unfold bind at 1.
  rewrite keyExists_run.
  unfold session_create, session_update, after_failure. unfold_monad.
  destruct (faults w) as [|[] [|[] r]] eqn:E; cbn;
    destruct (existsb (has_session sid) (sessions w)) eqn:Ex; cbn;
    try rewrite E; cbn; try rewrite Ex; cbn; eexists _, _;
    (split; [reflexivity|]);
    first [ left; split; reflexivity
          | right; left; split; [reflexivity | split; reflexivity]
          | right; right; split; [reflexivity | split; reflexivity] ].
Qed.

(** X8: [saveKey], and [saveCreds] through it, never throw.  A [null]
    result means that the table is unchanged; any other result is the
    record of the session, which then is the only content of all its
    rows.  The rows of every other session are never touched. *)
Theorem saveKey_reports_by_result (sid : string) (k creds0 : json) (w : world) :
  (exists v w',
      saveKey sid k w = (Ok v, w')
      /\ (v = JNull -> sessions w' = sessions w)
      /\ (v <> JNull ->
          v = row_json (mkSession sid (JSON_stringify k))
          /\ rows_of sid w' <> []
          /\ Forall (fun r => r = mkSession sid (JSON_stringify k)) (rows_of sid w'))
      /\ (forall sid', sid' <> sid -> rows_of sid' w' = rows_of sid' w))
  /\ saveCreds sid creds0 w = saveKey sid (JStr (JSON_stringify_replacer creds0)) w.
Proof.
  split; [|apply writeData_creds].
  destruct (saveKey_cases sid k w)
    as (v & w' & E & [[-> Hs] | [(-> & Hex & Hs) | (-> & Hex & Hs)]]);
    eexists _, w'; (split; [exact E|]); unfold rows_of; rewrite Hs.
  - split; [auto|]. split; [congruence | auto].
  - split; [discriminate|]. split.
    + intros _. split; [reflexivity|].
      rewrite List.filter_app. destruct (absent_rows sid "" _ Hex) as [-> _].
      cbn [app List.filter]. rewrite has_session_new.
      split; [discriminate | repeat constructor].
    + intros sid' Hne. rewrite List.filter_app. cbn [List.filter].
      rewrite (has_session_other sid sid' _ Hne (has_session_new sid _)).
      apply app_nil_r.
  - split; [discriminate|]. split.
    + intros _. split; [reflexivity|]. split.
      * apply existsb_exists in Hex as (r & Hin & Hr).
        intros Hnil.
        assert (Hin' : In (mkSession sid (JSON_stringify k))
                         (List.filter (has_session sid)
                            (map (upd_row sid (JSON_stringify k)) (sessions w)))).
        { apply filter_In. split; [|apply has_session_new].
          apply in_map_iff. exists r. split; [now apply upd_row_match | exact Hin]. }
        rewrite Hnil in Hin'. destruct Hin'.
      * apply List.Forall_forall. intros r Hr. apply filter_In in Hr as [Hin Hr].
        apply in_map_iff in Hin as (r0 & <- & _).
        destruct (has_session sid r0) eqn:E0.
        -- now apply upd_row_match.
        -- rewrite upd_row_other in Hr by exact E0. congruence.
    + intros sid' Hne. now apply filter_upd_other.
Qed.

(** ** The records of different sessions *)

Lemma find_after_other_save (sid sid' c : string) (l : list SessionData) :
  sid <> sid' ->
  find (has_session sid)
    (if existsb (has_session sid') l
     then map (upd_row sid' c) l else l ++ [mkSession sid' c])
  = find (has_session sid) l.
Proof.
  intros Hne.
  assert (Hnew : has_session sid (mkSession sid' c) = false).
  { apply (has_session_other sid' sid); [exact Hne | apply has_session_new]. }
  destruct (existsb (has_session sid') l).
  - induction l as [|r l IH]; cbn [map find]; [reflexivity|].
    destruct (has_session sid' r) eqn:E.
    + rewrite upd_row_match by exact E. rewrite Hnew.
      now rewrite (has_session_other sid' sid r Hne E).
    + rewrite upd_row_other by exact E. now rewrite IH.
  - induction l as [|r l IH]; cbn [app find]; [now rewrite Hnew|].
    now rewrite IH.
Qed.

Lemma run_saveKeys_keeps_record (sid : string) (row : SessionData)
    (calls : list (string * json)) (w : world) :
  faults w = [] -> find (has_session sid) (sessions w) = Some row ->
  Forall (fun c => fst c <> sid) calls ->
  faults (run_saveKeys calls w) = []
  /\ find (has_session sid) (sessions (run_saveKeys calls w)) = Some row.
Proof.
  revert w. induction calls as [|[sid' k'] calls IH]; intros w Hf Hfind Hall.
  - now split.
  - apply Forall_cons in Hall as [Hne Hall]. cbn [fst] in Hne.
    unfold run_saveKeys in *. cbn [fold_left fst snd].
    rewrite saveKey_healthy by exact Hf. cbn [snd].
    apply IH; [exact Hf | | exact Hall].
    cbn [sessions set_sessions]. rewrite find_after_other_save by congruence.
    exact Hfind.
Qed.

(** X9: with no failing call, what [saveKey] stored for a session is
    what [getAuthKey] loads for it, as [JSON.parse] returns it, after any
    number of [saveKey] calls for other sessions. *)
Theorem credentials_survive_other_sessions (sid : string) (k : json)
    (calls : list (string * json)) (w : world) :
  healthy w -> wf_json k = true ->
  Forall (fun c => fst c <> sid) calls ->
  exists w2,
    getAuthKey sid (run_saveKeys calls (snd (saveKey sid k w))) = (Ok (plain k), w2).
Proof.
  intros Hf Hk Hall.
  assert (Hsaved : faults (snd (saveKey sid k w)) = []
                   /\ find (has_session sid) (sessions (snd (saveKey sid k w)))
                      = Some (mkSession sid (JSON_stringify k))).
  { rewrite saveKey_healthy by exact Hf. cbn [snd sessions set_sessions].
    split; [exact Hf|].
    destruct (existsb (has_session sid) (sessions w)) eqn:Ex.
    - now apply find_updated.
    - apply find_appended; [exact Ex | apply has_session_new]. }
  destruct Hsaved as [Hf1 Hfind1].
  destruct (run_saveKeys_keeps_record sid _ calls _ Hf1 Hfind1 Hall) as [Hf2 Hfind2].
  rewrite getAuthKey_run, Hf2, Hfind2. cbn [tail creds].
  rewrite JSON_parse_stringify by exact Hk. eauto.
Qed.

Lemma credentials_survive_other_sessions_witness :
  exists w2,
    getAuthKey "s1"
      (run_saveKeys [("s2", JNum 1)]
         (snd (saveKey "s1" (JObj sample_creds) (empty_world false))))
    = (Ok (plain (JObj sample_creds)), w2).
Proof.
  apply (credentials_survive_other_sessions "s1" (JObj sample_creds)
           [("s2", JNum 1)] (empty_world false)).
  - reflexivity.
  - reflexivity.
  - apply Forall_cons. split; [discriminate | apply Forall_nil; exact I].
Defined.

(** ** Initialisation *)

Lemma saveKey_other_stores (sid : string) (k : json) (w : world) :
  let w' := snd (saveKey sid k w) in
  cache_store w' = cache_store w /\ dirs w' = dirs w /\ files w' = files w
  /\ redis_enabled w' = redis_enabled w.
Proof.
  cbn zeta. remember (snd (saveKey sid k w)) as w' eqn:Ew. revert Ew.
  unfold saveKey. unfold try_catch at 1. unfold bind at 1.
  rewrite keyExists_run.
  unfold session_create, session_update, after_failure. unfold_monad.
  destruct w as [ss cs ds fs re fl co]. cbn.
  destruct fl as [|[] [|[] r]]; cbn;
    destruct (existsb (has_session sid) ss) eqn:Ex; cbn; rewrite ?Ex; cbn;
    intros ->; now repeat split.
Qed.

Lemma saveKey_other_rows (sid sid' : string) (k : json) (w : world) :
  sid' <> sid -> rows_of sid' (snd (saveKey sid k w)) = rows_of sid' w.
Proof.
  intros Hne. unfold rows_of.
  destruct (saveKey_sessions sid k w) as [-> | [[_ ->] | ->]].
  - reflexivity.
  - rewrite List.filter_app. cbn [List.filter].
    rewrite (has_session_other sid sid' _ Hne (has_session_new sid _)).
    apply app_nil_r.
  - now apply filter_upd_other.
Qed.

(** [saveKey] when neither of its two backend calls fails. *)
Lemma saveKey_two_calls (sid : string) (k : json) (w : world) :
  fails_next w = false -> fails_next (next_call w) = false ->
  saveKey sid k w =
  (Ok (row_json (mkSession sid (JSON_stringify k))),
   set_sessions
     (if existsb (has_session sid) (sessions w)
      then map (upd_row sid (JSON_stringify k)) (sessions w)
      else sessions w ++ [mkSession sid (JSON_stringify k)])
     (next_call (next_call w))).
Proof.
  unfold fails_next, next_call. intros H1 H2.
  unfold saveKey. unfold try_catch at 1. unfold bind at 1.
  rewrite keyExists_run.
  unfold session_create, session_update, after_failure. unfold_monad.
  destruct w as [ss cs ds fs re fl co]. cbn in *.
  destruct fl as [|[] [|[] r]]; cbn in *; try discriminate;
    destruct (existsb (has_session sid) ss) eqn:Ex; cbn; rewrite ?Ex; reflexivity.
Qed.

Lemma rows_after_save (sid c : string) (l : list SessionData) :
  let l' := if existsb (has_session sid) l
            then map (upd_row sid c) l else l ++ [mkSession sid c] in
  List.filter (has_session sid) l' <> []
  /\ Forall (fun r => r = mkSession sid c) (List.filter (has_session sid) l').
Proof.
  cbn zeta. destruct (existsb (has_session sid) l) eqn:Hex.
  - split.
    + apply existsb_exists in Hex as (r & Hin & Hr). intros Hnil.
      assert (Hin' : In (mkSession sid c)
                       (List.filter (has_session sid) (map (upd_row sid c) l))).
      { apply filter_In. split; [|apply has_session_new].
        apply in_map_iff. exists r. split; [now apply upd_row_match | exact Hin]. }
      rewrite Hnil in Hin'. destruct Hin'.
    + apply List.Forall_forall. intros r Hr. apply filter_In in Hr as [Hin Hr].
      apply in_map_iff in Hin as (r0 & <- & _).
      destruct (has_session sid r0) eqn:E0.
      * now apply upd_row_match.
      * rewrite upd_row_other in Hr by exact E0. congruence.
  - rewrite List.filter_app. destruct (absent_rows sid "" _ Hex) as [-> _].
    cbn [app List.filter]. rewrite has_session_new.
    split; [discriminate | repeat constructor].
Qed.

(** The world in which the credentials are loaded: the folder exists. *)
Lemma init_run (creds0 : json) (sid : string) (w : world) :
  useMultiFileAuthStatePrisma creds0 sid w =
  if fails_next w then (Throw BackendFault, next_call w)
  else
    let w0 := set_dirs ({[localFolder sid]} ∪ dirs w) (next_call w) in
    match getAuthKey sid w0 with
    | (Ok c, w1) =>
        if truthy c then (Ok c, w1)
        else (Ok creds0, snd (saveKey sid (JStr (JSON_stringify_replacer creds0)) w1))
    | (Throw e, w1) => (Throw e, w1)
    end.
Proof.
  unfold useMultiFileAuthStatePrisma, fs_mkdir_recursive.
  unfold bind at 1 2. rewrite backend_call_run.
  destruct (fails_next w); [reflexivity|]. cbn zeta.
  unfold bind at 1. rewrite readData_creds.
  destruct (getAuthKey sid _) as [[c|e] w1]; [|reflexivity].
  destruct (truthy c); cbn [negb]; [reflexivity|].
  unfold bind, ret. rewrite writeData_creds.
  destruct (saveKey_total sid (JStr (JSON_stringify_replacer creds0)) w1)
    as (r & w2 & E). now rewrite E.
Qed.

(** X10: the initialisation is rejected exactly when the creation of the
    folder fails, and then nothing is stored.  Otherwise it returns
    credentials, whatever else fails: a usable value loaded from the
    table, or the fresh ones.  It adds the session folder and leaves the
    files, the cache and the records of every other session as they
    were. *)
Theorem initialisation_rejects_only_on_mkdir (creds0 : json) (sid : string)
    (w : world) :
  (fails_next w = true ->
   useMultiFileAuthStatePrisma creds0 sid w = (Throw BackendFault, next_call w))
  /\ (fails_next w = false ->
      exists c w',
        useMultiFileAuthStatePrisma creds0 sid w = (Ok c, w')
        /\ (c = creds0 \/ truthy c = true)
        /\ dirs w' = {[localFolder sid]} ∪ dirs w
        /\ files w' = files w /\ cache_store w' = cache_store w
        /\ redis_enabled w' = redis_enabled w
        /\ forall sid', sid' <> sid -> rows_of sid' w' = rows_of sid' w).
Proof.
  rewrite init_run. split; intros Hf; rewrite Hf; [reflexivity|]. cbn zeta.
  set (w0 := set_dirs _ _).
  pose proof (getAuthKey_same_store sid w0) as Hs.
  destruct (getAuthKey_total sid w0) as (c & w1 & E). rewrite E in *. cbn [snd] in Hs.
  destruct Hs as (Hss & Hc & Hd & Hfi & Hr).
  destruct (truthy c) eqn:Ht.
  - exists c, w1. split; [reflexivity|]. split; [now right|].
    rewrite Hd, Hfi, Hc, Hr. repeat split. intros sid' _. unfold rows_of. now rewrite Hss.
  - eexists _, _. split; [reflexivity|]. split; [now left|].
    destruct (saveKey_other_stores sid (JStr (JSON_stringify_replacer creds0)) w1)
      as (Hc' & Hd' & Hfi' & Hr').
    rewrite Hd', Hfi', Hc', Hr', Hd, Hfi, Hc, Hr. repeat split.
    intros sid' Hne. rewrite saveKey_other_rows by exact Hne.
    unfold rows_of. now rewrite Hss.
Qed.

(** X11: with no failing call, a record whose text parses to a usable
    value is what the initialisation returns; the record is not written
    again and nothing is reported. *)
Theorem initialisation_keeps_usable_record (creds0 : json) (sid : string)
    (row : SessionData) (v : json) (w : world) :
  healthy w ->
  find (has_session sid) (sessions w) = Some row ->
  JSON_parse (creds row) = Some v -> truthy v = true ->
  useMultiFileAuthStatePrisma creds0 sid w
  = (Ok v, set_dirs ({[localFolder sid]} ∪ dirs w) w).
Proof.
  intros Hh Hfind Hp Ht. rewrite init_run, (fails_next_healthy w Hh),
    (next_call_healthy w Hh). cbn zeta.
  set (w0 := set_dirs _ _).
  assert (Hf0 : faults w0 = []) by exact Hh.
  rewrite getAuthKey_run, Hf0. cbn [tail]. rewrite (set_faults_nil w0 Hf0).
  change (sessions w0) with (sessions w). rewrite Hfind, Hp. cbn zeta. now rewrite Ht.
Qed.

Lemma initialisation_keeps_usable_record_witness :
  useMultiFileAuthStatePrisma (JObj sample_creds) "s1" table_world
  = (Ok stored_creds, set_dirs ({[localFolder "s1"]} ∪ dirs table_world) table_world).
Proof.
  apply (initialisation_keeps_usable_record (JObj sample_creds) "s1"
           (mkSession "s1" (JSON_stringify stored_creds)) stored_creds table_world).
  - reflexivity.
  - reflexivity.
  - vm_compute. reflexivity.
  - reflexivity.
Defined.

(** A record whose text is a number with a fraction is usable: the
    initialisation returns the number and leaves the record as it is. *)
Example initialisation_keeps_fraction_record :
  exists w',
    useMultiFileAuthStatePrisma (JObj sample_creds) "s3" fraction_table
    = (Ok (JDbl (S754_finite false 6755399441055744 (-52))), w')
    /\ sessions w' = sessions fraction_table /\ console w' = [].
Proof.
  destruct (useMultiFileAuthStatePrisma (JObj sample_creds) "s3" fraction_table)
    as [[v|e] w'] eqn:E; vm_compute in E; [|discriminate].
  injection E as <- <-. eexists. split; [reflexivity|]. split; reflexivity.
Qed.

(** X12: with no failing call, a record whose text does not parse, or
    parses to a value the code takes for absent, is replaced: the
    initialisation returns the fresh credentials and the session's record
    then holds their text. *)
Theorem initialisation_replaces_unusable_record (creds0 : json) (sid : string)
    (row : SessionData) (w : world) :
  healthy w ->
  find (has_session sid) (sessions w) = Some row ->
  (forall v, JSON_parse (creds row) = Some v -> truthy v = false) ->
  exists w',
    useMultiFileAuthStatePrisma creds0 sid w = (Ok creds0, w')
    /\ rows_of sid w' <> []
    /\ Forall (fun r => r = mkSession sid
                              (JSON_stringify (JStr (JSON_stringify_replacer creds0))))
         (rows_of sid w').
Proof.
  intros Hh Hfind Hbad. rewrite init_run, (fails_next_healthy w Hh),
    (next_call_healthy w Hh). cbn zeta.
  set (w0 := set_dirs _ _).
  assert (Hf0 : faults w0 = []) by exact Hh.
  rewrite getAuthKey_run, Hf0. cbn [tail]. rewrite (set_faults_nil w0 Hf0).
  change (sessions w0) with (sessions w). rewrite Hfind. cbn zeta.
  set (k := JStr (JSON_stringify_replacer creds0)).
  destruct (JSON_parse (creds row)) as [v|] eqn:Hp.
  - rewrite (Hbad v eq_refl). eexists. split; [reflexivity|].
    rewrite saveKey_healthy by exact Hf0. cbn [snd]. unfold rows_of.
    cbn [sessions set_sessions]. apply rows_after_save.
  - cbn [truthy]. eexists. split; [reflexivity|].
    rewrite saveKey_healthy by exact Hf0. cbn [snd]. unfold rows_of.
    cbn [sessions set_sessions]. apply rows_after_save.
Qed.

Lemma initialisation_replaces_unusable_record_witness :
  exists w',
    useMultiFileAuthStatePrisma (JObj sample_creds) "s2" table_world
    = (Ok (JObj sample_creds), w')
    /\ rows_of "s2" w' <> []
    /\ Forall (fun r => r = mkSession "s2"
                 (JSON_stringify (JStr (JSON_stringify_replacer (JObj sample_creds)))))
         (rows_of "s2" w').
Proof.
  apply (initialisation_replaces_unusable_record (JObj sample_creds) "s2"
           (mkSession "s2" "{oops") table_world).
  - reflexivity.
  - reflexivity.
  - intros v H. vm_compute in H. discriminate.
Defined.

(** X13: a failure of the load is taken for a session without a record.
    When the folder is created, the load fails and the two calls of the
    save do not, the initialisation returns the fresh credentials and
    overwrites the record the session had; only the failed load is
    reported. *)
Theorem initialisation_masks_load_failure (creds0 : json) (sid : string)
    (row : SessionData) (rest : list bool) (w : world) :
  faults w = false :: true :: rest ->
  forallb negb (firstn 2 rest) = true ->
  find (has_session sid) (sessions w) = Some row ->
  exists w',
    useMultiFileAuthStatePrisma creds0 sid w = (Ok creds0, w')
    /\ rows_of sid w' <> []
    /\ Forall (fun r => r = mkSession sid
                              (JSON_stringify (JStr (JSON_stringify_replacer creds0))))
         (rows_of sid w')
    /\ console w'
       = console w ++ [("Error getting auth key for session " +:+ sid +:+ ":",
                        BackendFault)].
Proof.
  intros Hf Hrest Hfind. rewrite init_run.
  unfold fails_next at 1. rewrite Hf. cbn zeta.
  set (w0 := set_dirs _ _).
  assert (Hf0 : faults w0 = true :: rest).
  { unfold w0, next_call. cbn. now rewrite Hf. }
  rewrite getAuthKey_run, Hf0. cbn [truthy].
  set (w1 := after_failure _ _ _).
  assert (Hf1 : faults w1 = rest) by reflexivity.
  assert (H1 : fails_next w1 = false /\ fails_next (next_call w1) = false).
  { unfold fails_next, next_call. cbn [faults set_faults]. rewrite Hf1.
    destruct rest as [|[] [|[] r]]; cbn in Hrest |- *; try discriminate; now split. }
  destruct H1 as [H1 H2].
  rewrite saveKey_two_calls by assumption. cbn [snd].
  eexists. split; [reflexivity|]. unfold rows_of. cbn [sessions set_sessions].
  destruct (rows_after_save sid (JSON_stringify (JStr (JSON_stringify_replacer creds0)))
              (sessions w1)) as [Ha Hb].
  split; [exact Ha|]. split; [exact Hb|]. reflexivity.
Qed.

Lemma initialisation_masks_load_failure_witness :
  exists w',
    useMultiFileAuthStatePrisma (JObj sample_creds) "s1"
      (set_faults [false; true] table_world)
    = (Ok (JObj sample_creds), w')
    /\ rows_of "s1" w' <> []
    /\ Forall (fun r => r = mkSession "s1"
                 (JSON_stringify (JStr (JSON_stringify_replacer (JObj sample_creds)))))
         (rows_of "s1" w')
    /\ console w'
       = console (set_faults [false; true] table_world)
         ++ [("Error getting auth key for session " +:+ "s1" +:+ ":", BackendFault)].
Proof.
  apply (initialisation_masks_load_failure (JObj sample_creds) "s1"
           (mkSession "s1" (JSON_stringify stored_creds)) []
           (set_faults [false; true] table_world)); reflexivity.
Defined.

(** ** Bulk operations *)

(** *** The bulk get *)

Lemma get_entry_same_store (fromObject : json -> outcome json) (sid type_ id : string)
    (data : js_object) (w : world) :
  same_store w (snd (get_entry fromObject sid type_ id data w)).
Proof.
  rewrite get_entry_run.
  destruct (readData_total sid (entry_key type_ id) w) as (v & w1 & E & Hs).
  rewrite E. now destruct (reconstruct fromObject type_ v).
Qed.

Lemma get_entries_same_store (fromObject : json -> outcome json) (sid type_ : string)
    (ids : list string) (data : js_object) (w : world) :
  same_store w
    (snd (promise_all_on (map (get_entry fromObject sid type_) ids) data w)).
Proof.
  revert data w. induction ids as [|id0 ids IH]; intros data w;
    cbn [map promise_all_on]; [apply same_store_refl|].
  pose proof (get_entry_same_store fromObject sid type_ id0 data w) as H0.
  destruct (get_entry fromObject sid type_ id0 data w) as [[s1|e] w1]; cbn [snd] in *.
  - eapply same_store_trans; [exact H0 | apply IH].
  - eapply same_store_trans; [exact H0 | apply IH].
Qed.

(** X14: a bulk get changes no store, whether it returns or is rejected
    and whatever fails: the table, the cache, the folders, the files and
    the mode are as before. *)
Theorem keys_get_changes_no_store (fromObject : json -> outcome json)
    (sid type_ : string) (ids : list string) (w : world) :
  same_store w (snd (keys_get fromObject sid type_ ids w)).
Proof. unfold keys_get. apply get_entries_same_store. Qed.

(** With no failing call, the callbacks of a bulk get are rejected
    exactly when the reconstruction throws for the stored value of one
    of the ids. *)
Lemma get_entries_reject_iff (fromObject : json -> outcome json) (sid type_ : string)
    (ids : list string) (data : js_object) (w : world) :
  faults w = [] ->
  (exists e w', promise_all_on (map (get_entry fromObject sid type_) ids) data w
                = (Throw e, w'))
  <-> (exists id e, id ∈ ids
         /\ reconstruct fromObject type_ (stored_value w sid (entry_key type_ id))
            = Throw e).
Proof.
  revert data w. induction ids as [|id0 ids IH]; intros data w Hf.
  - cbn. unfold ret. split.
    + intros (e & w' & H). discriminate.
    + intros (id & e & Hin & _). inversion Hin.
  - cbn [map promise_all_on]. rewrite get_entry_run.
    destruct (readData_entry_spec sid (entry_key type_ id0) w (entry_key_not_creds _ _))
      as (v & w1 & Er & Hs1 & _ & Hh).
    destruct (Hh Hf) as [-> Hf1]. rewrite Er.
    destruct (reconstruct fromObject type_ _) as [v'|e0] eqn:Erec.
    + rewrite (IH _ w1 Hf1). split.
      * intros (id & e & Hin & H). exists id, e. split; [now right|].
        now rewrite <- (stored_value_same_store w w1 sid _ Hs1).
      * intros (id & e & Hin & H). apply elem_of_cons in Hin as [->|Hin]; [congruence|].
        exists id, e. split; [exact Hin|].
        now rewrite (stored_value_same_store w w1 sid _ Hs1).
    + split; [|eauto]. intros _. exists id0, e0. split; [left | exact Erec].
Qed.

(** X15: with no failing call, a bulk get that is not asked for the id
    [__proto__] is rejected exactly when the type is the distinguished
    one and [fromObject] throws for the stored value of a requested id,
    that value being truthy.  A stored value the code takes for absent
    is never handed to [fromObject]. *)
Theorem keys_get_rejects_iff_reconstruction_throws
    (fromObject : json -> outcome json) (sid type_ : string) (ids : list string)
    (w : world) :
  healthy w ->
  "__proto__" ∉ ids ->
  (exists e w', keys_get fromObject sid type_ ids w = (Throw e, w'))
  <-> (type_ = "app-state-sync-key"
       /\ exists id e, id ∈ ids
            /\ truthy (stored_value w sid (entry_key type_ id)) = true
            /\ fromObject (stored_value w sid (entry_key type_ id)) = Throw e).
Proof.
  intros Hf _. unfold keys_get. rewrite get_entries_reject_iff by exact Hf.
  unfold reconstruct. split.
  - intros (id & e & Hin & H).
    destruct (String.eqb_spec type_ "app-state-sync-key") as [Ht|Ht];
      [|discriminate].
    split; [exact Ht|]. exists id, e. split; [exact Hin|].
    destruct (truthy _); [now split | discriminate].
  - intros (Ht & id & e & Hin & Htr & H). exists id, e. split; [exact Hin|].
    rewrite Htr. apply String.eqb_eq in Ht. now rewrite Ht.
Qed.

Lemma keys_get_rejects_iff_reconstruction_throws_witness :
  (exists e w',
     keys_get refuse "s1" "app-state-sync-key" ["k"] fraction_world = (Throw e, w'))
  <-> ("app-state-sync-key" = "app-state-sync-key"
       /\ exists id e, id ∈ ["k"]
            /\ truthy (stored_value fraction_world "s1"
                         (entry_key "app-state-sync-key" id)) = true
            /\ refuse (stored_value fraction_world "s1"
                         (entry_key "app-state-sync-key" id)) = Throw e).
Proof.
  apply (keys_get_rejects_iff_reconstruction_throws refuse "s1" "app-state-sync-key"
           ["k"] fraction_world).
  - reflexivity.
  - rewrite elem_of_cons, elem_of_nil. intros [H|[]]; discriminate.
Defined.

(** The bulk get over a file with a fraction: the text parses, the value
    is truthy and is handed to the reconstruction of the distinguished
    type, whose failure rejects the call. *)
Example keys_get_sample_fraction :
  stored_value fraction_world "s1" (entry_key "app-state-sync-key" "k")
  = JArr [JDbl (S754_finite false 6755399441055744 (-52))]
  /\ exists w',
       keys_get refuse "s1" "app-state-sync-key" ["k"] fraction_world
       = (Throw TypeError, w').
Proof.
  split; [vm_compute; reflexivity|].
  destruct (keys_get refuse "s1" "app-state-sync-key" ["k"] fraction_world)
    as [[o|e] w'] eqn:E; vm_compute in E; [discriminate|].
  injection E as <- <-. eexists. reflexivity.
Qed.

(** *** The order of the ids *)

Lemma assign_all_stuck (vals : string -> json) (ids : list string) (o : js_object) :
  (forall m, o <> Plain m) -> forall m, assign_all vals ids o <> Plain m.
Proof.
  revert o. induction ids as [|id ids IH]; intros o Ho; [exact Ho|].
  unfold assign_all in *. cbn [fold_left]. apply IH.
  destruct o as [own | own p |]; [now destruct (Ho own) | discriminate | discriminate].
Qed.

(** The object the assignments of a list of ids make of an ordinary one:
    it stays ordinary unless the id [__proto__] is assigned an object or
    [null], and then binds every other id of the list to its value. *)
Lemma assign_all_spec (vals : string -> json) (ids : list string)
    (d : gmap string json) :
  ("__proto__" ∈ ids /\ reparents (vals "__proto__") = true
   /\ forall m, assign_all vals ids (Plain d) <> Plain m)
  \/ (("__proto__" ∈ ids -> reparents (vals "__proto__") = false)
      /\ exists m,
           assign_all vals ids (Plain d) = Plain m
           /\ (forall k, k ∈ ids -> k <> "__proto__" -> m !! k = Some (vals k))
           /\ (forall k, k ∉ ids \/ k = "__proto__" -> m !! k = d !! k)).
Proof.
  revert d. induction ids as [|id ids IH]; intros d.
  - right. split; [intros H; inversion H|]. exists d. split; [reflexivity|].
    split; [intros k H; inversion H | reflexivity].
  - unfold assign_all in *. cbn [fold_left assign].
    destruct (String.eqb_spec id "__proto__") as [->|Hne].
    + destruct (reparents (vals "__proto__")) eqn:Hr.
      * left. split; [left|]. split; [reflexivity|].
        apply assign_all_stuck. discriminate.
      * destruct (IH d) as [(_ & Hr' & _) | (_ & m & E & Hin & Hout)]; [congruence|].
        right. split; [reflexivity|]. exists m. split; [exact E|]. split.
        -- intros k Hk Hkp. apply Hin; [|exact Hkp].
           apply elem_of_cons in Hk as [?|?]; [congruence | assumption].
        -- intros k [Hk| ->]; apply Hout; [left | now right].
           intros H. apply Hk. now right.
    + destruct (IH (<[id := vals id]> d)) as [(Hp & Hr & Hno) | (Hp & m & E & Hin & Hout)].
      * left. split; [now right|]. split; [exact Hr | exact Hno].
      * right. split.
        { intros H. apply Hp. apply elem_of_cons in H as [?|?]; [congruence | assumption]. }
        exists m. split; [exact E|]. split.
        -- intros k Hk Hkp. destruct (decide (k ∈ ids)) as [Hi|Hni]; [now apply Hin|].
           apply elem_of_cons in Hk as [->|?]; [|contradiction].
           rewrite Hout by now left. apply lookup_insert_eq.
        -- intros k Hk. rewrite Hout.
           ++ apply lookup_insert_ne. destruct Hk as [Hk| ->]; [|exact Hne].
              intros ->. apply Hk. left.
           ++ destruct Hk as [Hk| ->]; [left | now right].
              intros H. apply Hk. now right.
Qed.

Lemma assign_all_same_ids (vals : string -> json) (ids ids' : list string)
    (d m : gmap string json) :
  (forall id, id ∈ ids <-> id ∈ ids') ->
  assign_all vals ids (Plain d) = Plain m ->
  assign_all vals ids' (Plain d) = Plain m.
Proof.
  intros Hsame E.
  destruct (assign_all_spec vals ids d) as [(_ & _ & Hno) | (Hp & m0 & E0 & Hin & Hout)];
    [now destruct (Hno m)|].
  rewrite E0 in E. injection E as ->.
  destruct (assign_all_spec vals ids' d)
    as [(Hp' & Hr' & _) | (_ & m' & E' & Hin' & Hout')].
  - apply Hsame in Hp'. rewrite (Hp Hp') in Hr'. discriminate.
  - rewrite E'. f_equal. apply map_eq. intros k.
    destruct (decide (k ∈ ids /\ k <> "__proto__")) as [[Hk Hkp]|Hn].
    + rewrite Hin by assumption. apply Hin'; [now apply Hsame | exact Hkp].
    + assert (Hcase : k ∉ ids \/ k = "__proto__").
      { destruct (decide (k ∈ ids)) as [Hk|Hk]; [|now left].
        destruct (decide (k = "__proto__")) as [?|Hkp]; [now right|].
        exfalso. apply Hn. now split. }
      rewrite (Hout k Hcase). apply Hout'.
      destruct Hcase as [Hk| ->]; [left | now right].
      intros H. apply Hk. now apply Hsame.
Qed.

(** With no failing call a bulk get makes the assignments of the values
    the reconstruction gives for the stored values. *)
Lemma get_entries_healthy (fromObject : json -> outcome json) (sid type_ : string)
    (vals : string -> json) (ids : list string) (o : js_object) (w : world) :
  faults w = [] ->
  (forall id, id ∈ ids ->
     reconstruct fromObject type_ (stored_value w sid (entry_key type_ id))
     = Ok (vals id)) ->
  exists w',
    promise_all_on (map (get_entry fromObject sid type_) ids) o w
    = (Ok (assign_all vals ids o), w').
Proof.
  revert o w. induction ids as [|id0 ids IH]; intros o w Hf Hvals.
  - cbn. unfold ret. eauto.
  - cbn [map promise_all_on]. rewrite get_entry_run.
    destruct (readData_entry_spec sid (entry_key type_ id0) w (entry_key_not_creds _ _))
      as (v & w1 & Er & Hs1 & _ & Hh).
    destruct (Hh Hf) as [-> Hf1]. rewrite Er, (Hvals id0) by left.
    unfold assign_all. cbn [fold_left]. apply (IH _ w1 Hf1).
    intros id Hin. rewrite (stored_value_same_store w w1 sid _ Hs1).
    apply Hvals. now right.
Qed.

(** X16: with no failing call, the ordinary object a bulk get resolves
    to depends on the set of the requested ids only, not on their order
    and not on repetitions. *)
Theorem keys_get_ignores_order (fromObject : json -> outcome json)
    (sid type_ : string) (ids ids' : list string) (w : world)
    (m : gmap string json) (w1 : world) :
  healthy w ->
  (forall id, id ∈ ids <-> id ∈ ids') ->
  keys_get fromObject sid type_ ids w = (Ok (Plain m), w1) ->
  exists w2, keys_get fromObject sid type_ ids' w = (Ok (Plain m), w2).
Proof.
  intros Hf Hsame E. unfold keys_get in *.
  set (vals := fun id =>
         match reconstruct fromObject type_ (stored_value w sid (entry_key type_ id)) with
         | Ok x => x
         | Throw _ => JNull
         end).
  assert (Hvals : forall id, id ∈ ids ->
            reconstruct fromObject type_ (stored_value w sid (entry_key type_ id))
            = Ok (vals id)).
  { intros id Hin. unfold vals.
    destruct (reconstruct fromObject type_ _) as [x|e] eqn:Ex; [reflexivity|].
    exfalso.
    destruct (proj2 (get_entries_reject_iff fromObject sid type_ ids (Plain ∅) w Hf))
      as (e' & w' & Hrej); [eauto|].
    congruence. }
  destruct (get_entries_healthy fromObject sid type_ vals ids (Plain ∅) w Hf Hvals)
    as [w1' E1].
  assert (Hm : assign_all vals ids (Plain ∅) = Plain m) by congruence.
  destruct (get_entries_healthy fromObject sid type_ vals ids' (Plain ∅) w Hf)
    as [w2 E2].
  { intros id Hin. apply Hvals. now apply Hsame. }
  exists w2. rewrite E2. now rewrite (assign_all_same_ids vals ids ids' ∅ m Hsame Hm).
Qed.

Lemma keys_get_ignores_order_witness :
  exists w2,
    keys_get accept "s1" "pre-key" ["2"; "1"; "2"] fs_world
    = (Ok (Plain sample_mapping), w2).
Proof.
  apply (keys_get_ignores_order accept "s1" "pre-key" ["1"; "2"] ["2"; "1"; "2"]
           fs_world sample_mapping
           (snd (keys_get accept "s1" "pre-key" ["1"; "2"] fs_world))).
  - reflexivity.
  - intros id. rewrite !elem_of_cons. rewrite elem_of_nil. tauto.
  - vm_compute. reflexivity.
Defined.

(** *** The bulk set *)

Lemma set_task_frame (sid : string) (t : string * string * json) (w : world) :
  let w1 := snd (set_task sid t w) in
  sessions w1 = sessions w /\ dirs w1 = dirs w /\ redis_enabled w1 = redis_enabled w
  /\ (redis_enabled w = true -> files w1 = files w)
  /\ (redis_enabled w = false -> cache_store w1 = cache_store w)
  /\ (forall sid' key, sid' <> sid ->
        cache_store w1 !! (sid', key) = cache_store w !! (sid', key)).
Proof.
  cbn zeta. unfold set_task. destruct (truthy (snd t)).
  - rewrite writeData_entry_run by apply entry_key_not_creds. cbn zeta.
    destruct (fails_next w); [cbn; now repeat split|].
    destruct (redis_enabled w) eqn:Er.
    + cbn. repeat split; auto; try discriminate. intros sid' key Hne.
      rewrite lookup_insert_ne; [reflexivity | congruence].
    + destruct (bool_decide _); cbn; repeat split; auto; discriminate.
  - rewrite removeData_entry_run by apply entry_key_not_creds. cbn zeta.
    destruct (fails_next w); [cbn; now repeat split|].
    destruct (redis_enabled w) eqn:Er.
    + destruct (cache_store w !! _) eqn:E; cbn; repeat split; auto;
        try discriminate.
      intros sid' key Hne. rewrite lookup_delete_ne; [reflexivity | congruence].
    + destruct (files w !! _) eqn:E; cbn; repeat split; auto; discriminate.
Qed.

Lemma keys_set_world (sid : string) (data : list (string * list (string * json)))
    (w : world) :
  snd (keys_set sid data w) = run_tasks sid (triples data) w.
Proof.
  rewrite keys_set_run. unfold run_tasks. rewrite <- promise_all_world.
  now destruct (promise_all _ w) as [[r|e] w'].
Qed.

(** X17: a bulk set touches the active backend of its session only,
    whatever fails: the table, the folders and the mode are as before,
    so is the backend that is not in use, and so are the cache entries
    of every other session. *)
Theorem keys_set_touches_active_backend_only (sid : string)
    (data : list (string * list (string * json))) (w : world) :
  let w' := snd (keys_set sid data w) in
  sessions w' = sessions w /\ dirs w' = dirs w /\ redis_enabled w' = redis_enabled w
  /\ (redis_enabled w = true -> files w' = files w)
  /\ (redis_enabled w = false -> cache_store w' = cache_store w)
  /\ (forall sid' key, sid' <> sid ->
        cache_store w' !! (sid', key) = cache_store w !! (sid', key)).
Proof.
  cbn zeta. rewrite keys_set_world. unfold run_tasks.
  generalize (triples data) as ts. intros ts. revert w.
  induction ts as [|t ts IH]; intros w; cbn [map fold_left].
  - repeat split; auto.
  - destruct (set_task_frame sid t w) as (Hs & Hd & Hr & Hf & Hc & Ho).
    destruct (IH (snd (set_task sid t w))) as (Hs' & Hd' & Hr' & Hf' & Hc' & Ho').
    rewrite Hs', Hd', Hr', Hs, Hd, Hr. repeat split.
    + intros E. rewrite Hf' by congruence. now apply Hf.
    + intros E. rewrite Hc' by congruence. now apply Hc.
    + intros sid' key Hne. rewrite Ho' by exact Hne. now apply Ho.
Qed.

(** A task of a ready world fails exactly when it removes an entry the
    backend does not hold. *)
Lemma set_task_rejects_iff (sid : string) (t : string * string * json) (w : world) :
  ready sid w ->
  (exists e w', set_task sid t w = (Throw e, w'))
  <-> (truthy (snd t) = false /\ backend_entry w sid (task_key t) = None).
Proof.
  intros [Hf Hd]. unfold set_task, backend_entry, task_key.
  destruct (truthy (snd t)).
  - rewrite writeData_entry_run by apply entry_key_not_creds.
    rewrite (fails_next_healthy w Hf). cbn zeta.
    destruct (redis_enabled w) eqn:Er.
    + split; [intros (e & w' & H); discriminate | intros [H _]; discriminate].
    + destruct Hd as [Hd|Hd]; [discriminate|].
      rewrite bool_decide_eq_true_2 by exact Hd.
      split; [intros (e & w' & H); discriminate | intros [H _]; discriminate].
  - rewrite removeData_entry_run by apply entry_key_not_creds.
    rewrite (fails_next_healthy w Hf). cbn zeta.
    destruct (redis_enabled w) eqn:Er.
    + destruct (cache_store w !! _) eqn:E; cbn.
      * split; [intros (e & w' & H); discriminate | intros [_ H]; discriminate].
      * split; [now split | eauto].
    + destruct (files w !! _) eqn:E; cbn.
      * split; [intros (e & w' & H); discriminate | intros [_ H]; discriminate].
      * split; [now split | eauto].
Qed.

Lemma set_tasks_reject_iff (sid : string) (ts : list (string * string * json))
    (w : world) :
  ready sid w -> NoDup (map (slot_of w) ts) ->
  (exists e w', promise_all (map (set_task sid) ts) w = (Throw e, w'))
  <-> (exists t, t ∈ ts /\ truthy (snd t) = false
                 /\ backend_entry w sid (task_key t) = None).
Proof.
  revert w. induction ts as [|t0 ts IH]; intros w Hr Hnd.
  - cbn. unfold ret. split.
    + intros (e & w' & H). discriminate.
    + intros (t & Hin & _). inversion Hin.
  - cbn [map] in Hnd. apply NoDup_cons in Hnd as [Hfresh Hnd].
    destruct (set_task_effect sid t0 w Hr) as (Hr1 & Em & _ & Hother).
    pose proof (set_task_rejects_iff sid t0 w Hr) as H0.
    assert (Hnd1 : NoDup (map (slot_of (snd (set_task sid t0 w))) ts)).
    { erewrite map_ext; [exact Hnd|]. intros a. now apply slot_of_same_mode. }
    assert (Hkeep : forall t, t ∈ ts ->
              backend_entry (snd (set_task sid t0 w)) sid (task_key t)
              = backend_entry w sid (task_key t)).
    { intros t Hin. apply Hother. intros E. apply Hfresh. rewrite <- E.
      now apply list_elem_of_fmap_2. }
    cbn [map promise_all].
    destruct (set_task sid t0 w) as [[a|e0] w1] eqn:E0; cbn [snd] in *.
    + specialize (IH w1 Hr1 Hnd1).
      destruct (promise_all (map (set_task sid) ts) w1) as [[r|e] w2] eqn:E1.
      * split; [intros (e & w' & H); discriminate|].
        intros (t & Hin & Ht & Hb). exfalso.
        apply elem_of_cons in Hin as [->|Hin].
        -- destruct (proj2 H0 (conj Ht Hb)) as (e & w' & H). discriminate.
        -- destruct (proj2 IH) as (e & w' & H); [|discriminate].
           exists t. rewrite Hkeep by exact Hin. auto.
      * split; [|eauto]. intros _.
        destruct (proj1 IH) as (t & Hin & Ht & Hb); [eauto|].
        exists t. rewrite Hkeep in Hb by exact Hin. split; [now right | auto].
    + split; [|eauto]. intros _. exists t0.
      destruct (proj1 H0) as [Ht Hb]; [eauto|]. split; [left | auto].
Qed.

(** X18: with no failing call, the active backend able to take entries
    and the triples addressing distinct slots, a bulk set is rejected
    exactly when one of its triples asks for the removal of an entry the
    backend does not hold, in cache mode as in filesystem mode. *)
Theorem keys_set_rejects_iff_removing_absent (sid : string)
    (data : list (string * list (string * json))) (w : world) :
  healthy w ->
  redis_enabled w = true \/ localFolder sid ∈ dirs w ->
  NoDup (map (slot_of w) (triples data)) ->
  (exists e w', keys_set sid data w = (Throw e, w'))
  <-> (exists category id v,
         (category, id, v) ∈ triples data /\ truthy v = false
         /\ backend_entry w sid (entry_key category id) = None).
Proof.
  intros Hh Hd Hnd. rewrite keys_set_run.
  pose proof (set_tasks_reject_iff sid (triples data) w (conj Hh Hd) Hnd) as H.
  split.
  - intros (e & w' & E).
    destruct (promise_all _ w) as [[r|e1] w1] eqn:E1; [discriminate|].
    destruct (proj1 H) as ([[category id] v] & Hin & Ht & Hb); [eauto|].
    exists category, id, v. auto.
  - intros (category & id & v & Hin & Ht & Hb).
    destruct (proj2 H) as (e & w' & E).
    { exists (category, id, v). auto. }
    rewrite E. eauto.
Qed.

Lemma keys_set_rejects_iff_removing_absent_witness :
  (exists e w', keys_set "s1" bulk_data fs_world = (Throw e, w'))
  <-> (exists category id v,
         (category, id, v) ∈ triples bulk_data /\ truthy v = false
         /\ backend_entry fs_world "s1" (entry_key category id) = None).
Proof.
  apply (keys_set_rejects_iff_removing_absent "s1" bulk_data fs_world).
  - reflexivity.
  - right. refine (bool_decide_unpack _ _); vm_compute; exact I.
  - refine (bool_decide_unpack _ _); vm_compute; exact I.
Defined.

Lemma run_tasks_ready (sid : string) (ts : list (string * string * json)) (w : world) :
  ready sid w ->
  ready sid (run_tasks sid ts w)
  /\ redis_enabled (run_tasks sid ts w) = redis_enabled w.
Proof.
  revert w. induction ts as [|t ts IH]; intros w Hr; [now split|].
  destruct (set_task_effect sid t w Hr) as (Hr1 & Em & _ & _).
  change (run_tasks sid (t :: ts) w) with (run_tasks sid ts (snd (set_task sid t w))).
  destruct (IH _ Hr1) as [Hr2 Em2]. split; [exact Hr2 | congruence].
Qed.

(** The value a read decodes from what a write left in the backend. *)
Lemma stored_value_written (sid key : string) (v : json) (w w1 : world) :
  redis_enabled w1 = redis_enabled w ->
  backend_entry w1 sid key = (if truthy v then Some (written_form w v) else None) ->
  wf_json v = true -> no_tag v = true ->
  stored_value w1 sid key = (if truthy v then v else JNull).
Proof.
  unfold backend_entry, written_form, stored_value. intros -> Hb Hw Hn.
  destruct (redis_enabled w).
  - destruct (cache_store w1 !! (sid, key)) as [d|]; cbn in Hb.
    + destruct (truthy v) eqn:Ht; [|discriminate].
      assert (d = plain v) by congruence. subst d.
      now rewrite truthy_plain, Ht, decode_cached.
    + destruct (truthy v); [discriminate | reflexivity].
  - destruct (files w1 !! localFile sid key) as [text|]; cbn in Hb.
    + destruct (truthy v) eqn:Ht; [|discriminate].
      assert (text = JSON_stringify_replacer v) by congruence. subst text.
      now rewrite decode_encoded.
    + destruct (truthy v); [discriminate | reflexivity].
Qed.

(** X19: with no failing call, the active backend able to take entries
    and the triples addressing distinct slots, a bulk get that follows a
    bulk set which resolved, and is not asked for the id [__proto__],
    binds the id of each triple of the set to the value of the triple,
    and to [null] where the value was absent.  The values carry no
    marker and the type is not the distinguished one. *)
Theorem keys_set_then_keys_get (fromObject : json -> outcome json)
    (sid category id : string) (v : json) (ids : list string)
    (data : list (string * list (string * json))) (w w1 : world) :
  healthy w ->
  redis_enabled w = true \/ localFolder sid ∈ dirs w ->
  NoDup (map (slot_of w) (triples data)) ->
  (category, id, v) ∈ triples data ->
  wf_json v = true -> no_tag v = true ->
  category <> "app-state-sync-key" ->
  id ∈ ids -> "__proto__" ∉ ids ->
  keys_set sid data w = (Ok tt, w1) ->
  exists m w2,
    keys_get fromObject sid category ids w1 = (Ok (Plain m), w2)
    /\ m !! id = Some (if truthy v then v else JNull).
Proof.
  intros Hh Hd Hnd Hin Hw Hn Hcat Hid Hproto Hset.
  assert (Ew : w1 = run_tasks sid (triples data) w).
  { rewrite <- keys_set_world. now rewrite Hset. }
  subst w1.
  destruct (run_tasks_ready sid (triples data) w (conj Hh Hd)) as [[Hf1 _] Em].
  pose proof (run_tasks_effect sid (triples data) (category, id, v) w
                (conj Hh Hd) Hnd Hin) as Hb.
  cbn [fst snd] in Hb.
  pose proof (stored_value_written sid _ v w _ Em Hb Hw Hn) as Hs.
  set (w1 := run_tasks sid (triples data) w) in *.
  assert (Hsafe : reconstruct_safe fromObject category) by now left.
  unfold keys_get.
  destruct (get_entries_total fromObject sid category ids (Plain ∅) w1 Hsafe)
    as (o & w2 & E).
  destruct (get_entries_spec fromObject sid category ids ∅ w1 o w2 Hproto E)
    as (m & -> & _ & Hdom & _ & Hh1).
  exists m, w2. split; [exact E|].
  destruct (Hh1 Hf1) as [_ Hv].
  assert (Hsome : is_Some (m !! id)).
  { apply (elem_of_dom (D := gset string)). rewrite Hdom.
    apply elem_of_union_r. now apply elem_of_list_to_set. }
  destruct Hsome as [x Hx]. rewrite Hx. f_equal.
  specialize (Hv id x Hx Hid). rewrite Hs in Hv. unfold reconstruct in Hv.
  apply String.eqb_neq in Hcat. rewrite Hcat in Hv. cbn in Hv. congruence.
Qed.

Lemma keys_set_then_keys_get_witness :
  exists m w2,
    keys_get accept "s1" "pre-key" ["3"] (snd (keys_set "s1" bulk_data fs_world))
    = (Ok (Plain m), w2)
    /\ m !! "3" = Some (if truthy pre_key_value then pre_key_value else JNull).
Proof.
  apply (keys_set_then_keys_get accept "s1" "pre-key" "3" pre_key_value ["3"]
           bulk_data fs_world).
  - reflexivity.
  - right. refine (bool_decide_unpack _ _); vm_compute; exact I.
  - refine (bool_decide_unpack _ _); vm_compute; exact I.
  - unfold bulk_data, triples. cbn [flat_map map fst snd app].
    apply elem_of_cons. right. apply elem_of_cons. left. reflexivity.
  - reflexivity.
  - reflexivity.
  - discriminate.
  - apply elem_of_cons. left. reflexivity.
  - rewrite elem_of_cons, elem_of_nil. intros [H|[]]; discriminate.
  - vm_compute. reflexivity.
Defined.
